(** * EncryptBckDocs: the watch-to-sync reconciliation engine

    A shallow embedding of [EncryptBckDocs.go], in its config-driven
    variant with several watched paths (lines 1-513 of the source file;
    the two older variants that follow it in the file are not modelled).

    Modelled from the program: [appFiles], [appConfig], [findHolderFolder],
    [findUploadFileInDrive], [updateLastUpdateAppConfig],
    [updateFileInDrive], [uploadNewFileToDrive], [loadConfig],
    [saveConfigJSONFile], [createFolderInDrive], [isNotAppFile],
    [isNotHiddenFile], [runWatcher], [uploadActualFilesInWatchDir],
    [processUpload], [configFolderToWatch], [addFolderToWatch] and
    [executeApp].  The OAuth set-up, the menu and [main] are left out.

    Modelled from their documentation, as the surroundings of the program:
    the functions of [strings], [path/filepath], [unicode/utf8] and
    [encoding/json] that the program calls, the Drive service behind
    [driveSrv], the file system, the standard input and the clock.

    Go strings are byte sequences: they are modelled by [string], whose
    characters are 8-bit [ascii] values.  Go [int] values (indices and
    lengths, never near the 64-bit bounds here) are modelled by [Z].  A
    pointer that may be nil is an [option]; a Go [error] that may be nil is
    an [option error]. *)

From Stdlib Require Import String Ascii List ZArith Lia Bool Arith.
Import ListNotations.
Local Open Scope string_scope.
Local Open Scope Z_scope.

(** ** Go run-time and standard library, as far as the program uses them *)

(** [len(s)] *)
Definition len (s : string) : Z := Z.of_nat (String.length s).

Arguments len : simpl never.

(** The slice expression [s[lo:hi]] on a string.  It panics at run time
    unless [0 <= lo <= hi <= len(s)]; [None] stands for that panic. *)
Definition slice (s : string) (lo hi : Z) : option string :=
  if (0 <=? lo) && (lo <=? hi) && (hi <=? len s)
  then Some (substring (Z.to_nat lo) (Z.to_nat (hi - lo)) s)
  else None.

(** A double quote character, and a line feed. *)
Definition dquote : string := String "034"%char EmptyString.
Definition nl : string := String "010"%char EmptyString.

Module strings.

(** [strings.Index(s, substr)]: index of the first instance of [substr]
    in [s], or -1. *)
Fixpoint index_from (i : Z) (s substr : string) : Z :=
  if prefix substr s then i
  else match s with
       | EmptyString => -1
       | String _ s' => index_from (i + 1) s' substr
       end.

Definition Index (s substr : string) : Z := index_from 0 s substr.

(** [strings.LastIndex(s, substr)]: index of the last instance of
    [substr] in [s], or -1. *)
Fixpoint last_index_from (i : Z) (s substr : string) : Z :=
  match s with
  | EmptyString => if prefix substr s then i else -1
  | String _ s' =>
      let later := last_index_from (i + 1) s' substr in
      if 0 <=? later then later
      else if prefix substr s then i else -1
  end.

Definition LastIndex (s substr : string) : Z := last_index_from 0 s substr.

End strings.

Module filepath.

(** [os.PathSeparator] on the platforms the program is written for. *)
Definition Separator : string := "/".

(** Drop the trailing separators of a path. *)
Fixpoint trimTrailingSeparators (path : string) : string :=
  match path with
  | EmptyString => EmptyString
  | String c rest =>
      let rest' := trimTrailingSeparators rest in
      if (c =? "/")%char && (rest' =? EmptyString)%string
      then EmptyString
      else String c rest'
  end.

(** [filepath.Base(path)]: the last element of [path]; trailing
    separators are removed first; the empty path gives a dot, a path of
    separators only gives one separator. *)
Definition Base (path : string) : string :=
  if (path =? EmptyString)%string then "."
  else
    let path := trimTrailingSeparators path in
    let i := strings.LastIndex path Separator in
    let path :=
      if 0 <=? i
      then substring (Z.to_nat (i + 1))
                     (String.length path - Z.to_nat (i + 1)) path
      else path in
    if (path =? EmptyString)%string then Separator else path.

End filepath.

(** ** The program's own files and the two name filters *)

Definition configFileName : string := "config.json".
Definition clientSecretFileName : string := "client_secret.json".

Definition appFiles : list string :=
  [configFileName; clientSecretFileName; "EncryptBckDocs.go"; "EncryptBckDocs"].

(** [isNotAppFile], with its loop over [names] made explicit. *)
Fixpoint isNotAppFile_loop (names : list string) (fileName : string) : bool :=
  match names with
  | [] => true
  | name :: names' =>
      let indexOfName := strings.LastIndex fileName name in
      let nameLength := len name in
      let fileNameLength := len fileName in
      if fileNameLength - nameLength =? indexOfName
      then false
      else isNotAppFile_loop names' fileName
  end.

Definition isNotAppFile (fileName : string) : bool :=
  isNotAppFile_loop appFiles fileName.

(** [isNotHiddenFile]: despite its name, the function answers [true] when
    the path has a separator followed by a dot; its two callers negate it. *)
Definition isNotHiddenFile (fileName : string) : bool :=
  negb (strings.Index fileName "/." =? -1).

(** The test both the sweep and the watch loop apply before they call
    [processUpload]. *)
Definition passesFilters (path : string) : bool :=
  isNotAppFile path && negb (isNotHiddenFile path).

(** ** Vocabulary of the specification *)

(** [sub] occurs in [s] at some position. *)
Fixpoint contains (s sub : string) : bool :=
  prefix sub s ||
  match s with
  | EmptyString => false
  | String _ s' => contains s' sub
  end.

(** [s] ends with [suffix]. *)
Definition hasSuffix (s suffix : string) : Prop :=
  exists front, s = front ++ suffix.

(** A path names one of the program's own files, by suffix. *)
Definition isAppArtifact (path : string) : Prop :=
  exists name, In name appFiles /\ hasSuffix path name.

(** A path has a hidden segment. *)
Definition isHiddenPath (path : string) : Prop :=
  exists front back, path = front ++ "/." ++ back.

(** ** Data *)

Definition error : Type := string.

(** [appConfig], the persisted configuration record. *)
Record appConfig : Type := mkAppConfig {
  FolderName : string;
  LastUpdate : string;
  FolderToWatch : list string
}.

(** The zero value of [appConfig]. *)
Definition zeroConfig : appConfig := mkAppConfig EmptyString EmptyString [].

(** The fields of [drive.File] the program reads or writes. *)
Record DriveFile : Type := mkDriveFile {
  Id : string;
  Name : string;
  MimeType : string;
  Parents : list string
}.

Definition folderMimeType : string := "application/vnd.google-apps.folder".

(** What the remote store keeps for one file: its metadata, the trash flag
    and the uploaded bytes. *)
Record RemoteEntry : Type := mkRemoteEntry {
  meta : DriveFile;
  explicitlyTrashed : bool;
  content : string
}.

(** [os.FileInfo], as far as the sweep reads it. *)
Record FileInfo : Type := mkFileInfo {
  fiName : string;
  IsDir : bool
}.

(** [fsnotify.Event] and the [fsnotify.Write] bit of its [Op] mask. *)
Record fsEvent : Type := mkFsEvent {
  evName : string;
  Op : Z
}.

Definition fsWrite : Z := 2.

(** What the watcher delivers: an event on [watcher.Events] or an error on
    [watcher.Errors]. *)
Inductive WatcherMsg : Type :=
| OnEvents (event : fsEvent)
| OnErrors (err : error).

(** ** Observable actions *)

Inductive Event : Type :=
| EvPrint (text : string)
| EvLog (text : string)
| EvOpen (path : string)
| EvReadDir (path : string)
| EvWriteFile (path data : string)
| EvScanln
| EvWatchAdd (path : string)
| EvList (q fields : string)
| EvCreate (file : DriveFile) (media : option string)
| EvUpdate (fileId : string) (file : DriveFile) (media : option string).

(** ** The world the program runs in

    The package-level variable [configApp], the remote store behind
    [driveSrv], the local file system, the standard input, the clock, and
    the answers of the operating system that the program does not compute
    itself. *)
Record World : Type := mkWorld {
  configApp : appConfig;
  remote : list RemoteEntry;            (* in listing order *)
  driveFault : nat -> option error;     (* error answering the n-th API call *)
  driveCalls : nat;
  fsFile : string -> string + error;    (* os.Open: the bytes, or the error *)
  fsWritable : string -> bool;          (* whether ioutil.WriteFile succeeds *)
  fsDir : string -> list FileInfo + error;       (* ioutil.ReadDir *)
  stdin : list string;                  (* tokens still to be read *)
  clock : nat -> string;                (* time.Now().String(), by reading *)
  ticks : nat;
  pathDir : string -> string;           (* filepath.Dir *)
  pathAbs : string -> string;           (* filepath.Abs, error dropped *)
  watchAddErr : string -> option error; (* watcher.Add *)
  newWatcherErr : option error          (* fsnotify.NewWatcher *)
}.

Definition set_configApp (c : appConfig) (w : World) : World :=
  mkWorld c (remote w) (driveFault w) (driveCalls w) (fsFile w)
          (fsWritable w) (fsDir w) (stdin w) (clock w) (ticks w) (pathDir w)
          (pathAbs w) (watchAddErr w) (newWatcherErr w).

Definition set_remote (r : list RemoteEntry) (w : World) : World :=
  mkWorld (configApp w) r (driveFault w) (driveCalls w) (fsFile w)
          (fsWritable w) (fsDir w) (stdin w) (clock w) (ticks w) (pathDir w)
          (pathAbs w) (watchAddErr w) (newWatcherErr w).

Definition set_driveCalls (n : nat) (w : World) : World :=
  mkWorld (configApp w) (remote w) (driveFault w) n (fsFile w)
          (fsWritable w) (fsDir w) (stdin w) (clock w) (ticks w) (pathDir w)
          (pathAbs w) (watchAddErr w) (newWatcherErr w).

Definition set_fsFile (f : string -> string + error) (w : World) : World :=
  mkWorld (configApp w) (remote w) (driveFault w) (driveCalls w) f
          (fsWritable w) (fsDir w) (stdin w) (clock w) (ticks w) (pathDir w)
          (pathAbs w) (watchAddErr w) (newWatcherErr w).

Definition set_stdin (l : list string) (w : World) : World :=
  mkWorld (configApp w) (remote w) (driveFault w) (driveCalls w) (fsFile w)
          (fsWritable w) (fsDir w) l (clock w) (ticks w) (pathDir w)
          (pathAbs w) (watchAddErr w) (newWatcherErr w).

Definition set_ticks (n : nat) (w : World) : World :=
  mkWorld (configApp w) (remote w) (driveFault w) (driveCalls w) (fsFile w)
          (fsWritable w) (fsDir w) (stdin w) (clock w) n (pathDir w)
          (pathAbs w) (watchAddErr w) (newWatcherErr w).

(** ** Computations: state, a log of actions, and abrupt termination *)

Inductive Outcome (A : Type) : Type :=
| Returned (a : A)
| Fatal (msg : string)      (* log.Fatal: the process exits with status 1 *)
| Panicked (msg : string).  (* panic, or a run-time error *)

Arguments Returned {A} a.
Arguments Fatal {A} msg.
Arguments Panicked {A} msg.

Record Run (A : Type) : Type := mkRun {
  outcome : Outcome A;
  final : World;
  emitted : list Event
}.

Arguments mkRun {A} outcome final emitted.
Arguments outcome {A} r.
Arguments final {A} r.
Arguments emitted {A} r.

Definition M (A : Type) : Type := World -> Run A.

Definition ret {A : Type} (a : A) : M A :=
  fun w => mkRun (Returned a) w [].

Definition bind {A B : Type} (m : M A) (k : A -> M B) : M B :=
  fun w =>
    match m w with
    | mkRun (Returned a) w1 ev1 =>
        match k a w1 with
        | mkRun o w2 ev2 => mkRun o w2 (ev1 ++ ev2)
        end
    | mkRun (Fatal msg) w1 ev1 => mkRun (Fatal msg) w1 ev1
    | mkRun (Panicked msg) w1 ev1 => mkRun (Panicked msg) w1 ev1
    end.

Declare Scope go_scope.
Delimit Scope go_scope with go.

Notation "x <- m ;; k" := (bind m (fun x => k))
  (at level 61, m at next level, right associativity) : go_scope.
Notation "m ;; k" := (bind m (fun _ => k))
  (at level 61, right associativity) : go_scope.

Local Open Scope go_scope.

Definition emit (e : Event) : M unit :=
  fun w => mkRun (Returned tt) w [e].

Definition get : M World :=
  fun w => mkRun (Returned w) w [].

Definition modify (f : World -> World) : M unit :=
  fun w => mkRun (Returned tt) (f w) [].

Definition panic {A : Type} (msg : string) : M A :=
  fun w => mkRun (Panicked msg) w [].

(** A [for _, x := range xs] loop whose body returns nothing. *)
Fixpoint forRange {A : Type} (xs : list A) (body : A -> M unit) : M unit :=
  match xs with
  | [] => ret tt
  | x :: xs' => body x ;; forRange xs' body
  end.

(** [fmt.Print] and friends write [text] to the standard output. *)
Definition fmt_Print (text : string) : M unit := emit (EvPrint text).

(** [log.Print] and friends; the time stamp the logger puts in front of
    each line is left out. *)
Definition log_Print (text : string) : M unit := emit (EvLog text).

(** [log.Fatal] and friends: the line is logged, then the process exits. *)
Definition log_Fatal {A : Type} (text : string) : M A :=
  fun w => mkRun (Fatal text) w [EvLog text].

(** [%v] of an error value. *)
Definition showErr (err : option error) : string :=
  match err with
  | Some e => e
  | None => "<nil>"
  end.

(** ** Operating system, standard input and clock *)

(** [os.Open(path)].  The handle is modelled by the bytes that can be read
    through it. *)
Definition os_Open (path : string) : M (string + error) :=
  fun w => mkRun (Returned (fsFile w path)) w [EvOpen path].

(** [ioutil.ReadDir(path)] *)
Definition ioutil_ReadDir (path : string) : M (list FileInfo + error) :=
  fun w => mkRun (Returned (fsDir w path)) w [EvReadDir path].

(** [ioutil.WriteFile(path, data, 0644)]; the program drops its error. *)
Definition ioutil_WriteFile (path data : string) : M unit :=
  fun w =>
    let w' :=
      if fsWritable w path
      then set_fsFile (fun p => if (p =? path)%string then inl data
                                else fsFile w p) w
      else w in
    mkRun (Returned tt) w' [EvWriteFile path data].

(** [fmt.Scanln(&v)] into an empty string variable: the next token of the
    standard input, or the variable left empty when there is none. *)
Definition fmt_Scanln : M string :=
  fun w =>
    match stdin w with
    | [] => mkRun (Returned EmptyString) w [EvScanln]
    | token :: rest => mkRun (Returned token) (set_stdin rest w) [EvScanln]
    end.

(** [time.Now().String()] *)
Definition time_Now_String : M string :=
  fun w => mkRun (Returned (clock w (ticks w))) (set_ticks (S (ticks w)) w) [].

(** ** UTF-8, as [unicode/utf8] reads and writes it *)

Module utf8.

Definition RuneError : Z := 65533.

Definition byteOf (c : ascii) : Z := Z.of_N (N_of_ascii c).
Definition charOf (b : Z) : ascii := ascii_of_N (Z.to_N b).

Definition isCont (b : Z) : bool := (128 <=? b) && (b <=? 191).

(** [utf8.DecodeRuneInString]: the first rune of [s] and its width in
    bytes; [(RuneError, 1)] when [s] does not start with a well-formed
    encoding, [(RuneError, 0)] when it is empty.  Overlong forms,
    surrogates and values above U+10FFFF are not well formed. *)
Definition DecodeRuneInString (s : string) : Z * nat :=
  match s with
  | EmptyString => (RuneError, 0%nat)
  | String c0 s1 =>
      let b0 := byteOf c0 in
      if b0 <? 128 then (b0, 1%nat)
      else if (194 <=? b0) && (b0 <=? 223) then
        match s1 with
        | String c1 _ =>
            let b1 := byteOf c1 in
            if isCont b1
            then ((b0 - 192) * 64 + (b1 - 128), 2%nat)
            else (RuneError, 1%nat)
        | _ => (RuneError, 1%nat)
        end
      else if (224 <=? b0) && (b0 <=? 239) then
        match s1 with
        | String c1 (String c2 _) =>
            let b1 := byteOf c1 in
            let b2 := byteOf c2 in
            let lo := if b0 =? 224 then 160 else 128 in
            let hi := if b0 =? 237 then 159 else 191 in
            if (lo <=? b1) && (b1 <=? hi) && isCont b2
            then ((b0 - 224) * 4096 + (b1 - 128) * 64 + (b2 - 128), 3%nat)
            else (RuneError, 1%nat)
        | _ => (RuneError, 1%nat)
        end
      else if (240 <=? b0) && (b0 <=? 244) then
        match s1 with
        | String c1 (String c2 (String c3 _)) =>
            let b1 := byteOf c1 in
            let b2 := byteOf c2 in
            let b3 := byteOf c3 in
            let lo := if b0 =? 240 then 144 else 128 in
            let hi := if b0 =? 244 then 143 else 191 in
            if (lo <=? b1) && (b1 <=? hi) && isCont b2 && isCont b3
            then ((b0 - 240) * 262144 + (b1 - 128) * 4096
                  + (b2 - 128) * 64 + (b3 - 128), 4%nat)
            else (RuneError, 1%nat)
        | _ => (RuneError, 1%nat)
        end
      else (RuneError, 1%nat)
  end.

(** [utf8.EncodeRune]: the bytes of rune [r]; a surrogate or a value
    out of range is written as [RuneError]. *)
Definition EncodeRune (r : Z) : string :=
  let r :=
    if (r <? 0) || (1114111 <? r) || ((55296 <=? r) && (r <=? 57343))
    then RuneError else r in
  if r <=? 127 then String (charOf r) EmptyString
  else if r <=? 2047 then
    String (charOf (192 + r / 64))
      (String (charOf (128 + r mod 64)) EmptyString)
  else if r <=? 65535 then
    String (charOf (224 + r / 4096))
      (String (charOf (128 + (r / 64) mod 64))
         (String (charOf (128 + r mod 64)) EmptyString))
  else
    String (charOf (240 + r / 262144))
      (String (charOf (128 + (r / 4096) mod 64))
         (String (charOf (128 + (r / 64) mod 64))
            (String (charOf (128 + r mod 64)) EmptyString))).

(** Every byte sequence of [s] is a well-formed encoding. *)
Fixpoint validFrom (fuel : nat) (s : string) : bool :=
  match fuel, s with
  | _, EmptyString => true
  | O, _ => false
  | S fuel', _ =>
      let '(r, size) := DecodeRuneInString s in
      if (r =? RuneError) && (size =? 1)%nat then false
      else validFrom fuel' (substring size (String.length s - size) s)
  end.

(** [utf8.ValidString] *)
Definition ValidString (s : string) : bool := validFrom (String.length s) s.

End utf8.

(** ** JSON, as [encoding/json] writes and reads an [appConfig]

    [json.Marshal] writes the three tagged fields in declaration order,
    without white space.  A nil slice and an empty slice are both [[]]
    here; the slices the program itself builds are nil or non-empty, and
    nil is written as [null].

    The decoder covers the documents whose member values are strings,
    [null] or arrays of strings and [null]s, with any white space between
    tokens, members in any order, and members of other names skipped;
    other documents, which [encoding/json] would partly accept, are
    answered by an error. *)

Module json.

Definition backslash : string := String "092"%char EmptyString.

Definition hex (d : Z) : string :=
  substring (Z.to_nat d) 1 "0123456789abcdef".

(** Bytes that [Marshal] copies as they are. *)
Definition htmlSafe (b : Z) : bool :=
  (32 <=? b) && (b <? 128) &&
  negb ((b =? 34) || (b =? 38) || (b =? 60) || (b =? 62) || (b =? 92)).

(** The escape of a byte below 128 that is not copied. *)
Definition escapeByte (b : Z) : string :=
  if b =? 92 then backslash ++ backslash
  else if b =? 34 then backslash ++ dquote
  else if b =? 8 then backslash ++ "b"
  else if b =? 12 then backslash ++ "f"
  else if b =? 10 then backslash ++ "n"
  else if b =? 13 then backslash ++ "r"
  else if b =? 9 then backslash ++ "t"
  else backslash ++ "u00" ++ hex (b / 16) ++ hex (b mod 16).

Definition dropBytes (n : nat) (s : string) : string :=
  substring n (String.length s - n) s.

(** The body of a JSON string for [src]: invalid UTF-8 bytes become
    U+FFFD, and U+2028 and U+2029 are escaped. *)
Fixpoint appendString_loop (fuel : nat) (src : string) : string :=
  match fuel, src with
  | _, EmptyString => EmptyString
  | O, _ => EmptyString
  | S fuel', String c rest =>
      let b := utf8.byteOf c in
      if b <? 128 then
        (if htmlSafe b then String c EmptyString else escapeByte b)
          ++ appendString_loop fuel' rest
      else
        let '(r, size) := utf8.DecodeRuneInString src in
        if (r =? utf8.RuneError) && (size =? 1)%nat then
          (backslash ++ "ufffd") ++ appendString_loop fuel' rest
        else if (r =? 8232) || (r =? 8233) then
          (backslash ++ "u202" ++ hex (r mod 16))
            ++ appendString_loop fuel' (dropBytes size src)
        else
          substring 0 size src ++ appendString_loop fuel' (dropBytes size src)
  end.

Definition appendString (src : string) : string :=
  dquote ++ appendString_loop (String.length src) src ++ dquote.

Fixpoint appendStrings (l : list string) : string :=
  match l with
  | [] => EmptyString
  | [s] => appendString s
  | s :: l' => appendString s ++ "," ++ appendStrings l'
  end.

Definition appendSlice (l : list string) : string :=
  match l with
  | [] => "null"
  | _ => "[" ++ appendStrings l ++ "]"
  end.

(** [json.Marshal(configApp)].  It has no error case for a struct of
    strings. *)
Definition Marshal (c : appConfig) : string + error :=
  inl ("{" ++ dquote ++ "folderName" ++ dquote ++ ":"
           ++ appendString (FolderName c)
       ++ "," ++ dquote ++ "lastUpdate" ++ dquote ++ ":"
           ++ appendString (LastUpdate c)
       ++ "," ++ dquote ++ "folderToWatch" ++ dquote ++ ":"
           ++ appendSlice (FolderToWatch c)
       ++ "}").

(** *** Reading *)

Definition isSpace (c : ascii) : bool :=
  let b := utf8.byteOf c in
  (b =? 32) || (b =? 9) || (b =? 10) || (b =? 13).

Fixpoint skipSpace (s : string) : string :=
  match s with
  | String c s' => if isSpace c then skipSpace s' else s
  | EmptyString => s
  end.

Definition hexValue (c : ascii) : option Z :=
  let b := utf8.byteOf c in
  if (48 <=? b) && (b <=? 57) then Some (b - 48)
  else if (97 <=? b) && (b <=? 102) then Some (b - 87)
  else if (65 <=? b) && (b <=? 70) then Some (b - 55)
  else None.

(** Four hexadecimal digits, and what follows them. *)
Definition getu4 (s : string) : option (Z * string) :=
  match s with
  | String c0 (String c1 (String c2 (String c3 rest))) =>
      match hexValue c0, hexValue c1, hexValue c2, hexValue c3 with
      | Some h0, Some h1, Some h2, Some h3 =>
          Some (h0 * 4096 + h1 * 256 + h2 * 16 + h3, rest)
      | _, _, _, _ => None
      end
  | _ => None
  end.

Definition isSurrogate (r : Z) : bool := (55296 <=? r) && (r <=? 57343).

(** The rune of a [backslash u] escape whose four digits gave [r], and
    what is left of [rest]: a high surrogate takes a following low
    surrogate escape with it, a lone surrogate reads as U+FFFD. *)
Definition escapedRune (r : Z) (rest : string) : Z * string :=
  if isSurrogate r then
    match rest with
    | String c0 (String c1 rest') =>
        if (utf8.byteOf c0 =? 92) && (utf8.byteOf c1 =? 117) then
          match getu4 rest' with
          | Some (r2, rest'') =>
              if (r <? 56320) && (56320 <=? r2) && (r2 <=? 57343)
              then ((r - 55296) * 1024 + (r2 - 56320) + 65536, rest'')
              else (utf8.RuneError, rest)
          | None => (utf8.RuneError, rest)
          end
        else (utf8.RuneError, rest)
    | _ => (utf8.RuneError, rest)
    end
  else (r, rest).

(** The bytes of a string literal up to its closing quote, unquoted, and
    what follows the quote. *)
Fixpoint unquote_loop (fuel : nat) (s : string) : option (string * string) :=
  match fuel, s with
  | O, _ => None
  | _, EmptyString => None
  | S fuel', String c rest =>
      let b := utf8.byteOf c in
      if b =? 34 then Some (EmptyString, rest)
      else if b <? 32 then None
      else if b =? 92 then
        match rest with
        | String e rest' =>
            let eb := utf8.byteOf e in
            let simple (out : Z) :=
              match unquote_loop fuel' rest' with
              | Some (t, after) => Some (String (utf8.charOf out) t, after)
              | None => None
              end in
            if eb =? 34 then simple 34
            else if eb =? 92 then simple 92
            else if eb =? 47 then simple 47
            else if eb =? 98 then simple 8
            else if eb =? 102 then simple 12
            else if eb =? 110 then simple 10
            else if eb =? 114 then simple 13
            else if eb =? 116 then simple 9
            else if eb =? 117 then
              match getu4 rest' with
              | Some (r, rest'') =>
                  let '(r', rest3) := escapedRune r rest'' in
                  match unquote_loop fuel' rest3 with
                  | Some (t, after) => Some (utf8.EncodeRune r' ++ t, after)
                  | None => None
                  end
              | None => None
              end
            else None
        | EmptyString => None
        end
      else if b <? 128 then
        match unquote_loop fuel' rest with
        | Some (t, after) => Some (String c t, after)
        | None => None
        end
      else
        let '(r, size) := utf8.DecodeRuneInString s in
        match unquote_loop fuel' (dropBytes size s) with
        | Some (t, after) => Some (utf8.EncodeRune r ++ t, after)
        | None => None
        end
  end.

(** A string literal at the head of [s]. *)
Definition readString (s : string) : option (string * string) :=
  match s with
  | String c rest =>
      if utf8.byteOf c =? 34 then unquote_loop (String.length rest) rest
      else None
  | EmptyString => None
  end.

Inductive Value : Type :=
| VNull
| VString (s : string)
| VArray (l : list string).

(** A string literal or [null]; in a slice of strings, [null] leaves the
    element at its zero value. *)
Definition readElement (s : string) : option (string * string) :=
  if prefix "null" s then Some (EmptyString, dropBytes 4 s)
  else readString s.

(** The elements of a non-empty array, up to its closing bracket. *)
Fixpoint readElements (fuel : nat) (s : string)
  : option (list string * string) :=
  match fuel with
  | O => None
  | S fuel' =>
      match readElement (skipSpace s) with
      | Some (elem, rest) =>
          match skipSpace rest with
          | String c rest' =>
              if utf8.byteOf c =? 44 then
                match readElements fuel' rest' with
                | Some (l, after) => Some (elem :: l, after)
                | None => None
                end
              else if utf8.byteOf c =? 93 then Some ([elem], rest')
              else None
          | EmptyString => None
          end
      | None => None
      end
  end.

(** A value at the head of [s], which starts with no white space. *)
Definition readValue (s : string) : option (Value * string) :=
  match s with
  | String c rest =>
      if utf8.byteOf c =? 34 then
        match readString s with
        | Some (t, after) => Some (VString t, after)
        | None => None
        end
      else if utf8.byteOf c =? 91 then
        match skipSpace rest with
        | String c' rest' =>
            if utf8.byteOf c' =? 93 then Some (VArray [], rest')
            else
              match readElements (String.length rest) rest with
              | Some (l, after) => Some (VArray l, after)
              | None => None
              end
        | EmptyString => None
        end
      else if prefix "null" s then Some (VNull, dropBytes 4 s)
      else None
  | EmptyString => None
  end.

Definition lower (c : ascii) : ascii :=
  let b := utf8.byteOf c in
  if (65 <=? b) && (b <=? 90) then utf8.charOf (b + 32) else c.

Fixpoint foldName (s : string) : string :=
  match s with
  | EmptyString => EmptyString
  | String c s' => String (lower c) (foldName s')
  end.

(** Store a member in the field whose tag matches its name, letter case
    aside; [None] when the value does not have the field's type. *)
Definition setField (key : string) (v : Value) (c : appConfig)
  : option appConfig :=
  let k := foldName key in
  if (k =? "foldername")%string then
    match v with
    | VString t => Some (mkAppConfig t (LastUpdate c) (FolderToWatch c))
    | VNull => Some c
    | VArray _ => None
    end
  else if (k =? "lastupdate")%string then
    match v with
    | VString t => Some (mkAppConfig (FolderName c) t (FolderToWatch c))
    | VNull => Some c
    | VArray _ => None
    end
  else if (k =? "foldertowatch")%string then
    match v with
    | VArray l => Some (mkAppConfig (FolderName c) (LastUpdate c) l)
    | VNull => Some (mkAppConfig (FolderName c) (LastUpdate c) [])
    | VString _ => None
    end
  else Some c.

(** The members of a non-empty object, up to its closing brace. *)
Fixpoint readMembers (fuel : nat) (s : string) (c : appConfig)
  : option appConfig :=
  match fuel with
  | O => None
  | S fuel' =>
      match readString (skipSpace s) with
      | Some (key, rest) =>
          match skipSpace rest with
          | String colon rest1 =>
              if utf8.byteOf colon =? 58 then
                match readValue (skipSpace rest1) with
                | Some (v, rest2) =>
                    match setField key v c with
                    | Some c' =>
                        match skipSpace rest2 with
                        | String sep rest3 =>
                            if utf8.byteOf sep =? 44
                            then readMembers fuel' rest3 c'
                            else if utf8.byteOf sep =? 125 then Some c'
                            else None
                        | EmptyString => None
                        end
                    | None => None
                    end
                | None => None
                end
              else None
          | EmptyString => None
          end
      | None => None
      end
  end.

(** [json.NewDecoder(f).Decode(&config)] on a zero [config], where [f]
    holds [doc]: the first value of the stream is read, what follows it
    is left alone. *)
Definition Decode (doc : string) : appConfig * option error :=
  match skipSpace doc with
  | EmptyString => (zeroConfig, Some "EOF")
  | String c rest =>
      if utf8.byteOf c =? 123 then
        match skipSpace rest with
        | String c' _ =>
            if utf8.byteOf c' =? 125 then (zeroConfig, None)
            else
              match readMembers (String.length rest) rest zeroConfig with
              | Some config => (config, None)
              | None => (zeroConfig, Some "json: cannot decode the document")
              end
        | EmptyString => (zeroConfig, Some "unexpected EOF")
        end
      else if prefix "null" (String c rest) then (zeroConfig, None)
      else (zeroConfig, Some "json: cannot decode the document")
  end.

End json.

(** ** The remote store, as the Drive service answers the program's calls

    Every call consults [driveFault] first: a transport or API error is
    returned without touching the store.  The store keeps its entries in
    listing order; a created entry goes last and gets an identifier that no
    entry has. *)

Module drive.

(** The two shapes of search query the program sends. *)
Inductive Query : Type :=
| QFolders
| QChildNamed (parentID name : string).

Fixpoint stripPrefix (p s : string) : option string :=
  match p, s with
  | EmptyString, _ => Some s
  | String a p', String b s' =>
      if (a =? b)%char then stripPrefix p' s' else None
  | String _ _, EmptyString => None
  end.

(** The text of a quoted literal up to its closing quote, and what
    follows the quote.  A literal with a backslash escape is not read. *)
Fixpoint upToQuote (s : string) : option (string * string) :=
  match s with
  | EmptyString => None
  | String c s' =>
      if (c =? "'")%char then Some (EmptyString, s')
      else if (c =? "092")%char then None
      else match upToQuote s' with
           | Some (t, r) => Some (String c t, r)
           | None => None
           end
  end.

Definition foldersQuery : string :=
  "mimeType='application/vnd.google-apps.folder' and explicitlyTrashed=false".

Definition parseQuery (q : string) : option Query :=
  if (q =? foldersQuery)%string then Some QFolders
  else
    match stripPrefix "'" q with
    | Some r1 =>
        match upToQuote r1 with
        | Some (parentID, r2) =>
            match stripPrefix
                    " in parents and explicitlyTrashed=false and name='" r2
            with
            | Some r3 =>
                match upToQuote r3 with
                | Some (name, EmptyString) => Some (QChildNamed parentID name)
                | _ => None
                end
            | None => None
            end
        | None => None
        end
    | None => None
    end.

Definition matches (query : Query) (e : RemoteEntry) : bool :=
  match query with
  | QFolders =>
      (MimeType (meta e) =? folderMimeType)%string
      && negb (explicitlyTrashed e)
  | QChildNamed parentID name =>
      existsb (String.eqb parentID) (Parents (meta e))
      && negb (explicitlyTrashed e)
      && (Name (meta e) =? name)%string
  end.

(** The part of a file resource that a [Fields] selector asks for. *)
Definition selectFields (fields : string) (f : DriveFile) : DriveFile :=
  if (fields =? "files(id, name)")%string
  then mkDriveFile (Id f) (Name f) EmptyString []
  else mkDriveFile (Id f) (Name f) (MimeType f) [].

(** One page of results; the program reads no further page. *)
Definition pageSize : nat := 100.

Definition search (store : list RemoteEntry) (q fields : string)
  : list DriveFile + error :=
  match parseQuery q with
  | Some query =>
      inl (firstn pageSize
             (map (fun e => selectFields fields (meta e))
                  (filter (matches query) store)))
  | None => inr "googleapi: Error 400: Invalid query"
  end.

Fixpoint zeros (n : nat) : string :=
  match n with
  | O => EmptyString
  | S n' => String "0" (zeros n')
  end.

(** An identifier longer than every identifier in the store. *)
Definition freshId (store : list RemoteEntry) : string :=
  zeros (S (list_max (map (fun e => String.length (Id (meta e))) store))).

Definition created (store : list RemoteEntry) (file : DriveFile)
           (media : option string) : RemoteEntry :=
  mkRemoteEntry
    (mkDriveFile (freshId store) (Name file)
                 (if (MimeType file =? EmptyString)%string
                  then "application/octet-stream" else MimeType file)
                 (Parents file))
    false
    (match media with Some data => data | None => EmptyString end).

(** A metadata update changes the fields that the request sets; media,
    when given, replaces the bytes. *)
Definition updated (file : DriveFile) (media : option string)
           (e : RemoteEntry) : RemoteEntry :=
  mkRemoteEntry
    (mkDriveFile (Id (meta e))
                 (if (Name file =? EmptyString)%string
                  then Name (meta e) else Name file)
                 (if (MimeType file =? EmptyString)%string
                  then MimeType (meta e) else MimeType file)
                 (Parents (meta e)))
    (explicitlyTrashed e)
    (match media with Some data => data | None => content e end).

Definition hasId (fileId : string) (e : RemoteEntry) : bool :=
  (Id (meta e) =? fileId)%string.

(** What a list call gets in world [w]. *)
Definition listing (q fields : string) (w : World) : list DriveFile + error :=
  match driveFault w (driveCalls w) with
  | Some err => inr err
  | None => search (remote w) q fields
  end.

(** [driveSrv.Files.List().Q(q).Fields(fields).Do()] *)
Definition Files_List (q fields : string) : M (list DriveFile + error) :=
  fun w =>
    mkRun (Returned (listing q fields w))
          (set_driveCalls (S (driveCalls w)) w)
          [EvList q fields].

(** [driveSrv.Files.Create(file).Media(media).Do()] *)
Definition Files_Create (file : DriveFile) (media : option string)
  : M (DriveFile + error) :=
  fun w =>
    let w' := set_driveCalls (S (driveCalls w)) w in
    match driveFault w (driveCalls w) with
    | Some err => mkRun (Returned (inr err)) w' [EvCreate file media]
    | None =>
        let e := created (remote w) file media in
        mkRun (Returned (inl (selectFields EmptyString (meta e))))
              (set_remote (remote w ++ [e]) w')
              [EvCreate file media]
    end.

(** [driveSrv.Files.Update(fileId, file).Media(media).Do()] *)
Definition Files_Update (fileId : string) (file : DriveFile)
           (media : option string) : M (DriveFile + error) :=
  fun w =>
    let w' := set_driveCalls (S (driveCalls w)) w in
    match driveFault w (driveCalls w) with
    | Some err => mkRun (Returned (inr err)) w' [EvUpdate fileId file media]
    | None =>
        match find (hasId fileId) (remote w) with
        | Some e =>
            mkRun (Returned
                     (inl (selectFields EmptyString (meta (updated file media e)))))
                  (set_remote
                     (map (fun e' => if hasId fileId e'
                                     then updated file media e' else e')
                          (remote w)) w')
                  [EvUpdate fileId file media]
        | None =>
            mkRun (Returned (inr "googleapi: Error 404: File not found"))
                  w' [EvUpdate fileId file media]
        end
    end.

End drive.

(** ** The program *)

Definition findHolderFolder (folderName : string)
  : M (option DriveFile * option error) :=
  r <- drive.Files_List drive.foldersQuery
         "nextPageToken, files(id, name, mimeType)" ;;
  match r with
  | inr err => ret (None, Some err)
  | inl files =>
      if 0 <? Z.of_nat (List.length files) then
        let folder :=
          fold_left (fun folder actualFile =>
                       if (Name actualFile =? folderName)%string
                       then Some actualFile else folder)
                    files None in
        match folder with
        | None =>
            ret (folder,
                 Some ("No folder with name " ++ dquote ++ folderName ++ dquote))
        | Some _ => ret (folder, None)
        end
      else ret (None, Some "No folders")
  end.

Definition findUploadFileInDrive (fileName parentID : string)
  : M (option DriveFile * option error) :=
  log_Print ("findUploadFileInDrive:  " ++ fileName) ;;
  r <- drive.Files_List
         ("'" ++ parentID
          ++ "' in parents and explicitlyTrashed=false and name='"
          ++ fileName ++ "'")
         "files(id, name)" ;;
  match r with
  | inr err => ret (None, Some err)
  | inl files =>
      ret (match files with
           | first :: _ => Some first
           | [] => None
           end, None)
  end.

Definition saveConfigJSONFile : M unit :=
  w <- get ;;
  match json.Marshal (configApp w) with
  | inr err => log_Print ("ERROR! Cannot create config file: " ++ err ++ " ")
  | inl jsonContent => ioutil_WriteFile configFileName jsonContent
  end.

Definition updateLastUpdateAppConfig : M unit :=
  now <- time_Now_String ;;
  modify (fun w =>
            set_configApp
              (mkAppConfig (FolderName (configApp w)) now
                           (FolderToWatch (configApp w))) w) ;;
  saveConfigJSONFile.

Definition updateFileInDrive (driveFileToUpload : DriveFile) (goFile : string)
  : M (option error) :=
  fmt_Print ("Upate existing file " ++ Name driveFileToUpload ++ nl ++ "!!") ;;
  let driveFileToUpdate :=
    mkDriveFile EmptyString (filepath.Base (Name driveFileToUpload))
                EmptyString [] in
  r <- drive.Files_Update (Id driveFileToUpload) driveFileToUpdate
         (Some goFile) ;;
  match r with
  | inr err => panic err
  | inl _ =>
      fmt_Print ("Updated file " ++ dquote ++ Name driveFileToUpload
                 ++ dquote ++ "!!" ++ nl) ;;
      updateLastUpdateAppConfig ;;
      ret None
  end.

Definition uploadNewFileToDrive (folderFile : DriveFile)
           (fileToUploadName fileToUploadURL : string) (goFile : string)
  : M (option error) :=
  let parents := [Id folderFile] in
  let driveFileToUpload :=
    mkDriveFile EmptyString (filepath.Base fileToUploadName)
                EmptyString parents in
  r <- drive.Files_Create driveFileToUpload (Some goFile) ;;
  match r with
  | inr err => panic err
  | inl _ =>
      fmt_Print ("Uploaded file " ++ dquote ++ fileToUploadName ++ dquote
                 ++ " to " ++ dquote ++ Name folderFile ++ dquote
                 ++ " !!" ++ nl) ;;
      updateLastUpdateAppConfig ;;
      ret None
  end.

Definition loadConfig : M (appConfig * option error) :=
  r <- os_Open configFileName ;;
  match r with
  | inr err => ret (zeroConfig, Some err)
  | inl configFileContent =>
      match json.Decode configFileContent with
      | (config, Some err) => ret (config, Some err)
      | (config, None) => ret (config, None)
      end
  end.

Definition createFolderInDrive (folderName : string)
  : M (option DriveFile * option error) :=
  log_Print ("Error finding " ++ folderName ++ " : " ++ showErr None ++ nl) ;;
  let fileMeta := mkDriveFile EmptyString folderName folderMimeType [] in
  r <- drive.Files_Create fileMeta None ;;
  match r with
  | inl folderFile => ret (Some folderFile, None)
  | inr err => ret (None, Some err)
  end.

Definition processUpload (uploadFilePath uploadFileName : string)
           (parentFolder : DriveFile) : M unit :=
  r <- os_Open uploadFilePath ;;
  goFile <- match r with
            | inr err => log_Fatal ("error opening file: " ++ err)
            | inl f => ret f
            end ;;
  found <- findUploadFileInDrive uploadFileName (Id parentFolder) ;;
  let '(driveFileToUpload, err) := found in
  match err with
  | Some _ =>
      log_Fatal ("Error checking if file " ++ dquote ++ uploadFileName
                 ++ dquote ++ " already exists")
  | None => ret tt
  end ;;
  match driveFileToUpload with
  | Some driveFileToUpload =>
      log_Print "Update existing file to Drive" ;;
      updateFileInDrive driveFileToUpload goFile ;;
      ret tt
  | None =>
      log_Print "Update new file to Drive" ;;
      uploadNewFileToDrive parentFolder uploadFileName uploadFilePath goFile ;;
      ret tt
  end.

(** The body of the sweep's inner loop, for one directory entry. *)
Definition uploadActualFile (parentFolder : DriveFile)
           (actualFolderToWatch : string) (actualFile : FileInfo) : M unit :=
  if negb (IsDir actualFile) then
    let totalName := actualFolderToWatch ++ "/" ++ fiName actualFile in
    if isNotAppFile totalName && negb (isNotHiddenFile totalName)
    then processUpload totalName (fiName actualFile) parentFolder
    else ret tt
  else ret tt.

Definition uploadActualFilesInWatchDir (parentFolder : DriveFile) : M unit :=
  w <- get ;;
  forRange (FolderToWatch (configApp w)) (fun actualFolderToWatch =>
    log_Print ("-uploadActualFilesInWatchDir:  " ++ actualFolderToWatch) ;;
    r <- ioutil_ReadDir actualFolderToWatch ;;
    match r with
    | inr err => log_Print ("Error uploadActualFilesInWatchDir:  " ++ err)
    | inl files =>
        forRange files (uploadActualFile parentFolder actualFolderToWatch)
    end).

(** The body of the watcher goroutine's [select], for one delivery. *)
Definition runWatcher_select (parentFolder : DriveFile) (msg : WatcherMsg)
  : M unit :=
  match msg with
  | OnEvents event =>
      if Z.land (Op event) fsWrite =? fsWrite then
        if isNotAppFile (evName event) && negb (isNotHiddenFile (evName event))
        then
          let lastPos := strings.LastIndex (evName event) filepath.Separator in
          match slice (evName event) 0 lastPos with
          | None => panic "runtime error: slice bounds out of range"
          | Some actualFileToWatch =>
              match slice (evName event) (lastPos + 1) (len (evName event)) with
              | None => panic "runtime error: slice bounds out of range"
              | Some onlyFileName =>
                  log_Print ("ToReplace:  " ++ actualFileToWatch
                             ++ filepath.Separator ++ "  - name:  "
                             ++ evName event ++ "   onlyFileName:  "
                             ++ onlyFileName) ;;
                  processUpload (evName event) onlyFileName parentFolder
              end
          end
        else ret tt
      else ret tt
  | OnErrors err => log_Print ("error: " ++ err)
  end.

Definition watcher_Add (path : string) : M (option error) :=
  fun w => mkRun (Returned (watchAddErr w path)) w [EvWatchAdd path].

(** [runWatcher].  The goroutine loops for ever and the function blocks on
    a channel nobody writes to: a run that returns here is the program
    blocked on that channel.  [msgs] is what the one goroutine has taken,
    in order, since the last path was registered.  The goroutine is
    started before the registration loop, and what it may take while a
    later path is still being registered is not covered: here every path
    is registered before the first delivery is taken. *)
Definition runWatcher (parentFolder : DriveFile) (msgs : list WatcherMsg)
  : M unit :=
  w <- get ;;
  match newWatcherErr w with
  | Some err => log_Fatal err
  | None => ret tt
  end ;;
  forRange (FolderToWatch (configApp w)) (fun actualFileToWatch =>
    log_Print ("add to watch:  " ++ actualFileToWatch) ;;
    err <- watcher_Add actualFileToWatch ;;
    match err with
    | Some e => log_Fatal e
    | None => ret tt
    end) ;;
  forRange msgs (runWatcher_select parentFolder).

Definition configFolderToWatch : M unit :=
  w <- get ;;
  if (Z.of_nat (List.length (FolderToWatch (configApp w))) =? 0)
     || (hd EmptyString (FolderToWatch (configApp w)) =? EmptyString)%string
  then
    fmt_Print ("Path to watch (default-actual folder: " ++ dquote ++ "."
               ++ dquote ++ " ): ") ;;
    input <- fmt_Scanln ;;
    let folderToWatch :=
      if (input =? EmptyString)%string then "." else input in
    w1 <- get ;;
    let folderToWatch := pathAbs w1 (pathDir w1 folderToWatch) in
    modify (fun w2 =>
              set_configApp
                (mkAppConfig (FolderName (configApp w2))
                             (LastUpdate (configApp w2)) [folderToWatch]) w2) ;;
    saveConfigJSONFile
  else ret tt.

(** The duplicate search of [addFolderToWatch]. *)
Definition isFolderInConfig (folders : list string) (folderToWatch : string)
  : bool :=
  fold_left (fun isFolderInConfig actualFoldertoWatch =>
               if (actualFoldertoWatch =? folderToWatch)%string
               then true else isFolderInConfig)
            folders false.

Definition addFolderToWatch : M unit :=
  w <- get ;;
  if Z.of_nat (List.length (FolderToWatch (configApp w))) =? 0 then
    log_Print "Lauch config option first!!"
  else
    fmt_Print ("Path to watch (default-actual folder: " ++ dquote ++ "."
               ++ dquote ++ " ): ") ;;
    input <- fmt_Scanln ;;
    let folderToWatch :=
      if (input =? EmptyString)%string then "." else input in
    w1 <- get ;;
    let folderToWatch := pathAbs w1 (pathDir w1 (folderToWatch ++ "/")) in
    if isFolderInConfig (FolderToWatch (configApp w1)) folderToWatch then
      log_Print "ERROR!! - The folder ir already in config!"
    else
      modify (fun w2 =>
                set_configApp
                  (mkAppConfig (FolderName (configApp w2))
                               (LastUpdate (configApp w2))
                               (FolderToWatch (configApp w2) ++ [folderToWatch]))
                  w2) ;;
      saveConfigJSONFile.

(** The first part of [executeApp]: find the destination folder, or create
    it when the search reports an error. *)
Definition executeApp_folder : M (option DriveFile) :=
  w <- get ;;
  fmt_Print ("Looking for folder " ++ dquote ++ FolderName (configApp w)
             ++ dquote ++ "..." ++ nl) ;;
  found <- findHolderFolder (FolderName (configApp w)) ;;
  let '(folderFile, err) := found in
  match err with
  | Some _ =>
      made <- createFolderInDrive (FolderName (configApp w)) ;;
      let '(folderFile, err) := made in
      match err with
      | Some e => panic e
      | None =>
          fmt_Print ("Created folder " ++ dquote ++ FolderName (configApp w)
                     ++ dquote ++ " for files!!" ++ nl) ;;
          ret folderFile
      end
  | None => ret folderFile
  end.

(** The rest of [executeApp], with the folder in hand. *)
Definition executeApp_sync (folderFile : option DriveFile)
           (msgs : list WatcherMsg) : M unit :=
  match folderFile with
  | None => panic "runtime error: invalid memory address or nil pointer dereference"
  | Some folderFile =>
      fmt_Print ("Found folder " ++ Name folderFile ++ " - ID: ("
                 ++ Id folderFile ++ ") - TYPE:" ++ MimeType folderFile ++ nl) ;;
      configFolderToWatch ;;
      uploadActualFilesInWatchDir folderFile ;;
      runWatcher folderFile msgs
  end.

Definition executeApp (msgs : list WatcherMsg) : M unit :=
  folderFile <- executeApp_folder ;;
  executeApp_sync folderFile msgs.


(** ** Vocabulary of the properties *)

(** How many of the actions in [l] satisfy [p]. *)
Definition count (p : Event -> bool) (l : list Event) : nat :=
  List.length (filter p l).

Definition isCreate (e : Event) : bool :=
  match e with EvCreate _ _ => true | _ => false end.

Definition isUpdate (e : Event) : bool :=
  match e with EvUpdate _ _ _ => true | _ => false end.

Definition isUpdateOf (fileId : string) (e : Event) : bool :=
  match e with EvUpdate i _ _ => (i =? fileId)%string | _ => false end.

Definition isWriteFile (e : Event) : bool :=
  match e with EvWriteFile _ _ => true | _ => false end.

(** [processUpload] starts by opening its path: an [EvOpen path] marks a
    reconciliation of [path]. *)
Definition opens (path : string) (e : Event) : bool :=
  match e with EvOpen p => (p =? path)%string | _ => false end.

(** The search that [findUploadFileInDrive] sends. *)
Definition uploadQuery (parentID fileName : string) : string :=
  "'" ++ parentID ++ "' in parents and explicitlyTrashed=false and name='"
      ++ fileName ++ "'".

(** A name with no separator in it, as a directory entry has and as the
    watch loop cuts from an event path. *)
Definition plainName (name : string) : Prop :=
  name <> EmptyString /\ contains name filepath.Separator = false.

(** A text that can stand between the quotes of a search literal. *)
Fixpoint querySafe (s : string) : bool :=
  match s with
  | EmptyString => true
  | String c s' =>
      negb (c =? "'")%char && negb (c =? "092")%char && querySafe s'
  end.

(** The live files of the store under [(parentID, name)]. *)
Definition filesUnder (parentID name : string) (store : list RemoteEntry)
  : list RemoteEntry :=
  filter (drive.matches (drive.QChildNamed parentID name)) store.

(** What the user answers to the path prompt, with the default applied,
    and the path [addFolderToWatch] makes of it. *)
Definition promptedPath (w : World) : string :=
  let input := match stdin w with [] => EmptyString | token :: _ => token end in
  if (input =? EmptyString)%string then "." else input.

Definition pathToAdd (w : World) : string :=
  pathAbs w (pathDir w (promptedPath w ++ "/")).

(** All three fields of a configuration hold well-formed UTF-8. *)
Definition validConfig (c : appConfig) : Prop :=
  utf8.ValidString (FolderName c) = true /\
  utf8.ValidString (LastUpdate c) = true /\
  Forall (fun p => utf8.ValidString p = true) (FolderToWatch c).

(** [m] performs no action that satisfies [p], in whatever world. *)
Definition quiet (p : Event -> bool) {A : Type} (m : M A) : Prop :=
  forall w, count p (emitted (m w)) = 0%nat.

(** ** A sample world

    One watched directory with a text file, the program's configuration
    file, a hidden file and a sub-directory; a remote store that holds the
    destination folder and nothing else; a service that answers every
    call. *)

Definition sampleFolder : DriveFile :=
  mkDriveFile "F1" "EncryptBckDoc" folderMimeType [].

Definition sampleWorld : World :=
  mkWorld
    (mkAppConfig "EncryptBckDoc" EmptyString ["/home/u/docs"])
    [mkRemoteEntry sampleFolder false EmptyString]
    (fun _ => None)
    0%nat
    (fun p => if (p =? "/home/u/docs/a.txt")%string then inl "hello"
              else inr ("open " ++ p ++ ": no such file or directory"))
    (fun _ => true)
    (fun p => if (p =? "/home/u/docs")%string
              then inl [mkFileInfo ".git" true; mkFileInfo ".hidden" false;
                        mkFileInfo "a.txt" false; mkFileInfo "config.json" false]
              else inr ("open " ++ p ++ ": no such file or directory"))
    ["/home/u/docs"]
    (fun _ => "2017-03-01 10:00:00 +0100 CET")
    0%nat
    (fun p => p)
    (fun p => if (p =? "/home/u/docs/")%string then "/home/u/docs" else p)
    (fun _ => None)
    None.

Definition sampleDeliveries : list WatcherMsg :=
  [OnEvents (mkFsEvent "/home/u/docs/a.txt" 2);
   OnErrors "watcher overflow";
   OnEvents (mkFsEvent "/home/u/docs/config.json" 2)].

(** The same world with other remote stores: two folders of the
    destination name among four, no folder at all, and the destination
    folder with one file already uploaded. *)

Definition remoteFolder (id name : string) : RemoteEntry :=
  mkRemoteEntry (mkDriveFile id name folderMimeType []) false EmptyString.

Definition twoFoldersWorld : World :=
  set_remote [remoteFolder "F1" "EncryptBckDoc"; remoteFolder "F2" "Photos";
              remoteFolder "F3" "EncryptBckDoc"; remoteFolder "F4" "Music"]
             sampleWorld.

Definition emptyStoreWorld : World := set_remote [] sampleWorld.

(** A watched directory whose name is not UTF-8: its last byte, 233, is
    an e with acute accent in Latin-1. *)
Definition latin1Path : string := "/home/u/caf" ++ String "233" EmptyString.

Definition latin1PathWorld : World :=
  set_configApp (mkAppConfig "EncryptBckDoc" EmptyString [latin1Path])
                sampleWorld.

Definition uploadedFile : DriveFile :=
  mkDriveFile "a1" "a.txt" EmptyString [].

Definition syncedWorld : World :=
  set_remote [mkRemoteEntry sampleFolder false EmptyString;
              mkRemoteEntry (mkDriveFile "a1" "a.txt" "text/plain" ["F1"])
                            false "hello"]
             sampleWorld.

(** What [Marshal] writes for one byte below 128. *)
Definition asciiChunk (c : ascii) : string :=
  if json.htmlSafe (utf8.byteOf c) then String c EmptyString
  else json.escapeByte (utf8.byteOf c).

(** The selectors of the program's two searches. *)
Definition folderFields : string := "nextPageToken, files(id, name, mimeType)".
Definition uploadFields : string := "files(id, name)".

(** ** The configuration commands and the menu *)

Definition createConfig : M appConfig :=
  fmt_Print "Name for the folder to save files (default: EncryptBckDoc): " ;;
  inputFolderName <- fmt_Scanln ;;
  let folderName :=
    if negb (inputFolderName =? EmptyString)%string
    then inputFolderName else "EncryptBckDoc" in
  modify (set_configApp (mkAppConfig folderName EmptyString [])) ;;
  saveConfigJSONFile ;;
  w <- get ;;
  ret (configApp w).

(** [%s] of a slice of strings: the elements between brackets, a space
    apart. *)
Fixpoint showStrings_loop (l : list string) : string :=
  match l with
  | [] => EmptyString
  | [s] => s
  | s :: l' => s ++ " " ++ showStrings_loop l'
  end.

Definition showStrings (l : list string) : string :=
  "[" ++ showStrings_loop l ++ "]".

Definition showAppConfig : M unit :=
  w <- get ;;
  fmt_Print (nl ++ "### Actual configuration ####" ++ nl) ;;
  fmt_Print ("###  - Destination folder in Drive: "
             ++ FolderName (configApp w) ++ nl) ;;
  fmt_Print ("###  - Last syncronization time: "
             ++ LastUpdate (configApp w) ++ nl) ;;
  fmt_Print ("###  - Local watching folder: "
             ++ showStrings (FolderToWatch (configApp w)) ++ nl) ;;
  fmt_Print ("### #################### ####" ++ nl ++ nl).

(** How a command ends.  [os.Exit] and the return of [runOption] only
    occur where nothing follows them in [runOption], [showAppMenu] and
    [main], so that an exit can be passed up as a value.  [executeApp]
    does not return: once [runWatcher] has its paths registered it blocks
    for ever, and [Waiting] is the program in that state, with the
    deliveries so far handled.  [Unfinished] is the answer of a menu that
    was given too few rounds. *)
Inductive Ending : Type :=
| Ended
| Exited (code : Z)
| Waiting
| Unfinished.

(** [runOption], with [showAppMenu] passed in as [menu] and the deliveries
    of the watcher, which [executeApp] consumes, as [msgs]. *)
Definition runOption (menu : M Ending) (msgs : list WatcherMsg)
           (userOption : string) (backToMenu : bool) : M Ending :=
  if (userOption =? "e")%string then
    executeApp msgs ;; ret Waiting
  else if (userOption =? "x")%string then
    ret (Exited 0)
  else if (userOption =? "c")%string then
    config <- createConfig ;;
    modify (set_configApp config) ;;
    configFolderToWatch ;;
    if backToMenu then menu else ret Ended
  else if (userOption =? "a")%string then
    addFolderToWatch ;;
    if backToMenu then menu else ret Ended
  else if (userOption =? "s")%string then
    showAppConfig ;;
    if backToMenu then menu else ret Ended
  else log_Fatal ("Wrong option: " ++ userOption).

Definition optionsWithAppConfig : string :=
  "Options(case insensitive):" ++ nl
  ++ "  c - Configure (remove previous configuration)" ++ nl
  ++ "  s - Show Configuration" ++ nl
  ++ "  a - Add path to listen" ++ nl
  ++ "  e - Execute" ++ nl
  ++ "  x - Exit" ++ nl.

Definition optionsWithoutAppConfig : string :=
  "Options:" ++ nl ++ "  c - Configure" ++ nl ++ "  x - Exit" ++ nl.

Fixpoint isASCII (s : string) : bool :=
  match s with
  | EmptyString => true
  | String c s' => (utf8.byteOf c <? 128) && isASCII s'
  end.

Fixpoint lowerASCII (s : string) : string :=
  match s with
  | EmptyString => EmptyString
  | String c s' => String (json.lower c) (lowerASCII s')
  end.

(** [strings.ToLower]: a string of ASCII bytes has its letters lowered
    byte by byte; any other string goes through the Unicode case tables,
    which are taken as [unicodeToLower]. *)
Definition strings_ToLower (unicodeToLower : string -> string) (s : string)
  : string :=
  if isASCII s then lowerASCII s else unicodeToLower s.

(** [showAppMenu], for at most [rounds] displays of the menu. *)
Fixpoint showAppMenu (unicodeToLower : string -> string)
         (msgs : list WatcherMsg) (rounds : nat) : M Ending :=
  match rounds with
  | O => ret Unfinished
  | S rounds' =>
      w <- get ;;
      (if negb (FolderName (configApp w) =? EmptyString)%string
       then fmt_Print optionsWithAppConfig
       else fmt_Print optionsWithoutAppConfig) ;;
      fmt_Print "Option: " ;;
      userOption <- fmt_Scanln ;;
      let userOption := strings_ToLower unicodeToLower userOption in
      runOption (showAppMenu unicodeToLower msgs rounds') msgs userOption true
  end.

(** ** Vocabulary of the further properties *)

(** Every run of [m] ends in a world related by [R] to the one it started
    in. *)
Definition keeps (R : World -> World -> Prop) {A : Type} (m : M A) : Prop :=
  forall w, R w (final (m w)).

(** The answers of the surroundings that no operation of the program
    changes. *)
Definition sameSurroundings (w w' : World) : Prop :=
  driveFault w' = driveFault w /\ fsWritable w' = fsWritable w /\
  fsDir w' = fsDir w /\ clock w' = clock w /\ pathDir w' = pathDir w /\
  pathAbs w' = pathAbs w /\ watchAddErr w' = watchAddErr w /\
  newWatcherErr w' = newWatcherErr w.

(** The body of the outer loop of [uploadActualFilesInWatchDir]. *)
Definition sweepFolder (parentFolder : DriveFile) (actualFolderToWatch : string)
  : M unit :=
  log_Print ("-uploadActualFilesInWatchDir:  " ++ actualFolderToWatch) ;;
  r <- ioutil_ReadDir actualFolderToWatch ;;
  match r with
  | inr err => log_Print ("Error uploadActualFilesInWatchDir:  " ++ err)
  | inl files =>
      forRange files (uploadActualFile parentFolder actualFolderToWatch)
  end.

(** The path the sweep makes of a folder and one of its entries. *)
Definition totalName (folder : string) (file : FileInfo) : string :=
  folder ++ "/" ++ fiName file.

Definition isList (e : Event) : bool :=
  match e with EvList _ _ => true | _ => false end.

(** The configuration after a sync at the time the clock of [w] shows. *)
Definition syncedConfig (w : World) : appConfig :=
  mkAppConfig (FolderName (configApp w)) (clock w (ticks w))
              (FolderToWatch (configApp w)).

(** What identifies a remote entry and places it: its identifier, its
    parents and its trash flag. *)
Definition entryKey (e : RemoteEntry) : string * list string * bool :=
  (Id (meta e), Parents (meta e), explicitlyTrashed e).

(** The store of [w'] has the entries of the store of [w], in the same
    order, under the same parents and as live or trashed as they were,
    and possibly more entries after them. *)
Definition storeGrows (w w' : World) : Prop :=
  exists more,
    map entryKey (remote w') = (map entryKey (remote w) ++ more)%list.

(** The live folders of the store with a given name. *)
Definition foldersNamed (name : string) (store : list RemoteEntry)
  : list RemoteEntry :=
  filter (fun e => drive.matches drive.QFolders e
                   && (Name (meta e) =? name)%string) store.

(** The folder request of [createFolderInDrive]. *)
Definition folderRequest (name : string) : DriveFile :=
  mkDriveFile EmptyString name folderMimeType [].

(** An answer to a prompt, with the default that stands for no answer. *)
Definition orDefault (answer default : string) : string :=
  if (answer =? EmptyString)%string then default else answer.

(** The answer a [Scanln] gets from the tokens that are left. *)
Definition nextToken (tokens : list string) : string :=
  match tokens with [] => EmptyString | token :: _ => token end.

(** The configuration that the configure command leaves. *)
Definition configuredApp (w : World) : appConfig :=
  mkAppConfig (orDefault (nextToken (stdin w)) "EncryptBckDoc") EmptyString
              [pathAbs w (pathDir w (orDefault (nextToken (tl (stdin w))) "."))].

Definition isLog (e : Event) : bool :=
  match e with EvLog _ => true | _ => false end.

(** What the program does apart from the lines it logs. *)
Definition actions (l : list Event) : list Event :=
  filter (fun e => negb (isLog e)) l.

(** The deliveries that the watch loop takes further than its own
    tests: write events for a path that passes both filters. *)
Definition handled (msg : WatcherMsg) : bool :=
  match msg with
  | OnEvents event =>
      (Z.land (Op event) fsWrite =? fsWrite) && passesFilters (evName event)
  | OnErrors _ => false
  end.

(** The registration loop of [runWatcher]. *)
Definition registerFolder (actualFileToWatch : string) : M unit :=
  log_Print ("add to watch:  " ++ actualFileToWatch) ;;
  err <- watcher_Add actualFileToWatch ;;
  match err with
  | Some e => log_Fatal e
  | None => ret tt
  end.

(** The standard input is only ever read: what is left of it is what was
    there less the tokens taken from its front. *)
Definition stdinShrinks (w w' : World) : Prop :=
  exists k, stdin w' = skipn k (stdin w).

Definition isDriveCall (e : Event) : bool :=
  match e with
  | EvList _ _ | EvCreate _ _ | EvUpdate _ _ _ => true
  | _ => false
  end.



(** [src] with every byte that starts no well-formed encoding replaced by
    the three bytes of U+FFFD. *)
Fixpoint toValidUTF8_loop (fuel : nat) (src : string) : string :=
  match fuel, src with
  | _, EmptyString => EmptyString
  | O, _ => EmptyString
  | S fuel', String c rest =>
      let '(r, size) := utf8.DecodeRuneInString src in
      if (r =? utf8.RuneError) && (size =? 1)%nat
      then utf8.EncodeRune utf8.RuneError ++ toValidUTF8_loop fuel' rest
      else substring 0 size src
             ++ toValidUTF8_loop fuel' (json.dropBytes size src)
  end.

Definition toValidUTF8 (src : string) : string :=
  toValidUTF8_loop (String.length src) src.

Definition coerced (c : appConfig) : appConfig :=
  mkAppConfig (toValidUTF8 (FolderName c)) (toValidUTF8 (LastUpdate c))
              (map toValidUTF8 (FolderToWatch c)).

(** The earlier revision of [isNotAppFile]: a path is one of the
    program's files when it is that file in the one watched folder. *)
Module rev2.

Fixpoint isNotAppFile_loop (folderToWatch : string) (names : list string)
         (fileName : string) : bool :=
  match names with
  | [] => true
  | name :: names' =>
      if (folderToWatch ++ "/" ++ name =? fileName)%string then false
      else isNotAppFile_loop folderToWatch names' fileName
  end.

Definition isNotAppFile (folderToWatch fileName : string) : bool :=
  isNotAppFile_loop folderToWatch appFiles fileName.

End rev2.

(** The file a create or update call submits. *)
Definition submitted (e : Event) : option DriveFile :=
  match e with
  | EvCreate file _ => Some file
  | EvUpdate _ file _ => Some file
  | _ => None
  end.

(** The sample world with a service that refuses its first call, and with
    another answer waiting on the standard input. *)
Definition searchFailsWorld : World :=
  mkWorld (configApp sampleWorld) (remote sampleWorld)
          (fun k => match k with
                    | O => Some "googleapi: Error 503: Backend Error"
                    | S _ => None
                    end)
          (driveCalls sampleWorld) (fsFile sampleWorld)
          (fsWritable sampleWorld) (fsDir sampleWorld) (stdin sampleWorld)
          (clock sampleWorld) (ticks sampleWorld) (pathDir sampleWorld)
          (pathAbs sampleWorld) (watchAddErr sampleWorld)
          (newWatcherErr sampleWorld).

Definition otherAnswerWorld : World := set_stdin ["/home/u/pics"] sampleWorld.


(** The sample world with one file in the watched directory, whose name
    has a quote in it. *)
Definition quotedNameWorld : World :=
  mkWorld (configApp sampleWorld) (remote sampleWorld)
          (driveFault sampleWorld) (driveCalls sampleWorld)
          (fun p => if (p =? "/home/u/docs/it's.txt")%string then inl "hello"
                    else inr ("open " ++ p ++ ": no such file or directory"))
          (fsWritable sampleWorld)
          (fun p => if (p =? "/home/u/docs")%string
                    then inl [mkFileInfo "it's.txt" false]
                    else inr ("open " ++ p ++ ": no such file or directory"))
          (stdin sampleWorld) (clock sampleWorld) (ticks sampleWorld)
          (pathDir sampleWorld) (pathAbs sampleWorld)
          (watchAddErr sampleWorld) (newWatcherErr sampleWorld).

Definition sampleListing : list FileInfo :=
  [mkFileInfo ".git" true; mkFileInfo ".hidden" false;
   mkFileInfo "a.txt" false; mkFileInfo "config.json" false].

(** * Properties *)

(** ** Strings *)

Lemma len_nonneg (s : string) : 0 <= len s.
Proof. unfold len. lia. Qed.

Lemma len_String (c : ascii) (s : string) : len (String c s) = len s + 1.
Proof. unfold len. simpl String.length. lia. Qed.

Lemma len_app (s t : string) : len (s ++ t) = len s + len t.
Proof.
  induction s as [|c s IH]; cbn [append].
  - unfold len. simpl. lia.
  - rewrite !len_String, IH. lia.
Qed.

Lemma prefix_length (p s : string) :
  prefix p s = true -> (String.length p <= String.length s)%nat.
Proof.
  revert p. induction s as [|b s IH]; intros [|a p] H; simpl in *;
    try lia; try discriminate.
  destruct (ascii_dec a b); [|discriminate].
  apply IH in H. lia.
Qed.

Lemma prefix_app (p s : string) : prefix p (p ++ s) = true.
Proof.
  induction p as [|a p IH]; simpl.
  - destruct s; reflexivity.
  - destruct (ascii_dec a a); [exact IH | congruence].
Qed.

Lemma prefix_contains (s sub : string) :
  prefix sub s = true -> contains s sub = true.
Proof. intros H. destruct s; cbn [contains]; rewrite H; reflexivity. Qed.

Lemma contains_length (s sub : string) :
  contains s sub = true -> (String.length sub <= String.length s)%nat.
Proof.
  induction s as [|c s IH]; cbn [contains]; intros H.
  - rewrite orb_false_r in H. apply prefix_length in H. exact H.
  - apply orb_true_iff in H. destruct H as [H|H].
    + apply prefix_length in H. exact H.
    + apply IH in H. simpl. lia.
Qed.

Lemma contains_app (front sub back : string) :
  contains (front ++ sub ++ back) sub = true.
Proof.
  induction front as [|c front IH].
  - cbn [append]. apply prefix_contains, prefix_app.
  - cbn [append contains]. rewrite IH. apply orb_true_r.
Qed.

(** [strings.LastIndex] answers -1 exactly when there is no instance. *)
Lemma last_index_from_absent (s sub : string) (i : Z) :
  contains s sub = false -> strings.last_index_from i s sub = -1.
Proof.
  revert i. induction s as [|c s IH]; intros i H;
    cbn [contains strings.last_index_from] in *.
  - rewrite orb_false_r in H. rewrite H. reflexivity.
  - apply orb_false_iff in H. destruct H as [Hp Hc].
    rewrite (IH (i + 1) Hc). change (0 <=? -1) with false. cbv iota.
    rewrite Hp. reflexivity.
Qed.

Lemma last_index_from_range (s sub : string) (i : Z) :
  0 <= i -> contains s sub = true ->
  i <= strings.last_index_from i s sub <= i + len s - len sub.
Proof.
  revert i. induction s as [|c s IH]; intros i Hi H.
  - cbn [contains] in H. rewrite orb_false_r in H.
    cbn [strings.last_index_from]. rewrite H. apply prefix_length in H.
    unfold len. lia.
  - cbn [strings.last_index_from].
    destruct (contains s sub) eqn:Hc.
    + specialize (IH (i + 1) ltac:(lia) eq_refl).
      rewrite len_String.
      destruct (0 <=? strings.last_index_from (i + 1) s sub) eqn:Hl; lia.
    + rewrite (last_index_from_absent s sub (i + 1) Hc).
      cbn [contains] in H. rewrite Hc, orb_false_r in H.
      change (0 <=? -1) with false. cbv iota. rewrite H.
      apply prefix_length in H. unfold len. lia.
Qed.

Lemma LastIndex_absent (s sub : string) :
  contains s sub = false -> strings.LastIndex s sub = -1.
Proof. apply last_index_from_absent. Qed.

Lemma LastIndex_present (s sub : string) :
  contains s sub = true ->
  0 <= strings.LastIndex s sub <= len s - len sub.
Proof.
  intros H. pose proof (last_index_from_range s sub 0 ltac:(lia) H).
  unfold strings.LastIndex. lia.
Qed.

Lemma append_empty (s : string) : (s ++ EmptyString)%string = s.
Proof. induction s; simpl; congruence. Qed.

(** The last instance of a suffix is the suffix itself. *)
Lemma last_index_from_suffix (front name : string) (i : Z) :
  0 <= i ->
  strings.last_index_from i (front ++ name) name = i + len front.
Proof.
  revert i. induction front as [|c front IH]; intros i Hi.
  - cbn [append].
    pose proof (prefix_app name EmptyString) as P.
    rewrite append_empty in P.
    pose proof (last_index_from_range name name i Hi
                  (prefix_contains _ _ P)) as R.
    unfold len in *. simpl. lia.
  - cbn [append strings.last_index_from].
    rewrite (IH (i + 1)) by lia.
    pose proof (len_nonneg front). rewrite len_String.
    destruct (0 <=? i + 1 + len front) eqn:E; lia.
Qed.

Lemma LastIndex_suffix (front name : string) :
  strings.LastIndex (front ++ name) name = len (front ++ name) - len name.
Proof.
  unfold strings.LastIndex. rewrite last_index_from_suffix by lia.
  rewrite len_app. lia.
Qed.

(** [strings.Index] finds an instance that is there. *)
Lemma index_from_present (front sub back : string) (i : Z) :
  0 <= i -> 0 <= strings.index_from i (front ++ sub ++ back) sub.
Proof.
  revert i. induction front as [|c front IH]; intros i Hi.
  - cbn [append].
    pose proof (prefix_app sub back) as P.
    destruct (sub ++ back)%string; cbn [strings.index_from];
      rewrite P; exact Hi.
  - cbn [append strings.index_from].
    destruct (prefix sub (String c (front ++ sub ++ back))); [exact Hi|].
    apply IH. lia.
Qed.

(** ** The two filters *)

Lemma isNotAppFile_loop_hit (names : list string) (fileName name : string) :
  In name names ->
  len fileName - len name = strings.LastIndex fileName name ->
  isNotAppFile_loop names fileName = false.
Proof.
  induction names as [|n names IH]; intros Hin Heq; [destruct Hin|].
  cbn [isNotAppFile_loop].
  destruct (len fileName - len n =? strings.LastIndex fileName n) eqn:E;
    [reflexivity|].
  destruct Hin as [->|Hin].
  - apply Z.eqb_neq in E. contradiction.
  - apply IH; assumption.
Qed.

Lemma artifact_is_app_file (path : string) :
  isAppArtifact path -> isNotAppFile path = false.
Proof.
  intros (name & Hin & front & ->).
  apply (isNotAppFile_loop_hit appFiles _ name Hin).
  symmetry. apply LastIndex_suffix.
Qed.

Lemma hidden_is_hidden_file (path : string) :
  isHiddenPath path -> isNotHiddenFile path = true.
Proof.
  intros (front & back & ->). unfold isNotHiddenFile, strings.Index.
  pose proof (index_from_present front "/." back 0 ltac:(lia)) as H.
  destruct (strings.index_from 0 (front ++ "/." ++ back) "/." =? -1) eqn:E;
    [|reflexivity].
  apply Z.eqb_eq in E. lia.
Qed.

Lemma excluded_fails_filters (path : string) :
  isAppArtifact path \/ isHiddenPath path -> passesFilters path = false.
Proof.
  unfold passesFilters. intros [H|H].
  - rewrite (artifact_is_app_file _ H). reflexivity.
  - rewrite (hidden_is_hidden_file _ H). apply andb_false_r.
Qed.

(** ** Actions of a computation *)

Lemma count_app (p : Event -> bool) (l1 l2 : list Event) :
  count p (l1 ++ l2) = (count p l1 + count p l2)%nat.
Proof. unfold count. rewrite filter_app, length_app. reflexivity. Qed.

Lemma quiet_bind (p : Event -> bool) {A B : Type} (m : M A) (k : A -> M B) :
  quiet p m -> (forall a, quiet p (k a)) -> quiet p (bind m k).
Proof.
  intros Hm Hk w. unfold bind. specialize (Hm w).
  destruct (m w) as [[a|msg|msg] w1 ev1]; cbn [emitted] in *;
    try exact Hm.
  specialize (Hk a w1). destruct (k a w1) as [o w2 ev2]; cbn [emitted] in *.
  rewrite count_app, Hm, Hk. reflexivity.
Qed.

Lemma quiet_forRange (p : Event -> bool) {A : Type} (xs : list A)
      (body : A -> M unit) :
  (forall x, In x xs -> quiet p (body x)) -> quiet p (forRange xs body).
Proof.
  induction xs as [|x xs IH]; intros H; cbn [forRange].
  - intro w. reflexivity.
  - apply quiet_bind.
    + apply H. left. reflexivity.
    + intros _. apply IH. intros y Hy. apply H. right. exact Hy.
Qed.

(** A primitive whose one action does not satisfy [p]. *)
Ltac quiet_prim :=
  let w := fresh "w" in
  intro w;
  cbv [ret emit get modify panic fmt_Print log_Print log_Fatal os_Open
       ioutil_ReadDir ioutil_WriteFile fmt_Scanln time_Now_String
       watcher_Add drive.Files_List drive.Files_Create drive.Files_Update];
  repeat match goal with
         | |- context [match ?x with _ => _ end] => destruct x
         end;
  reflexivity.

Ltac quiet_step :=
  match goal with
  | |- quiet _ (bind _ _) => apply quiet_bind; [|intros]
  | |- quiet _ (forRange _ _) => apply quiet_forRange; intros
  | |- quiet _ (match ?x with _ => _ end) => destruct x
  | |- quiet _ _ => solve [quiet_prim]
  end.

Lemma quiet_saveConfigJSONFile (p : Event -> bool) :
  (forall path data, p (EvWriteFile path data) = false) ->
  quiet p saveConfigJSONFile.
Proof.
  intros Hp. unfold saveConfigJSONFile.
  apply quiet_bind; [quiet_prim|]. intros w'.
  unfold json.Marshal. intro w.
  unfold ioutil_WriteFile, count. cbn [emitted filter].
  rewrite Hp. reflexivity.
Qed.

Lemma quiet_updateLastUpdateAppConfig (p : Event -> bool) :
  (forall path data, p (EvWriteFile path data) = false) ->
  quiet p updateLastUpdateAppConfig.
Proof.
  intros Hp. unfold updateLastUpdateAppConfig.
  repeat quiet_step. apply quiet_saveConfigJSONFile, Hp.
Qed.

Lemma opens_other (path p : string) :
  p <> path -> quiet (opens path) (os_Open p).
Proof.
  intros H w. unfold os_Open, count. cbn [emitted filter opens].
  apply String.eqb_neq in H. rewrite H. reflexivity.
Qed.

Lemma processUpload_opens_other (path p n : string) (pf : DriveFile) :
  p <> path -> quiet (opens path) (processUpload p n pf).
Proof.
  intros H. unfold processUpload.
  apply quiet_bind; [apply opens_other, H|]. intros r.
  unfold findUploadFileInDrive, updateFileInDrive, uploadNewFileToDrive.
  repeat first [ apply quiet_updateLastUpdateAppConfig; reflexivity
               | quiet_step ].
Qed.

Lemma emitted_bind_prefix {A B : Type} (m : M A) (k : A -> M B) (w : World) :
  exists rest, emitted (bind m k w) = (emitted (m w) ++ rest)%list.
Proof.
  unfold bind. destruct (m w) as [[a|msg|msg] w1 ev1]; cbn [emitted].
  - destruct (k a w1) as [o w2 ev2]. eexists. reflexivity.
  - exists []. symmetry. apply app_nil_r.
  - exists []. symmetry. apply app_nil_r.
Qed.

Lemma processUpload_opens (p n : string) (pf : DriveFile) (w : World) :
  (1 <= count (opens p) (emitted (processUpload p n pf w)))%nat.
Proof.
  unfold processUpload.
  match goal with
  | |- context [emitted (bind ?m ?k w)] =>
      destruct (emitted_bind_prefix m k w) as [rest ->]
  end.
  rewrite count_app. unfold os_Open, count at 1. cbn [emitted filter opens].
  rewrite String.eqb_refl. cbn [List.length]. lia.
Qed.

Lemma uploadActualFile_filtered (path dir : string) (pf : DriveFile)
      (file : FileInfo) :
  passesFilters path = false ->
  quiet (opens path) (uploadActualFile pf dir file).
Proof.
  intros H. unfold uploadActualFile. cbv zeta.
  destruct (negb (IsDir file)); [|quiet_prim].
  destruct (isNotAppFile (dir ++ "/" ++ fiName file)
            && negb (isNotHiddenFile (dir ++ "/" ++ fiName file))) eqn:E;
    [|quiet_prim].
  apply processUpload_opens_other. intros Heq. subst path.
  unfold passesFilters in H. congruence.
Qed.

Lemma sweep_filtered (path : string) (pf : DriveFile) :
  passesFilters path = false ->
  quiet (opens path) (uploadActualFilesInWatchDir pf).
Proof.
  intros H. unfold uploadActualFilesInWatchDir.
  repeat first [ apply uploadActualFile_filtered; exact H | quiet_step ].
Qed.

Lemma select_filtered (path : string) (pf : DriveFile) (msg : WatcherMsg) :
  passesFilters path = false ->
  quiet (opens path) (runWatcher_select pf msg).
Proof.
  intros H. unfold runWatcher_select.
  destruct msg as [event|err]; [|quiet_prim].
  destruct (Z.land (Op event) fsWrite =? fsWrite); [|quiet_prim].
  destruct (isNotAppFile (evName event) && negb (isNotHiddenFile (evName event)))
    eqn:E; [|quiet_prim].
  cbv zeta.
  repeat first [ apply processUpload_opens_other; intros Heq; subst path;
                 unfold passesFilters in H; congruence
               | quiet_step ].
Qed.

Lemma watch_filtered (path : string) (pf : DriveFile) (msgs : list WatcherMsg) :
  passesFilters path = false ->
  quiet (opens path) (runWatcher pf msgs).
Proof.
  intros H. unfold runWatcher.
  repeat first [ apply select_filtered; exact H | quiet_step ].
Qed.

(** C5. A path that ends with one of the program's own file names, or that
    has a separator followed by a dot, fails the filters; a reconciliation
    of it would show as the opening of the path, and neither the directory
    sweep nor the watch loop, on whatever deliveries, opens it. *)
Theorem filter_exclusion (path : string) (parentFolder : DriveFile)
        (msgs : list WatcherMsg) (w : World) :
  isAppArtifact path \/ isHiddenPath path ->
  passesFilters path = false /\
  (forall name w', (1 <= count (opens path)
                           (emitted (processUpload path name parentFolder w')))%nat) /\
  count (opens path) (emitted (uploadActualFilesInWatchDir parentFolder w)) = 0%nat /\
  count (opens path) (emitted (runWatcher parentFolder msgs w)) = 0%nat.
Proof.
  intros H. apply excluded_fails_filters in H.
  split; [exact H|]. split; [intros; apply processUpload_opens|].
  split; [apply sweep_filtered | apply watch_filtered]; exact H.
Qed.

(** C9. A name one byte shorter than an application file name, in which
    that name therefore does not occur, is taken for an application file:
    [strings.LastIndex] answers -1, which is also the difference of the
    lengths; the sweep and the watch loop leave such a path alone. *)
Theorem short_name_taken_for_app_file (s n : string) (parentFolder : DriveFile)
        (msgs : list WatcherMsg) (w : World) :
  In n appFiles ->
  contains s n = false ->
  len s = len n - 1 ->
  strings.LastIndex s n = -1 /\
  len s - len n = -1 /\
  isNotAppFile s = false /\
  count (opens s) (emitted (uploadActualFilesInWatchDir parentFolder w)) = 0%nat /\
  count (opens s) (emitted (runWatcher parentFolder msgs w)) = 0%nat.
Proof.
  intros Hin Hc Hl.
  pose proof (LastIndex_absent s n Hc) as HL.
  assert (Happ : isNotAppFile s = false).
  { apply (isNotAppFile_loop_hit appFiles s n Hin). lia. }
  assert (Hf : passesFilters s = false).
  { unfold passesFilters. rewrite Happ. reflexivity. }
  repeat split; try assumption; try lia.
  - apply sweep_filtered, Hf.
  - apply watch_filtered, Hf.
Qed.

Lemma filter_exclusion_witness :
  (isAppArtifact "/home/u/docs/config.json"
   \/ isHiddenPath "/home/u/docs/config.json") /\
  passesFilters "/home/u/docs/config.json" = false /\
  (forall name w',
      (1 <= count (opens "/home/u/docs/config.json")
              (emitted (processUpload "/home/u/docs/config.json" name
                                      sampleFolder w')))%nat) /\
  count (opens "/home/u/docs/config.json")
        (emitted (uploadActualFilesInWatchDir sampleFolder sampleWorld)) = 0%nat /\
  count (opens "/home/u/docs/config.json")
        (emitted (runWatcher sampleFolder sampleDeliveries sampleWorld)) = 0%nat.
Proof.
  assert (H : isAppArtifact "/home/u/docs/config.json"
              \/ isHiddenPath "/home/u/docs/config.json").
  { left. exists "config.json". split.
    - simpl. auto.
    - exists "/home/u/docs/". reflexivity. }
  split; [exact H|].
  apply (filter_exclusion "/home/u/docs/config.json" sampleFolder
                          sampleDeliveries sampleWorld H).
Defined.

Lemma short_name_taken_for_app_file_witness :
  (In "config.json" appFiles /\
   contains "notes.data" "config.json" = false /\
   len "notes.data" = len "config.json" - 1) /\
  strings.LastIndex "notes.data" "config.json" = -1 /\
  len "notes.data" - len "config.json" = -1 /\
  isNotAppFile "notes.data" = false /\
  count (opens "notes.data")
        (emitted (uploadActualFilesInWatchDir sampleFolder sampleWorld)) = 0%nat /\
  count (opens "notes.data")
        (emitted (runWatcher sampleFolder sampleDeliveries sampleWorld)) = 0%nat.
Proof.
  assert (Hin : In "config.json" appFiles) by (simpl; auto).
  assert (Hc : contains "notes.data" "config.json" = false) by reflexivity.
  assert (Hl : len "notes.data" = len "config.json" - 1) by reflexivity.
  split; [repeat split; assumption|].
  apply (short_name_taken_for_app_file "notes.data" "config.json" sampleFolder
           sampleDeliveries sampleWorld Hin Hc Hl).
Defined.

(** ** Cutting an event path at its last separator *)

Lemma contains_separator_head (c : ascii) (s : string) :
  contains s filepath.Separator = false ->
  contains (String c s) filepath.Separator = true ->
  c = "/"%char.
Proof.
  intros Hs H. cbn [contains] in H. rewrite Hs, orb_false_r in H.
  unfold filepath.Separator in H. cbn [prefix] in H.
  destruct (ascii_dec "/" c); [congruence | discriminate].
Qed.

Lemma last_separator_split (s : string) (i : Z) :
  0 <= i ->
  contains s filepath.Separator = true ->
  exists front back,
    s = (front ++ "/" ++ back)%string /\
    contains back filepath.Separator = false /\
    strings.last_index_from i s filepath.Separator = i + len front.
Proof.
  revert i. induction s as [|c s IH]; intros i Hi H; [discriminate|].
  cbn [strings.last_index_from].
  destruct (contains s filepath.Separator) eqn:Hc.
  - destruct (IH (i + 1) ltac:(lia) eq_refl) as (front & back & -> & Hb & HL).
    exists (String c front), back. split; [reflexivity|]. split; [exact Hb|].
    rewrite HL, len_String. pose proof (len_nonneg front).
    destruct (0 <=? i + 1 + len front) eqn:E; lia.
  - pose proof (contains_separator_head c s Hc H) as ->.
    exists EmptyString, s. split; [reflexivity|]. split; [exact Hc|].
    rewrite (last_index_from_absent s _ (i + 1) Hc).
    change (0 <=? -1) with false. cbv iota.
    cbn [contains] in H. rewrite Hc, orb_false_r in H. rewrite H.
    unfold len. simpl. lia.
Qed.

Lemma substring_all (s : string) : substring 0 (String.length s) s = s.
Proof. induction s as [|c s IH]; simpl; congruence. Qed.

Lemma substring_front (front rest : string) :
  substring 0 (String.length front) (front ++ rest) = front.
Proof.
  induction front as [|c front IH]; simpl.
  - destruct rest; reflexivity.
  - congruence.
Qed.

Lemma substring_skip (front rest : string) (n m : nat) :
  substring (String.length front + n) m (front ++ rest) = substring n m rest.
Proof. induction front as [|c front IH]; simpl; [reflexivity | exact IH]. Qed.

Lemma slice_front (front back : string) :
  slice (front ++ "/" ++ back) 0 (len front) = Some front.
Proof.
  unfold slice. rewrite !len_app.
  pose proof (len_nonneg front). pose proof (len_nonneg back).
  pose proof (len_nonneg "/").
  replace ((0 <=? 0) && (0 <=? len front)
           && (len front <=? len front + (len "/" + len back))) with true
    by (symmetry; rewrite !andb_true_iff; repeat split; lia).
  f_equal. change (Z.to_nat 0) with 0%nat.
  replace (Z.to_nat (len front - 0)) with (String.length front)
    by (unfold len; lia).
  apply substring_front.
Qed.

Lemma slice_back (front back : string) :
  slice (front ++ "/" ++ back) (len front + 1)
        (len (front ++ "/" ++ back)) = Some back.
Proof.
  unfold slice. rewrite !len_app.
  pose proof (len_nonneg front). pose proof (len_nonneg back).
  change (len "/") with 1.
  replace ((0 <=? len front + 1)
           && (len front + 1 <=? len front + (1 + len back))
           && (len front + (1 + len back) <=? len front + (1 + len back)))
    with true by (symmetry; rewrite !andb_true_iff; repeat split; lia).
  f_equal.
  replace (Z.to_nat (len front + 1)) with (String.length front + 1)%nat
    by (unfold len; lia).
  replace (Z.to_nat (len front + (1 + len back) - (len front + 1)))
    with (String.length back) by (unfold len; lia).
  rewrite substring_skip. cbn [append substring]. apply substring_all.
Qed.

(** C10. A write event whose path passes both filters is handled without a
    run-time error only if the path has a separator.  Without one,
    [strings.LastIndex] answers -1 and the slice expression panics before
    anything is logged or uploaded; with one, the path is cut at its last
    separator and the base name goes to [processUpload]. *)
Theorem watch_event_needs_separator (parentFolder : DriveFile)
        (event : fsEvent) (w : World) :
  Z.land (Op event) fsWrite = fsWrite ->
  passesFilters (evName event) = true ->
  (contains (evName event) filepath.Separator = false ->
   strings.LastIndex (evName event) filepath.Separator = -1 /\
   slice (evName event) 0 (-1) = None /\
   runWatcher_select parentFolder (OnEvents event) w
   = mkRun (Panicked "runtime error: slice bounds out of range") w [])
  /\
  (contains (evName event) filepath.Separator = true ->
   exists actualFileToWatch onlyFileName,
     evName event = (actualFileToWatch ++ "/" ++ onlyFileName)%string /\
     contains onlyFileName filepath.Separator = false /\
     runWatcher_select parentFolder (OnEvents event) w
     = (log_Print ("ToReplace:  " ++ actualFileToWatch
                   ++ filepath.Separator ++ "  - name:  "
                   ++ evName event ++ "   onlyFileName:  "
                   ++ onlyFileName) ;;
        processUpload (evName event) onlyFileName parentFolder) w).
Proof.
  destruct event as [name op]. cbn [evName Op].
  intros Hop Hf. unfold passesFilters in Hf.
  apply Z.eqb_eq in Hop. split; intros Hc.
  - pose proof (LastIndex_absent _ _ Hc) as HL.
    split; [exact HL|]. split; [reflexivity|].
    unfold runWatcher_select. cbn [evName Op]. rewrite Hop, Hf. cbv zeta.
    rewrite HL. reflexivity.
  - destruct (last_separator_split name 0 ltac:(lia) Hc)
      as (front & back & E & Hb & HL).
    exists front, back. split; [exact E|]. split; [exact Hb|].
    unfold runWatcher_select. cbn [evName Op]. rewrite Hop, Hf. cbv zeta.
    unfold strings.LastIndex. rewrite HL, Z.add_0_l. subst name.
    rewrite slice_front, slice_back. reflexivity.
Qed.

Lemma watch_event_needs_separator_witness :
  (Z.land 2 fsWrite = fsWrite /\ passesFilters "a.txt" = true /\
   contains "a.txt" filepath.Separator = false) /\
  runWatcher_select sampleFolder (OnEvents (mkFsEvent "a.txt" 2)) sampleWorld
  = mkRun (Panicked "runtime error: slice bounds out of range") sampleWorld [].
Proof.
  assert (Hop : Z.land (Op (mkFsEvent "a.txt" 2)) fsWrite = fsWrite)
    by reflexivity.
  assert (Hf : passesFilters (evName (mkFsEvent "a.txt" 2)) = true)
    by reflexivity.
  assert (Hc : contains "a.txt" filepath.Separator = false) by reflexivity.
  split; [repeat split; assumption|].
  destruct (watch_event_needs_separator sampleFolder (mkFsEvent "a.txt" 2)
              sampleWorld Hop Hf) as [Hno _].
  apply (Hno Hc).
Defined.

(** ** Folder resolution *)

Lemma last_match_fold (folderName : string) (before after : list DriveFile)
      (last : DriveFile) :
  Name last = folderName ->
  Forall (fun f => Name f <> folderName) after ->
  fold_left (fun folder actualFile =>
               if (Name actualFile =? folderName)%string
               then Some actualFile else folder)
            (before ++ last :: after)%list None = Some last.
Proof.
  intros Hl Ha. rewrite fold_left_app. cbn [fold_left].
  apply String.eqb_eq in Hl. rewrite Hl.
  induction Ha as [|f after Hf _ IH]; cbn [fold_left]; [reflexivity|].
  apply String.eqb_neq in Hf. rewrite Hf. exact IH.
Qed.

Lemma no_match_fold (folderName : string) (files : list DriveFile) :
  Forall (fun f => Name f <> folderName) files ->
  fold_left (fun folder actualFile =>
               if (Name actualFile =? folderName)%string
               then Some actualFile else folder)
            files None = None.
Proof.
  induction 1 as [|f files Hf _ IH]; cbn [fold_left]; [reflexivity|].
  apply String.eqb_neq in Hf. rewrite Hf. exact IH.
Qed.

(** The run, written out, of a computation made of primitives. *)
Ltac run :=
  cbv [bind ret emit get modify panic fmt_Print log_Print log_Fatal os_Open
       ioutil_ReadDir ioutil_WriteFile fmt_Scanln time_Now_String
       watcher_Add drive.Files_List];
  cbn [outcome final emitted app
       configApp remote driveFault driveCalls fsFile fsWritable fsDir stdin
       clock ticks pathDir pathAbs watchAddErr newWatcherErr
       set_configApp set_remote set_driveCalls set_fsFile set_stdin set_ticks
       FolderName LastUpdate FolderToWatch].

(** C3. When the folder listing has at least one folder of the requested
    name, [findHolderFolder] returns the last one in listing order and no
    error, whatever comes before it in the listing; [executeApp] takes that
    folder and creates none. *)
Theorem findHolderFolder_last_match (folderName : string) (w : World)
        (before after : list DriveFile) (last : DriveFile) :
  drive.listing drive.foldersQuery folderFields w
  = inl (before ++ last :: after)%list ->
  Name last = folderName ->
  Forall (fun f => Name f <> folderName) after ->
  outcome (findHolderFolder folderName w) = Returned (Some last, None) /\
  (folderName = FolderName (configApp w) ->
   outcome (executeApp_folder w) = Returned (Some last) /\
   count isCreate (emitted (executeApp_folder w)) = 0%nat).
Proof.
  intros Hlist Hl Ha.
  assert (Hlen : (0 <? Z.of_nat (List.length (before ++ last :: after)%list))
                 = true).
  { apply Z.ltb_lt. rewrite length_app. simpl. lia. }
  assert (Hrun : findHolderFolder folderName w
                 = mkRun (Returned (Some last, None))
                         (set_driveCalls (S (driveCalls w)) w)
                         [EvList drive.foldersQuery folderFields]).
  { unfold findHolderFolder. run. fold folderFields. rewrite Hlist, Hlen.
    cbv zeta. rewrite (last_match_fold folderName before after last Hl Ha).
    reflexivity. }
  split; [rewrite Hrun; reflexivity|].
  intros ->. unfold executeApp_folder. run. rewrite Hrun. run.
  split; reflexivity.
Qed.

Lemma findHolderFolder_no_match (folderName : string) (w : World)
      (files : list DriveFile) :
  drive.listing drive.foldersQuery folderFields w = inl files ->
  Forall (fun f => Name f <> folderName) files ->
  exists err,
    findHolderFolder folderName w
    = mkRun (Returned (None, Some err))
            (set_driveCalls (S (driveCalls w)) w)
            [EvList drive.foldersQuery folderFields].
Proof.
  intros Hlist Hf. unfold findHolderFolder. run. fold folderFields.
  rewrite Hlist. destruct (0 <? Z.of_nat (List.length files)).
  - cbv zeta. rewrite (no_match_fold folderName files Hf).
    eexists. reflexivity.
  - eexists. reflexivity.
Qed.

(** C4. When no folder of the listing has the destination name,
    [executeApp] sends exactly one create call, for a folder of that name;
    when the service answers it, the created folder is the one the rest of
    [executeApp] works with. *)
Theorem folder_auto_creation (w : World) (files : list DriveFile)
        (msgs : list WatcherMsg) :
  drive.listing drive.foldersQuery folderFields w = inl files ->
  Forall (fun f => Name f <> FolderName (configApp w)) files ->
  let fileMeta :=
    mkDriveFile EmptyString (FolderName (configApp w)) folderMimeType [] in
  let folderFile :=
    drive.selectFields EmptyString
      (meta (drive.created (remote w) fileMeta None)) in
  count isCreate (emitted (executeApp_folder w)) = 1%nat /\
  In (EvCreate fileMeta None) (emitted (executeApp_folder w)) /\
  (driveFault w (S (driveCalls w)) = None ->
   outcome (executeApp_folder w) = Returned (Some folderFile) /\
   Name folderFile = FolderName (configApp w) /\
   MimeType folderFile = folderMimeType /\
   remote (final (executeApp_folder w))
   = (remote w ++ [drive.created (remote w) fileMeta None])%list /\
   outcome (executeApp msgs w)
   = outcome (executeApp_sync (Some folderFile) msgs
                              (final (executeApp_folder w))) /\
   emitted (executeApp msgs w)
   = (emitted (executeApp_folder w)
      ++ emitted (executeApp_sync (Some folderFile) msgs
                                  (final (executeApp_folder w))))%list).
Proof.
  intros Hlist Hf fileMeta folderFile.
  destruct (findHolderFolder_no_match _ w files Hlist Hf) as [err Hrun].
  assert (Hfolder :
            executeApp_folder w
            = match driveFault w (S (driveCalls w)) with
              | Some e =>
                  mkRun (Panicked e)
                        (set_driveCalls (S (S (driveCalls w))) w)
                        [EvPrint ("Looking for folder " ++ dquote
                                  ++ FolderName (configApp w) ++ dquote
                                  ++ "..." ++ nl);
                         EvList drive.foldersQuery folderFields;
                         EvLog ("Error finding " ++ FolderName (configApp w)
                                ++ " : " ++ showErr None ++ nl);
                         EvCreate fileMeta None]
              | None =>
                  mkRun (Returned (Some folderFile))
                        (set_remote
                           (remote w ++ [drive.created (remote w) fileMeta None])
                           (set_driveCalls (S (S (driveCalls w))) w))
                        [EvPrint ("Looking for folder " ++ dquote
                                  ++ FolderName (configApp w) ++ dquote
                                  ++ "..." ++ nl);
                         EvList drive.foldersQuery folderFields;
                         EvLog ("Error finding " ++ FolderName (configApp w)
                                ++ " : " ++ showErr None ++ nl);
                         EvCreate fileMeta None;
                         EvPrint ("Created folder " ++ dquote
                                  ++ FolderName (configApp w) ++ dquote
                                  ++ " for files!!" ++ nl)]
              end).
  { unfold executeApp_folder. run. rewrite Hrun. run.
    unfold createFolderInDrive, drive.Files_Create. run.
    destruct (driveFault w (S (driveCalls w))); reflexivity. }
  split; [|split].
  - rewrite Hfolder. destruct (driveFault w (S (driveCalls w))); reflexivity.
  - rewrite Hfolder.
    destruct (driveFault w (S (driveCalls w))); cbn [emitted In]; auto 6.
  - intros Hok. unfold executeApp, bind. rewrite Hfolder, Hok.
    cbn [outcome final emitted remote set_remote].
    destruct (executeApp_sync _ _ _) as [o w2 ev2].
    repeat split; reflexivity.
Qed.

(** ** Reconciliation *)

(** The run of [processUpload], written out. *)
Ltac run_upload :=
  unfold processUpload, findUploadFileInDrive, updateFileInDrive,
    uploadNewFileToDrive, updateLastUpdateAppConfig, saveConfigJSONFile,
    drive.Files_Create, drive.Files_Update, json.Marshal;
  run; fold uploadFields.

(** C1. In a reconciliation whose file opens: when the search lists no
    file, exactly one create call and no update call is sent; when it
    lists at least one, exactly one update call, for the first file
    listed, and no create call is sent. *)
Theorem reconcile_create_or_update (w : World)
        (uploadFilePath uploadFileName : string) (parentFolder : DriveFile)
        (goFile : string) (files : list DriveFile) :
  fsFile w uploadFilePath = inl goFile ->
  drive.listing (uploadQuery (Id parentFolder) uploadFileName) uploadFields w
  = inl files ->
  let calls :=
    emitted (processUpload uploadFilePath uploadFileName parentFolder w) in
  (files = [] ->
   count isCreate calls = 1%nat /\ count isUpdate calls = 0%nat) /\
  (forall first rest, files = first :: rest ->
   count isUpdate calls = 1%nat /\
   count (isUpdateOf (Id first)) calls = 1%nat /\
   count isCreate calls = 0%nat).
Proof.
  intros Hopen Hlist calls. subst calls. unfold uploadQuery in Hlist.
  split.
  - intros ->. run_upload. rewrite Hopen. run. rewrite Hlist. run.
    destruct (driveFault w (S (driveCalls w))); split; reflexivity.
  - intros first rest ->. run_upload. rewrite Hopen. run. rewrite Hlist. run.
    destruct (driveFault w (S (driveCalls w))); run;
      [|destruct (find (drive.hasId (Id first)) (remote w)); run];
      unfold count; cbn [filter isUpdate isUpdateOf isCreate List.length];
      rewrite String.eqb_refl; repeat split; reflexivity.
Qed.

Lemma contains_separator_tail (c : ascii) (s : string) :
  contains (String c s) filepath.Separator = false ->
  (c =? "/")%char = false /\ contains s filepath.Separator = false.
Proof.
  cbn [contains]. intros H. apply orb_false_iff in H. destruct H as [Hp Hc].
  split; [|exact Hc]. unfold filepath.Separator in Hp. cbn [prefix] in Hp.
  destruct (ascii_dec "/" c) as [<-|Hne].
  - destruct s; discriminate.
  - apply Ascii.eqb_neq. congruence.
Qed.

Lemma trim_without_separator (s : string) :
  contains s filepath.Separator = false ->
  filepath.trimTrailingSeparators s = s.
Proof.
  induction s as [|c s IH]; intros H; [reflexivity|].
  apply contains_separator_tail in H. destruct H as [Hc Hs].
  cbn [filepath.trimTrailingSeparators]. rewrite Hc, (IH Hs). reflexivity.
Qed.

(** [filepath.Base] leaves a plain name as it is. *)
Lemma Base_plain (name : string) :
  plainName name -> filepath.Base name = name.
Proof.
  intros [Hne Hc]. unfold filepath.Base.
  apply String.eqb_neq in Hne. rewrite Hne.
  rewrite (trim_without_separator _ Hc), (LastIndex_absent _ _ Hc).
  change (0 <=? -1) with false. cbv iota. rewrite Hne. reflexivity.
Qed.

(** C7. In a reconciliation that finds the file, every update call names
    the first listed file and submits the base name of that file's remote
    name, together with the local bytes: the submitted name is computed
    from the remote file alone, so it is the same for any local path, and
    it is the remote name itself when that is a plain name. *)
Theorem update_submits_remote_base_name (w : World) (uploadFilePath : string)
        (uploadFileName : string) (parentFolder : DriveFile) (goFile : string)
        (first : DriveFile) (rest : list DriveFile) :
  fsFile w uploadFilePath = inl goFile ->
  drive.listing (uploadQuery (Id parentFolder) uploadFileName) uploadFields w
  = inl (first :: rest) ->
  let calls :=
    emitted (processUpload uploadFilePath uploadFileName parentFolder w) in
  In (EvUpdate (Id first)
               (mkDriveFile EmptyString (filepath.Base (Name first))
                            EmptyString [])
               (Some goFile)) calls /\
  (forall fileId file media,
      In (EvUpdate fileId file media) calls ->
      fileId = Id first /\ Name file = filepath.Base (Name first)
      /\ media = Some goFile) /\
  (forall otherPath otherFile fileId file media,
      fsFile w otherPath = inl otherFile ->
      In (EvUpdate fileId file media)
         (emitted (processUpload otherPath uploadFileName parentFolder w)) ->
      Name file = filepath.Base (Name first)) /\
  (plainName (Name first) -> filepath.Base (Name first) = Name first).
Proof.
  intros Hopen Hlist calls. subst calls. unfold uploadQuery in Hlist.
  assert (Hcalls : forall path bytes fileId file media,
             fsFile w path = inl bytes ->
             In (EvUpdate fileId file media)
                (emitted (processUpload path uploadFileName parentFolder w)) ->
             fileId = Id first /\ Name file = filepath.Base (Name first)
             /\ media = Some bytes).
  { intros path bytes fileId file media Hp. run_upload. rewrite Hp. run.
    rewrite Hlist. run.
    destruct (driveFault w (S (driveCalls w))); run;
      [|destruct (find (drive.hasId (Id first)) (remote w)); run];
      cbn [In]; intros H;
      repeat (destruct H as [H|H]; try discriminate; try contradiction);
      inversion H; subst; repeat split; reflexivity. }
  split; [|split; [|split]].
  - run_upload. rewrite Hopen. run. rewrite Hlist. run.
    destruct (driveFault w (S (driveCalls w))); run;
      [|destruct (find (drive.hasId (Id first)) (remote w)); run];
      cbn [In]; auto 8.
  - intros fileId file media. apply Hcalls, Hopen.
  - intros otherPath otherFile fileId file media Hp Hin.
    apply (Hcalls _ _ _ _ _ Hp Hin).
  - apply Base_plain.
Qed.

(** ** The remote store *)

Lemma stripPrefix_app (p s : string) :
  drive.stripPrefix p (p ++ s) = Some s.
Proof.
  induction p as [|a p IH]; cbn [append drive.stripPrefix].
  - destruct s; reflexivity.
  - rewrite Ascii.eqb_refl. exact IH.
Qed.

Lemma upToQuote_safe (t rest : string) :
  querySafe t = true ->
  drive.upToQuote (t ++ String "'" rest) = Some (t, rest).
Proof.
  induction t as [|c t IH]; cbn [querySafe append drive.upToQuote]; intros H.
  - reflexivity.
  - apply andb_true_iff in H. destruct H as [H Ht].
    apply andb_true_iff in H. destruct H as [H1 H2].
    apply negb_true_iff in H1, H2. rewrite H1, H2, (IH Ht). reflexivity.
Qed.

(** The service reads the program's search as the program means it, when
    neither text has a quote or a backslash. *)
Lemma parse_uploadQuery (parentID fileName : string) :
  querySafe parentID = true -> querySafe fileName = true ->
  drive.parseQuery (uploadQuery parentID fileName)
  = Some (drive.QChildNamed parentID fileName).
Proof.
  intros Hp Hn. unfold drive.parseQuery, uploadQuery.
  change (("'" ++ parentID
           ++ "' in parents and explicitlyTrashed=false and name='"
           ++ fileName ++ "'")%string)
    with (String "'"
            (parentID
             ++ String "'"
                  (" in parents and explicitlyTrashed=false and name='"
                   ++ (fileName ++ String "'" EmptyString)))%string).
  change ((String "'" ?x =? drive.foldersQuery)%string) with false.
  cbv iota.
  change (drive.stripPrefix "'" (String "'" ?x)) with (Some x).
  cbv iota.
  rewrite (upToQuote_safe _ _ Hp), stripPrefix_app, (upToQuote_safe _ _ Hn).
  reflexivity.
Qed.

Lemma length_zeros (n : nat) : String.length (drive.zeros n) = n.
Proof. induction n; simpl; congruence. Qed.

(** No entry of the store has the identifier the next created entry gets. *)
Lemma freshId_fresh (store : list RemoteEntry) (e : RemoteEntry) :
  In e store -> drive.hasId (drive.freshId store) e = false.
Proof.
  intros Hin. unfold drive.hasId. apply String.eqb_neq. intros Heq.
  assert (Hlen : (String.length (Id (meta e))
                  <= list_max (map (fun e => String.length (Id (meta e))) store))%nat).
  { pose proof (proj1 (list_max_le
                         (map (fun e => String.length (Id (meta e))) store) _)
                      (le_n _)) as Hall.
    rewrite Forall_forall in Hall. apply Hall.
    apply in_map_iff. exists e. split; [reflexivity | exact Hin]. }
  rewrite Heq in Hlen. unfold drive.freshId in Hlen.
  rewrite length_zeros in Hlen. lia.
Qed.

Lemma find_at_end (f : RemoteEntry -> bool) (store : list RemoteEntry)
      (e : RemoteEntry) :
  (forall x, In x store -> f x = false) -> f e = true ->
  find f (store ++ [e]) = Some e.
Proof.
  intros Hs He. induction store as [|x store IH]; cbn [app find].
  - rewrite He. reflexivity.
  - rewrite (Hs x (or_introl eq_refl)). apply IH.
    intros y Hy. apply Hs. right. exact Hy.
Qed.

Lemma map_at_end (f : RemoteEntry -> bool) (g : RemoteEntry -> RemoteEntry)
      (store : list RemoteEntry) (e : RemoteEntry) :
  (forall x, In x store -> f x = false) -> f e = true ->
  map (fun x => if f x then g x else x) (store ++ [e]) = (store ++ [g e])%list.
Proof.
  intros Hs He. rewrite map_app. cbn [map]. rewrite He. f_equal.
  rewrite <- (map_id store) at 2. apply map_ext_in.
  intros x Hx. rewrite (Hs x Hx). reflexivity.
Qed.

Lemma listing_upload (w : World) (parentID fileName : string) :
  driveFault w (driveCalls w) = None ->
  querySafe parentID = true -> querySafe fileName = true ->
  drive.listing (uploadQuery parentID fileName) uploadFields w
  = inl (firstn drive.pageSize
           (map (fun e => drive.selectFields uploadFields (meta e))
                (filesUnder parentID fileName (remote w)))).
Proof.
  intros Hf Hp Hn. unfold drive.listing, drive.search.
  rewrite Hf, (parse_uploadQuery _ _ Hp Hn). reflexivity.
Qed.

Lemma processUpload_create_run (w : World) (uploadFilePath uploadFileName : string)
      (parentFolder : DriveFile) (goFile : string) :
  fsFile w uploadFilePath = inl goFile ->
  drive.listing (uploadQuery (Id parentFolder) uploadFileName) uploadFields w
  = inl [] ->
  driveFault w (S (driveCalls w)) = None ->
  exists w1 ev1,
    processUpload uploadFilePath uploadFileName parentFolder w
    = mkRun (Returned tt) w1 ev1 /\
    remote w1
    = (remote w
       ++ [drive.created (remote w)
             (mkDriveFile EmptyString (filepath.Base uploadFileName)
                          EmptyString [Id parentFolder]) (Some goFile)])%list /\
    driveFault w1 = driveFault w /\
    (exists bytes, fsFile w1 uploadFilePath = inl bytes) /\
    count isCreate ev1 = 1%nat /\ count isUpdate ev1 = 0%nat.
Proof.
  intros Hopen Hlist Hfault. unfold uploadQuery in Hlist.
  run_upload. rewrite Hopen. run. rewrite Hlist. run. rewrite Hfault. run.
  destruct (fsWritable w configFileName); run.
  - do 2 eexists. split; [reflexivity|]. run.
    repeat split; try reflexivity.
    destruct (uploadFilePath =? configFileName)%string; eauto.
  - do 2 eexists. split; [reflexivity|]. run.
    repeat split; try reflexivity. eauto.
Qed.

Lemma processUpload_update_run (w : World) (uploadFilePath uploadFileName : string)
      (parentFolder : DriveFile) (goFile : string)
      (first : DriveFile) (rest : list DriveFile) (e : RemoteEntry) :
  fsFile w uploadFilePath = inl goFile ->
  drive.listing (uploadQuery (Id parentFolder) uploadFileName) uploadFields w
  = inl (first :: rest) ->
  driveFault w (S (driveCalls w)) = None ->
  find (drive.hasId (Id first)) (remote w) = Some e ->
  exists w2 ev2,
    processUpload uploadFilePath uploadFileName parentFolder w
    = mkRun (Returned tt) w2 ev2 /\
    remote w2
    = map (fun e' =>
             if drive.hasId (Id first) e'
             then drive.updated
                    (mkDriveFile EmptyString (filepath.Base (Name first))
                                 EmptyString []) (Some goFile) e'
             else e')
          (remote w) /\
    count isUpdate ev2 = 1%nat /\ count isCreate ev2 = 0%nat.
Proof.
  intros Hopen Hlist Hfault Hfind. unfold uploadQuery in Hlist.
  run_upload. rewrite Hopen. run. rewrite Hlist. run. rewrite Hfault. run.
  rewrite Hfind. run.
  destruct (fsWritable w configFileName); run;
    do 2 eexists; (split; [reflexivity|]); run; repeat split; reflexivity.
Qed.

(** C2, for names and folder identifiers without quote or backslash.  Two
    reconciliations in a row of the same local file into the same
    folder, from a store with no live file of that name under the folder
    and with a service that answers every call: both return, the first
    creates, the second updates and does not create, and the store ends
    with exactly one live file under the pair, having grown by one entry.
    The name is a plain one, as both callers pass it, and neither the name
    nor the folder identifier has a quote or a backslash, so that the
    search text reads as meant. *)
Theorem reconcile_twice (w : World) (uploadFilePath uploadFileName : string)
        (parentFolder : DriveFile) (goFile : string) :
  fsFile w uploadFilePath = inl goFile ->
  (forall k, driveFault w k = None) ->
  querySafe (Id parentFolder) = true ->
  querySafe uploadFileName = true ->
  plainName uploadFileName ->
  filesUnder (Id parentFolder) uploadFileName (remote w) = [] ->
  let r1 := processUpload uploadFilePath uploadFileName parentFolder w in
  let r2 := processUpload uploadFilePath uploadFileName parentFolder (final r1) in
  outcome r1 = Returned tt /\ outcome r2 = Returned tt /\
  count isCreate (emitted r1) = 1%nat /\ count isUpdate (emitted r1) = 0%nat /\
  count isUpdate (emitted r2) = 1%nat /\ count isCreate (emitted r2) = 0%nat /\
  List.length (filesUnder (Id parentFolder) uploadFileName (remote (final r2)))
  = 1%nat /\
  List.length (remote (final r2)) = S (List.length (remote w)).
Proof.
  intros Hopen Hfault Hp Hn Hplain Hnone.
  pose proof (listing_upload w _ _ (Hfault _) Hp Hn) as Hl1.
  rewrite Hnone in Hl1. cbn [map] in Hl1. rewrite firstn_nil in Hl1.
  unfold uploadQuery in Hl1.
  destruct (processUpload_create_run w uploadFilePath uploadFileName
              parentFolder goFile Hopen Hl1 (Hfault _))
    as (w1 & ev1 & Hr1 & Hrem1 & Hf1 & [bytes Hopen1] & Hc1 & Hu1).
  set (e := drive.created (remote w)
              (mkDriveFile EmptyString (filepath.Base uploadFileName)
                           EmptyString [Id parentFolder]) (Some goFile)) in *.
  assert (Hbase : filepath.Base uploadFileName = uploadFileName)
    by (apply Base_plain; exact Hplain).
  assert (Hme : drive.matches
                  (drive.QChildNamed (Id parentFolder) uploadFileName) e = true).
  { unfold e, drive.matches, drive.created.
    cbn [meta Parents Name explicitlyTrashed existsb].
    rewrite Hbase, !String.eqb_refl. reflexivity. }
  assert (Hunder1 : filesUnder (Id parentFolder) uploadFileName (remote w1) = [e]).
  { unfold filesUnder in *. rewrite Hrem1, filter_app, Hnone.
    cbn [filter app]. rewrite Hme. reflexivity. }
  assert (Hfault1 : forall k, driveFault w1 k = None)
    by (intros k; rewrite Hf1; apply Hfault).
  pose proof (listing_upload w1 _ _ (Hfault1 _) Hp Hn) as Hl2.
  rewrite Hunder1 in Hl2. cbn [map firstn drive.pageSize] in Hl2.
  set (first := drive.selectFields uploadFields (meta e)) in *.
  assert (Hname : Name first = uploadFileName).
  { unfold first, drive.selectFields, uploadFields.
    change (("files(id, name)" =? "files(id, name)")%string) with true.
    cbv iota. unfold e, drive.created. cbn [meta Name]. exact Hbase. }
  assert (Hid : drive.hasId (Id first) e = true).
  { unfold first, drive.hasId, drive.selectFields, uploadFields.
    cbn [Id]. apply String.eqb_refl. }
  assert (Hold : forall x, In x (remote w) -> drive.hasId (Id first) x = false).
  { intros x Hx. apply (freshId_fresh _ _ Hx). }
  assert (Hfind : find (drive.hasId (Id first)) (remote w1) = Some e).
  { rewrite Hrem1. apply find_at_end; assumption. }
  destruct (processUpload_update_run w1 uploadFilePath uploadFileName
              parentFolder bytes first [] e Hopen1 Hl2 (Hfault1 _) Hfind)
    as (w2 & ev2 & Hr2 & Hrem2 & Hu2 & Hc2).
  rewrite Hrem1, (map_at_end _ _ _ _ Hold Hid) in Hrem2.
  intros r1 r2. subst r1 r2. rewrite Hr1. cbn [outcome final emitted].
  rewrite Hr2. cbn [outcome final emitted]. rewrite Hrem2.
  repeat split; try assumption.
  - unfold filesUnder in *. rewrite filter_app, Hnone. cbn [filter app].
    replace (drive.matches _ _) with true; [reflexivity|].
    symmetry. unfold drive.matches, drive.updated.
    cbn [meta Parents Name Id explicitlyTrashed MimeType].
    rewrite Hname, Hbase.
    destruct Hplain as [Hne _]. apply String.eqb_neq in Hne. rewrite Hne.
    unfold e, drive.created. cbn [meta Parents explicitlyTrashed existsb].
    rewrite !String.eqb_refl. reflexivity.
  - rewrite !length_app. simpl. lia.
Qed.

(** ** Adding a watched path *)

Lemma isFolderInConfig_found (folders : list string) (folderToWatch : string) :
  In folderToWatch folders -> isFolderInConfig folders folderToWatch = true.
Proof.
  unfold isFolderInConfig.
  assert (Hkeep : forall l,
             fold_left (fun isFolderInConfig actualFoldertoWatch =>
                          if (actualFoldertoWatch =? folderToWatch)%string
                          then true else isFolderInConfig) l true = true).
  { induction l as [|x l IH]; cbn [fold_left]; [reflexivity|].
    destruct (x =? folderToWatch)%string; exact IH. }
  generalize false.
  induction folders as [|x folders IH]; intros b Hin; [destruct Hin|].
  cbn [fold_left]. destruct Hin as [->|Hin].
  - rewrite String.eqb_refl. apply Hkeep.
  - apply IH, Hin.
Qed.

(** C6. When the path made of the user's answer is already among the
    watched paths, [addFolderToWatch] returns normally, leaves the
    configuration as it was, writes no file, and logs the error line. *)
Theorem duplicate_watch_path_rejected (w : World) :
  In (pathToAdd w) (FolderToWatch (configApp w)) ->
  outcome (addFolderToWatch w) = Returned tt /\
  configApp (final (addFolderToWatch w)) = configApp w /\
  fsFile (final (addFolderToWatch w)) = fsFile w /\
  count isWriteFile (emitted (addFolderToWatch w)) = 0%nat /\
  In (EvLog "ERROR!! - The folder ir already in config!")
     (emitted (addFolderToWatch w)).
Proof.
  intros Hin.
  assert (Hlen : (Z.of_nat (List.length (FolderToWatch (configApp w))) =? 0)
                 = false).
  { apply Z.eqb_neq. destruct (FolderToWatch (configApp w));
      [destruct Hin | simpl; lia]. }
  apply isFolderInConfig_found in Hin.
  unfold pathToAdd, promptedPath in Hin.
  unfold addFolderToWatch. run. rewrite Hlen.
  destruct (stdin w) as [|token rest]; run; rewrite Hin; run;
    repeat split; try reflexivity; cbn [In]; auto.
Qed.

(** ** The properties at work in the sample worlds *)

Lemma reconcile_create_or_update_witness :
  (fsFile sampleWorld "/home/u/docs/a.txt" = inl "hello" /\
   drive.listing (uploadQuery (Id sampleFolder) "a.txt") uploadFields
                 sampleWorld = inl []) /\
  count isCreate
        (emitted (processUpload "/home/u/docs/a.txt" "a.txt" sampleFolder
                                sampleWorld)) = 1%nat /\
  count isUpdate
        (emitted (processUpload "/home/u/docs/a.txt" "a.txt" sampleFolder
                                sampleWorld)) = 0%nat.
Proof.
  assert (Hopen : fsFile sampleWorld "/home/u/docs/a.txt" = inl "hello")
    by reflexivity.
  assert (Hlist : drive.listing (uploadQuery (Id sampleFolder) "a.txt")
                                uploadFields sampleWorld = inl [])
    by reflexivity.
  split; [split; assumption|].
  destruct (reconcile_create_or_update sampleWorld "/home/u/docs/a.txt" "a.txt"
              sampleFolder "hello" [] Hopen Hlist) as [Hcreate _].
  apply Hcreate. reflexivity.
Defined.

Lemma reconcile_twice_witness :
  (fsFile sampleWorld "/home/u/docs/a.txt" = inl "hello" /\
   (forall k, driveFault sampleWorld k = None) /\
   querySafe (Id sampleFolder) = true /\
   querySafe "a.txt" = true /\
   plainName "a.txt" /\
   filesUnder (Id sampleFolder) "a.txt" (remote sampleWorld) = []) /\
  List.length
    (filesUnder (Id sampleFolder) "a.txt"
       (remote
          (final
             (processUpload "/home/u/docs/a.txt" "a.txt" sampleFolder
                (final (processUpload "/home/u/docs/a.txt" "a.txt"
                                      sampleFolder sampleWorld))))))
  = 1%nat.
Proof.
  assert (Hopen : fsFile sampleWorld "/home/u/docs/a.txt" = inl "hello")
    by reflexivity.
  assert (Hfault : forall k, driveFault sampleWorld k = None)
    by (intro; reflexivity).
  assert (Hp : querySafe (Id sampleFolder) = true) by reflexivity.
  assert (Hn : querySafe "a.txt" = true) by reflexivity.
  assert (Hplain : plainName "a.txt") by (split; [discriminate | reflexivity]).
  assert (Hnone : filesUnder (Id sampleFolder) "a.txt" (remote sampleWorld) = [])
    by reflexivity.
  split; [repeat split; try assumption; discriminate|].
  apply (reconcile_twice sampleWorld "/home/u/docs/a.txt" "a.txt" sampleFolder
           "hello" Hopen Hfault Hp Hn Hplain Hnone).
Defined.

(** C2 does not hold for every file name.  The search text is built by
    concatenation, so a name with a quote in it, which the sweep passes on
    as the directory has it, makes a search that the service refuses: the
    reconciliation ends by [log.Fatalf] where the claim has it create, and
    again where the claim has it update, and no remote file is left under
    the pair. *)
Lemma reconcile_twice_quoted_name :
  let r1 := processUpload "/home/u/docs/it's.txt" "it's.txt" sampleFolder
                          quotedNameWorld in
  let r2 := processUpload "/home/u/docs/it's.txt" "it's.txt" sampleFolder
                          (final r1) in
  In (EvOpen "/home/u/docs/it's.txt")
     (emitted (uploadActualFilesInWatchDir sampleFolder quotedNameWorld)) /\
  fsFile quotedNameWorld "/home/u/docs/it's.txt" = inl "hello" /\
  (forall k, driveFault quotedNameWorld k = None) /\
  filesUnder (Id sampleFolder) "it's.txt" (remote quotedNameWorld) = [] /\
  outcome r1
  = Fatal ("Error checking if file " ++ dquote ++ "it's.txt" ++ dquote
           ++ " already exists") /\
  outcome r2 = outcome r1 /\
  count isCreate (emitted r1) = 0%nat /\
  count isUpdate (emitted r2) = 0%nat /\
  filesUnder (Id sampleFolder) "it's.txt" (remote (final r2)) = [] /\
  ~ (List.length (filesUnder (Id sampleFolder) "it's.txt" (remote (final r2)))
     = 1%nat /\
     count isUpdate (emitted r2) = 1%nat).
Proof.
  cbv zeta.
  split; [vm_compute; right; right; left; reflexivity|].
  split; [reflexivity|]. split; [intro; reflexivity|].
  split; [reflexivity|]. split; [vm_compute; reflexivity|].
  split; [vm_compute; reflexivity|]. split; [vm_compute; reflexivity|].
  split; [vm_compute; reflexivity|]. split; [vm_compute; reflexivity|].
  intros [H _]. vm_compute in H. discriminate.
Qed.

Lemma findHolderFolder_last_match_witness :
  (drive.listing drive.foldersQuery folderFields twoFoldersWorld
   = inl ([meta (remoteFolder "F1" "EncryptBckDoc");
           meta (remoteFolder "F2" "Photos")]
          ++ meta (remoteFolder "F3" "EncryptBckDoc")
          :: [meta (remoteFolder "F4" "Music")])%list /\
   Name (meta (remoteFolder "F3" "EncryptBckDoc")) = "EncryptBckDoc" /\
   Forall (fun f => Name f <> "EncryptBckDoc")
          [meta (remoteFolder "F4" "Music")]) /\
  outcome (findHolderFolder "EncryptBckDoc" twoFoldersWorld)
  = Returned (Some (meta (remoteFolder "F3" "EncryptBckDoc")), None).
Proof.
  assert (Hlist : drive.listing drive.foldersQuery folderFields twoFoldersWorld
                  = inl ([meta (remoteFolder "F1" "EncryptBckDoc");
                          meta (remoteFolder "F2" "Photos")]
                         ++ meta (remoteFolder "F3" "EncryptBckDoc")
                         :: [meta (remoteFolder "F4" "Music")])%list)
    by reflexivity.
  assert (Hl : Name (meta (remoteFolder "F3" "EncryptBckDoc")) = "EncryptBckDoc")
    by reflexivity.
  assert (Ha : Forall (fun f => Name f <> "EncryptBckDoc")
                      [meta (remoteFolder "F4" "Music")]).
  { constructor; [discriminate | constructor]. }
  split; [repeat split; assumption|].
  apply (findHolderFolder_last_match "EncryptBckDoc" twoFoldersWorld _ _ _
           Hlist Hl Ha).
Defined.

Lemma folder_auto_creation_witness :
  (drive.listing drive.foldersQuery folderFields emptyStoreWorld = inl [] /\
   Forall (fun f => Name f <> FolderName (configApp emptyStoreWorld)) []) /\
  count isCreate (emitted (executeApp_folder emptyStoreWorld)) = 1%nat.
Proof.
  assert (Hlist : drive.listing drive.foldersQuery folderFields emptyStoreWorld
                  = inl []) by reflexivity.
  assert (Hf : Forall (fun f => Name f <> FolderName (configApp emptyStoreWorld))
                      []) by constructor.
  split; [split; assumption|].
  apply (folder_auto_creation emptyStoreWorld [] sampleDeliveries Hlist Hf).
Defined.

Lemma duplicate_watch_path_rejected_witness :
  In (pathToAdd sampleWorld) (FolderToWatch (configApp sampleWorld)) /\
  outcome (addFolderToWatch sampleWorld) = Returned tt /\
  configApp (final (addFolderToWatch sampleWorld)) = configApp sampleWorld /\
  fsFile (final (addFolderToWatch sampleWorld)) = fsFile sampleWorld /\
  count isWriteFile (emitted (addFolderToWatch sampleWorld)) = 0%nat /\
  In (EvLog "ERROR!! - The folder ir already in config!")
     (emitted (addFolderToWatch sampleWorld)).
Proof.
  assert (Hin : In (pathToAdd sampleWorld)
                   (FolderToWatch (configApp sampleWorld))).
  { left. reflexivity. }
  split; [exact Hin|].
  apply (duplicate_watch_path_rejected sampleWorld Hin).
Defined.

Lemma update_submits_remote_base_name_witness :
  (fsFile syncedWorld "/home/u/docs/a.txt" = inl "hello" /\
   drive.listing (uploadQuery (Id sampleFolder) "a.txt") uploadFields
                 syncedWorld = inl [uploadedFile]) /\
  In (EvUpdate "a1" (mkDriveFile EmptyString "a.txt" EmptyString [])
               (Some "hello"))
     (emitted (processUpload "/home/u/docs/a.txt" "a.txt" sampleFolder
                             syncedWorld)).
Proof.
  assert (Hopen : fsFile syncedWorld "/home/u/docs/a.txt" = inl "hello")
    by reflexivity.
  assert (Hlist : drive.listing (uploadQuery (Id sampleFolder) "a.txt")
                                uploadFields syncedWorld = inl [uploadedFile])
    by reflexivity.
  split; [split; assumption|].
  apply (update_submits_remote_base_name syncedWorld "/home/u/docs/a.txt"
           "a.txt" sampleFolder "hello" uploadedFile [] Hopen Hlist).
Defined.

(** ** UTF-8: reading what was written *)

Lemma byteOf_range (c : ascii) : 0 <= utf8.byteOf c < 256.
Proof.
  unfold utf8.byteOf. pose proof (N_ascii_bounded c). lia.
Qed.

Lemma charOf_byteOf (c : ascii) : utf8.charOf (utf8.byteOf c) = c.
Proof.
  unfold utf8.charOf, utf8.byteOf. rewrite N2Z.id. apply ascii_N_embedding.
Qed.

Lemma byteOf_charOf (b : Z) : 0 <= b < 256 -> utf8.byteOf (utf8.charOf b) = b.
Proof.
  intros H. unfold utf8.charOf, utf8.byteOf.
  rewrite N_ascii_embedding by lia. lia.
Qed.

Ltac decide_tests :=
  repeat match goal with
         | |- context [?a <? ?b] => destruct (Z.ltb_spec a b); try lia
         | |- context [?a <=? ?b] => destruct (Z.leb_spec a b); try lia
         end;
  cbn [orb andb].

Ltac encode_rune :=
  unfold utf8.EncodeRune;
  match goal with
  | |- context [if ?g then utf8.RuneError else ?r] =>
      replace g with false by (symmetry; decide_tests; reflexivity)
  end;
  decide_tests; reflexivity.

Lemma EncodeRune_1 (r : Z) :
  0 <= r <= 127 -> utf8.EncodeRune r = String (utf8.charOf r) EmptyString.
Proof. intros H. encode_rune. Qed.

Lemma EncodeRune_2 (r : Z) :
  128 <= r <= 2047 ->
  utf8.EncodeRune r
  = String (utf8.charOf (192 + r / 64))
      (String (utf8.charOf (128 + r mod 64)) EmptyString).
Proof. intros H. encode_rune. Qed.

Lemma EncodeRune_3 (r : Z) :
  2048 <= r <= 65535 -> r < 55296 \/ 57343 < r ->
  utf8.EncodeRune r
  = String (utf8.charOf (224 + r / 4096))
      (String (utf8.charOf (128 + (r / 64) mod 64))
         (String (utf8.charOf (128 + r mod 64)) EmptyString)).
Proof. intros H H'. encode_rune. Qed.

Lemma EncodeRune_4 (r : Z) :
  65536 <= r <= 1114111 ->
  utf8.EncodeRune r
  = String (utf8.charOf (240 + r / 262144))
      (String (utf8.charOf (128 + (r / 4096) mod 64))
         (String (utf8.charOf (128 + (r / 64) mod 64))
            (String (utf8.charOf (128 + r mod 64)) EmptyString))).
Proof. intros H. encode_rune. Qed.

Lemma dropBytes_app (front rest : string) :
  json.dropBytes (String.length front) (front ++ rest) = rest.
Proof.
  unfold json.dropBytes.
  replace (String.length front) with (String.length front + 0)%nat at 1 by lia.
  rewrite substring_skip.
  replace (String.length (front ++ rest) - String.length front)%nat
    with (String.length rest).
  - apply substring_all.
  - clear. induction front; simpl; lia.
Qed.

Ltac bounds :=
  repeat match goal with
         | H : (_ && _) = true |- _ => apply andb_true_iff in H; destruct H
         | H : (_ <=? _) = true |- _ => apply Z.leb_le in H
         | H : (_ <? _) = true |- _ => apply Z.ltb_lt in H
         | H : (_ <=? _) = false |- _ => apply Z.leb_gt in H
         | H : (_ <? _) = false |- _ => apply Z.ltb_ge in H
         | H : (_ =? _) = true |- _ => apply Z.eqb_eq in H
         | H : (_ =? _) = false |- _ => apply Z.eqb_neq in H
         end.

Ltac divmod := Z.to_euclidean_division_equations; lia.

(** A well-formed encoding at the head of [s] is what [EncodeRune] writes
    for the rune, and reads the same whatever follows it. *)
Lemma decode_valid_rune (s : string) (r : Z) (size : nat) :
  s <> EmptyString ->
  utf8.DecodeRuneInString s = (r, size) ->
  ((r =? utf8.RuneError) && (size =? 1)%nat) = false ->
  s = (utf8.EncodeRune r ++ json.dropBytes size s)%string /\
  String.length (utf8.EncodeRune r) = size /\
  (forall tail,
      utf8.DecodeRuneInString (utf8.EncodeRune r ++ tail) = (r, size)).
Proof.
  intros Hne H Hvalid.
  destruct s as [|c0 s1]; [contradiction|]. clear Hne.
  pose proof (byteOf_range c0) as R0.
  unfold utf8.DecodeRuneInString in H.
  destruct (utf8.byteOf c0 <? 128) eqn:E1.
  { inversion H; subst; clear H.
    assert (Hdec : forall tail,
               utf8.DecodeRuneInString (String c0 EmptyString ++ tail)
               = (utf8.byteOf c0, 1%nat)).
    { intros tail. cbn [append utf8.DecodeRuneInString]. rewrite E1.
      reflexivity. }
    bounds.
    assert (Henc : utf8.EncodeRune (utf8.byteOf c0) = String c0 EmptyString).
    { rewrite EncodeRune_1 by lia. rewrite charOf_byteOf. reflexivity. }
    rewrite Henc. split; [|split; [reflexivity | exact Hdec]].
    pose proof (dropBytes_app (String c0 EmptyString) s1) as D.
    cbn [append String.length] in D. rewrite D. reflexivity. }
  destruct ((194 <=? utf8.byteOf c0) && (utf8.byteOf c0 <=? 223)) eqn:E2.
  { destruct s1 as [|c1 s2];
      [inversion H; subst; discriminate|].
    pose proof (byteOf_range c1) as R1.
    destruct (utf8.isCont (utf8.byteOf c1)) eqn:C1;
      [|inversion H; subst; discriminate].
    inversion H; subst; clear H.
    assert (Hdec : forall tail,
               utf8.DecodeRuneInString
                 (String c0 (String c1 EmptyString) ++ tail)
               = ((utf8.byteOf c0 - 192) * 64 + (utf8.byteOf c1 - 128), 2%nat)).
    { intros tail. cbn [append utf8.DecodeRuneInString]. rewrite E1, E2, C1.
      reflexivity. }
    unfold utf8.isCont in C1. bounds.
    assert (Henc : utf8.EncodeRune
                     ((utf8.byteOf c0 - 192) * 64 + (utf8.byteOf c1 - 128))
                   = String c0 (String c1 EmptyString)).
    { rewrite EncodeRune_2 by lia.
      replace (192 + ((utf8.byteOf c0 - 192) * 64 + (utf8.byteOf c1 - 128)) / 64)
        with (utf8.byteOf c0) by divmod.
      replace (128 + ((utf8.byteOf c0 - 192) * 64 + (utf8.byteOf c1 - 128)) mod 64)
        with (utf8.byteOf c1) by divmod.
      rewrite !charOf_byteOf. reflexivity. }
    rewrite Henc. split; [|split; [reflexivity | exact Hdec]].
    pose proof (dropBytes_app (String c0 (String c1 EmptyString)) s2) as D.
    cbn [append String.length] in D. rewrite D. reflexivity. }
  destruct ((224 <=? utf8.byteOf c0) && (utf8.byteOf c0 <=? 239)) eqn:E3.
  { destruct s1 as [|c1 [|c2 s3]];
      try (inversion H; subst; discriminate).
    pose proof (byteOf_range c1) as R1. pose proof (byteOf_range c2) as R2.
    cbv zeta in H.
    destruct (((if utf8.byteOf c0 =? 224 then 160 else 128) <=? utf8.byteOf c1)
              && (utf8.byteOf c1 <=? (if utf8.byteOf c0 =? 237 then 159 else 191))
              && utf8.isCont (utf8.byteOf c2)) eqn:C;
      [|inversion H; subst; discriminate].
    inversion H; subst; clear H.
    assert (Hdec : forall tail,
               utf8.DecodeRuneInString
                 (String c0 (String c1 (String c2 EmptyString)) ++ tail)
               = ((utf8.byteOf c0 - 224) * 4096 + (utf8.byteOf c1 - 128) * 64
                  + (utf8.byteOf c2 - 128), 3%nat)).
    { intros tail. cbn [append utf8.DecodeRuneInString]. rewrite E1, E2, E3.
      cbv zeta. rewrite C. reflexivity. }
    unfold utf8.isCont in C.
    destruct (utf8.byteOf c0 =? 224) eqn:A; destruct (utf8.byteOf c0 =? 237) eqn:B;
      bounds;
      (assert (Henc : utf8.EncodeRune
                       ((utf8.byteOf c0 - 224) * 4096
                        + (utf8.byteOf c1 - 128) * 64 + (utf8.byteOf c2 - 128))
                     = String c0 (String c1 (String c2 EmptyString)));
       [ rewrite EncodeRune_3 by lia;
         replace (224 + ((utf8.byteOf c0 - 224) * 4096
                         + (utf8.byteOf c1 - 128) * 64
                         + (utf8.byteOf c2 - 128)) / 4096)
           with (utf8.byteOf c0) by divmod;
         replace (128 + (((utf8.byteOf c0 - 224) * 4096
                          + (utf8.byteOf c1 - 128) * 64
                          + (utf8.byteOf c2 - 128)) / 64) mod 64)
           with (utf8.byteOf c1) by divmod;
         replace (128 + ((utf8.byteOf c0 - 224) * 4096
                         + (utf8.byteOf c1 - 128) * 64
                         + (utf8.byteOf c2 - 128)) mod 64)
           with (utf8.byteOf c2) by divmod;
         rewrite !charOf_byteOf; reflexivity
       | rewrite Henc; split; [|split; [reflexivity | exact Hdec]];
         pose proof (dropBytes_app
                       (String c0 (String c1 (String c2 EmptyString))) s3) as D;
         cbn [append String.length] in D; rewrite D; reflexivity ]). }
  destruct ((240 <=? utf8.byteOf c0) && (utf8.byteOf c0 <=? 244)) eqn:E4;
    [|inversion H; subst; discriminate].
  destruct s1 as [|c1 [|c2 [|c3 s4]]];
    try (inversion H; subst; discriminate).
  pose proof (byteOf_range c1) as R1. pose proof (byteOf_range c2) as R2.
  pose proof (byteOf_range c3) as R3.
  cbv zeta in H.
  destruct (((if utf8.byteOf c0 =? 240 then 144 else 128) <=? utf8.byteOf c1)
            && (utf8.byteOf c1 <=? (if utf8.byteOf c0 =? 244 then 143 else 191))
            && utf8.isCont (utf8.byteOf c2) && utf8.isCont (utf8.byteOf c3)) eqn:C;
    [|inversion H; subst; discriminate].
  inversion H; subst; clear H.
  assert (Hdec : forall tail,
             utf8.DecodeRuneInString
               (String c0 (String c1 (String c2 (String c3 EmptyString))) ++ tail)
             = ((utf8.byteOf c0 - 240) * 262144 + (utf8.byteOf c1 - 128) * 4096
                + (utf8.byteOf c2 - 128) * 64 + (utf8.byteOf c3 - 128), 4%nat)).
  { intros tail. cbn [append utf8.DecodeRuneInString]. rewrite E1, E2, E3, E4.
    cbv zeta. rewrite C. reflexivity. }
  unfold utf8.isCont in C.
  destruct (utf8.byteOf c0 =? 240) eqn:A; destruct (utf8.byteOf c0 =? 244) eqn:B;
    bounds;
    (assert (Henc : utf8.EncodeRune
                     ((utf8.byteOf c0 - 240) * 262144
                      + (utf8.byteOf c1 - 128) * 4096
                      + (utf8.byteOf c2 - 128) * 64 + (utf8.byteOf c3 - 128))
                   = String c0 (String c1 (String c2 (String c3 EmptyString))));
     [ rewrite EncodeRune_4 by lia;
       replace (240 + ((utf8.byteOf c0 - 240) * 262144
                       + (utf8.byteOf c1 - 128) * 4096
                       + (utf8.byteOf c2 - 128) * 64
                       + (utf8.byteOf c3 - 128)) / 262144)
         with (utf8.byteOf c0) by divmod;
       replace (128 + (((utf8.byteOf c0 - 240) * 262144
                        + (utf8.byteOf c1 - 128) * 4096
                        + (utf8.byteOf c2 - 128) * 64
                        + (utf8.byteOf c3 - 128)) / 4096) mod 64)
         with (utf8.byteOf c1) by divmod;
       replace (128 + (((utf8.byteOf c0 - 240) * 262144
                        + (utf8.byteOf c1 - 128) * 4096
                        + (utf8.byteOf c2 - 128) * 64
                        + (utf8.byteOf c3 - 128)) / 64) mod 64)
         with (utf8.byteOf c2) by divmod;
       replace (128 + ((utf8.byteOf c0 - 240) * 262144
                       + (utf8.byteOf c1 - 128) * 4096
                       + (utf8.byteOf c2 - 128) * 64
                       + (utf8.byteOf c3 - 128)) mod 64)
         with (utf8.byteOf c3) by divmod;
       rewrite !charOf_byteOf; reflexivity
     | rewrite Henc; split; [|split; [reflexivity | exact Hdec]];
       pose proof (dropBytes_app
                     (String c0 (String c1 (String c2 (String c3 EmptyString))))
                     s4) as D;
       cbn [append String.length] in D; rewrite D; reflexivity ]).
Qed.

(** ** JSON strings *)

Lemma append_assoc (a b c : string) : ((a ++ b) ++ c = a ++ (b ++ c))%string.
Proof. induction a as [|x a IH]; simpl; congruence. Qed.

Lemma unquote_ascii_step (c : ascii) (fuel : nat) (rest : string) :
  utf8.byteOf c < 128 ->
  json.unquote_loop (S fuel) (asciiChunk c ++ rest)
  = match json.unquote_loop fuel rest with
    | Some (t, after) => Some (String c t, after)
    | None => None
    end.
Proof.
  destruct c as [[] [] [] [] [] [] [] []]; intros H;
    try (exfalso; revert H; clear; intros H; vm_compute in H; discriminate);
    reflexivity.
Qed.

Lemma unquote_rune_step (r : Z) (size fuel : nat) (c : ascii) (enc rest : string) :
  utf8.EncodeRune r = String c enc ->
  128 <= utf8.byteOf c ->
  (forall tail, utf8.DecodeRuneInString (utf8.EncodeRune r ++ tail) = (r, size)) ->
  String.length (utf8.EncodeRune r) = size ->
  json.unquote_loop (S fuel) (utf8.EncodeRune r ++ rest)
  = match json.unquote_loop fuel rest with
    | Some (t, after) => Some (utf8.EncodeRune r ++ t, after)
    | None => None
    end.
Proof.
  intros Henc Hb Hdec Hlen.
  pose proof (Hdec rest) as D. pose proof (dropBytes_app (utf8.EncodeRune r) rest) as Hdrop.
  rewrite Hlen in Hdrop. rewrite Henc in *.
  cbn [append] in *. cbn [json.unquote_loop].
  replace (utf8.byteOf c =? 34) with false by (symmetry; apply Z.eqb_neq; lia).
  replace (utf8.byteOf c <? 32) with false by (symmetry; apply Z.ltb_ge; lia).
  replace (utf8.byteOf c =? 92) with false by (symmetry; apply Z.eqb_neq; lia).
  replace (utf8.byteOf c <? 128) with false by (symmetry; apply Z.ltb_ge; lia).
  rewrite D, Hdrop.
  destruct (json.unquote_loop fuel rest) as [[t after]|];
    [rewrite Henc|]; reflexivity.
Qed.

Lemma unquote_separator_step (r : Z) (fuel : nat) (rest : string) :
  r = 8232 \/ r = 8233 ->
  json.unquote_loop (S fuel)
    ((json.backslash ++ "u202" ++ json.hex (r mod 16)) ++ rest)
  = match json.unquote_loop fuel rest with
    | Some (t, after) => Some (utf8.EncodeRune r ++ t, after)
    | None => None
    end.
Proof. intros [->| ->]; reflexivity. Qed.

Lemma length_append (a b : string) :
  String.length (a ++ b) = (String.length a + String.length b)%nat.
Proof. induction a as [|x a IH]; simpl; [reflexivity | rewrite IH; reflexivity]. Qed.

Lemma EncodeRune_nonempty (r : Z) :
  exists c enc, utf8.EncodeRune r = String c enc.
Proof.
  unfold utf8.EncodeRune. cbv zeta.
  repeat match goal with
         | |- context [if ?b then _ else _] => destruct b
         end; eauto.
Qed.

(** Reading back the body of a string that [Marshal] wrote. *)
Lemma unquote_appendString (fuel' : nat) :
  forall s,
    (String.length s <= fuel')%nat ->
    utf8.validFrom fuel' s = true ->
    forall fuel after,
      (String.length (json.appendString_loop fuel' s) < fuel)%nat ->
      json.unquote_loop fuel (json.appendString_loop fuel' s ++ dquote ++ after)
      = Some (s, after).
Proof.
  induction fuel' as [|fuel' IH]; intros s Hlen Hvalid fuel after Hfuel.
  - destruct s; [|simpl in Hlen; lia].
    destruct fuel; [simpl in Hfuel; lia|]. reflexivity.
  - destruct s as [|c rest].
    { destruct fuel; [simpl in Hfuel; lia|]. reflexivity. }
    cbn [utf8.validFrom] in Hvalid. cbn [json.appendString_loop] in *.
    destruct (utf8.byteOf c <? 128) eqn:E.
    + assert (Hd : utf8.DecodeRuneInString (String c rest) = (utf8.byteOf c, 1%nat)).
      { cbn [utf8.DecodeRuneInString]. rewrite E. reflexivity. }
      rewrite Hd in Hvalid.
      replace (utf8.byteOf c =? utf8.RuneError) with false in Hvalid
        by (symmetry; apply Z.eqb_neq; apply Z.ltb_lt in E;
            unfold utf8.RuneError; lia).
      cbn [andb] in Hvalid.
      change (substring 1 (String.length (String c rest) - 1) (String c rest))
        with (json.dropBytes 1 (String c rest)) in Hvalid.
      pose proof (dropBytes_app (String c EmptyString) rest) as D.
      cbn [append String.length] in D. rewrite D in Hvalid.
      fold (asciiChunk c) in *.
      rewrite append_assoc.
      destruct fuel as [|fuel]; [lia|].
      apply Z.ltb_lt in E. rewrite (unquote_ascii_step c fuel _ E).
      rewrite (IH rest); [reflexivity | simpl in Hlen; lia | exact Hvalid |].
      assert (1 <= String.length (asciiChunk c))%nat.
      { clear. destruct c as [[] [] [] [] [] [] [] []]; vm_compute; lia. }
      rewrite length_append in Hfuel. lia.
    + destruct (utf8.DecodeRuneInString (String c rest)) as [r size] eqn:Hd.
      destruct ((r =? utf8.RuneError) && (size =? 1)%nat) eqn:Hv;
        [discriminate Hvalid|].
      destruct (decode_valid_rune (String c rest) r size ltac:(discriminate) Hd Hv)
        as (Hs & Hl & Hdec).
      change (substring size (String.length (String c rest) - size)
                        (String c rest))
        with (json.dropBytes size (String c rest)) in Hvalid.
      set (tail := json.dropBytes size (String c rest)) in *.
      destruct (EncodeRune_nonempty r) as (c' & enc & Henc).
      assert (c' = c) by (rewrite Henc in Hs; cbn [append] in Hs; congruence).
      subst c'. apply Z.ltb_ge in E.
      assert (Htail : (String.length tail <= fuel')%nat).
      { apply (f_equal String.length) in Hs.
        rewrite length_append, Henc in Hs. simpl in Hs, Hlen. lia. }
      destruct fuel as [|fuel]; [lia|].
      destruct ((r =? 8232) || (r =? 8233)) eqn:Hsep.
      * rewrite append_assoc, unquote_separator_step
          by (apply orb_true_iff in Hsep; destruct Hsep as [H|H];
              apply Z.eqb_eq in H; auto).
        rewrite (IH tail Htail Hvalid).
        -- rewrite <- Hs. reflexivity.
        -- rewrite length_append in Hfuel.
           assert (1 <= String.length
                          (json.backslash ++ "u202" ++ json.hex (r mod 16)))%nat
             by (rewrite !length_append; simpl; lia).
           lia.
      * assert (Hsub : substring 0 size (String c rest) = utf8.EncodeRune r).
        { rewrite Hs at 1. rewrite <- Hl. apply substring_front. }
        rewrite Hsub in *.
        rewrite append_assoc, (unquote_rune_step r size fuel c enc _ Henc E Hdec Hl).
        rewrite (IH tail Htail Hvalid).
        -- rewrite <- Hs. reflexivity.
        -- rewrite length_append, Henc in Hfuel. simpl in Hfuel. lia.
Qed.

Lemma readString_appendString (s after : string) :
  utf8.ValidString s = true ->
  json.readString (json.appendString s ++ after) = Some (s, after).
Proof.
  intros Hvalid. unfold json.appendString, dquote.
  cbn [append json.readString].
  change (utf8.byteOf "034" =? 34) with true. cbv iota.
  rewrite append_assoc.
  apply (unquote_appendString (String.length s) s (le_n _) Hvalid).
  rewrite length_append. simpl. lia.
Qed.

Lemma readElement_appendString (s after : string) :
  utf8.ValidString s = true ->
  json.readElement (json.skipSpace (json.appendString s ++ after))
  = Some (s, after).
Proof.
  intros Hvalid.
  change (json.skipSpace (json.appendString s ++ after))
    with (json.appendString s ++ after)%string.
  unfold json.readElement.
  change (prefix "null" (json.appendString s ++ after)) with false.
  cbv iota. apply readString_appendString, Hvalid.
Qed.

Lemma readElements_appendStrings (l : list string) :
  l <> [] ->
  Forall (fun p => utf8.ValidString p = true) l ->
  forall fuel after,
    (List.length l <= fuel)%nat ->
    json.readElements fuel (json.appendStrings l ++ "]" ++ after)
    = Some (l, after).
Proof.
  induction l as [|s l IH]; intros Hne Hvalid fuel after Hfuel;
    [contradiction|].
  inversion Hvalid as [|? ? Hs Hl]; subst.
  destruct fuel as [|fuel]; [simpl in Hfuel; lia|].
  cbn [json.readElements]. destruct l as [|s' l'].
  - cbn [json.appendStrings].
    rewrite (readElement_appendString s _ Hs). reflexivity.
  - change (json.appendStrings (s :: s' :: l'))
      with (json.appendString s ++ "," ++ json.appendStrings (s' :: l'))%string.
    rewrite !append_assoc.
    rewrite (readElement_appendString s _ Hs).
    change (json.skipSpace ("," ++ ?x))%string with (String "," x).
    cbv iota. change (utf8.byteOf "," =? 44) with true. cbv iota.
    rewrite (IH ltac:(discriminate) Hl fuel after); [reflexivity|].
    simpl in *. lia.
Qed.

Lemma length_appendStrings (l : list string) (rest : string) :
  (List.length l <= String.length (json.appendStrings l ++ rest))%nat.
Proof.
  induction l as [|s l IH]; [simpl; lia|].
  destruct l as [|s' l'].
  - cbn [json.appendStrings]. unfold json.appendString.
    rewrite !length_append. simpl. lia.
  - change (json.appendStrings (s :: s' :: l'))
      with (json.appendString s ++ "," ++ json.appendStrings (s' :: l'))%string.
    rewrite !append_assoc, length_append.
    change (String.length ("," ++ ?x)) with (S (String.length x)).
    simpl List.length in *. lia.
Qed.

Lemma readValue_appendString (s after : string) :
  utf8.ValidString s = true ->
  json.readValue (json.appendString s ++ after) = Some (json.VString s, after).
Proof.
  intros Hvalid. unfold json.readValue.
  pose proof (readString_appendString s after Hvalid) as H.
  change (json.appendString s ++ after)%string
    with (String "034" ((json.appendString_loop (String.length s) s ++ dquote)
                        ++ after)) in *.
  change (utf8.byteOf "034" =? 34) with true. cbv iota.
  rewrite H. reflexivity.
Qed.

Lemma readValue_appendSlice (l : list string) (after : string) :
  Forall (fun p => utf8.ValidString p = true) l ->
  json.readValue (json.appendSlice l ++ after)
  = Some (match l with [] => json.VNull | _ => json.VArray l end, after).
Proof.
  intros Hvalid. destruct l as [|s l].
  - unfold json.appendSlice, json.readValue.
    pose proof (prefix_app "null" after) as P.
    pose proof (dropBytes_app "null" after) as D.
    cbn [append String.length] in *.
    change (utf8.byteOf "n" =? 34) with false.
    change (utf8.byteOf "n" =? 91) with false. cbv iota.
    rewrite P, D. reflexivity.
  - unfold json.appendSlice.
    change (("[" ++ json.appendStrings (s :: l) ++ "]") ++ after)%string
      with (String "[" ((json.appendStrings (s :: l) ++ "]") ++ after)).
    rewrite append_assoc. cbn [json.readValue].
    change (utf8.byteOf "[" =? 34) with false.
    change (utf8.byteOf "[" =? 91) with true. cbv iota.
    assert (Hhead : exists x, (json.appendStrings (s :: l) ++ "]" ++ after)%string
                              = String "034" x).
    { destruct l; eexists; reflexivity. }
    destruct Hhead as [x Hx].
    rewrite Hx at 1. cbn [json.skipSpace].
    change (json.isSpace "034") with false. cbv iota.
    change (utf8.byteOf "034" =? 93) with false. cbv iota.
    rewrite (readElements_appendStrings (s :: l) ltac:(discriminate) Hvalid);
      [reflexivity|].
    apply length_appendStrings.
Qed.

Lemma readMembers_step (fuel : nat) (key V : string) (v : json.Value)
      (sep : ascii) (rest : string) (c c' : appConfig) :
  (forall Y, json.readString (String "034" (key ++ String "034" Y))
             = Some (key, Y)) ->
  (forall Y, json.skipSpace (V ++ Y) = (V ++ Y)%string) ->
  (forall Y, json.readValue (V ++ Y) = Some (v, Y)) ->
  json.setField key v c = Some c' ->
  json.isSpace sep = false ->
  fuel <> 0%nat ->
  json.readMembers fuel
    (String "034" (key ++ String "034" (String ":" (V ++ String sep rest)))) c
  = if utf8.byteOf sep =? 44 then json.readMembers (Nat.pred fuel) rest c'
    else if utf8.byteOf sep =? 125 then Some c' else None.
Proof.
  intros Hkey Hsp Hval Hset Hsep Hfuel.
  destruct fuel as [|fuel]; [contradiction|].
  cbn [json.readMembers json.skipSpace Nat.pred].
  change (json.isSpace "034") with false. cbv iota.
  rewrite Hkey. cbn [json.skipSpace].
  change (json.isSpace ":") with false. cbv iota.
  change (utf8.byteOf ":" =? 58) with true. cbv iota.
  rewrite Hsp, Hval, Hset. cbn [json.skipSpace]. rewrite Hsep.
  reflexivity.
Qed.

Lemma skipSpace_appendString (s Y : string) :
  json.skipSpace (json.appendString s ++ Y) = (json.appendString s ++ Y)%string.
Proof. reflexivity. Qed.

Lemma skipSpace_appendSlice (l : list string) (Y : string) :
  json.skipSpace (json.appendSlice l ++ Y) = (json.appendSlice l ++ Y)%string.
Proof. destruct l; reflexivity. Qed.

(** What [Marshal] writes, [Decode] reads back, when the strings are
    well-formed UTF-8. *)
Lemma Decode_Marshal (c : appConfig) (doc : string) :
  validConfig c ->
  json.Marshal c = inl doc ->
  json.Decode doc = (c, None).
Proof.
  destruct c as [fn lu ftw]. intros (Hfn & Hlu & Hftw) Hdoc.
  cbn [FolderName LastUpdate FolderToWatch] in *.
  unfold json.Marshal in Hdoc. cbn [FolderName LastUpdate FolderToWatch] in Hdoc.
  injection Hdoc as <-.
  change (json.Decode
            (String "{"
               (String "034"
                  ("folderName"
                   ++ String "034"
                        (String ":"
                           (json.appendString fn
                            ++ String ","
                                 (String "034"
                                    ("lastUpdate"
                                     ++ String "034"
                                          (String ":"
                                             (json.appendString lu
                                              ++ String ","
                                                   (String "034"
                                                      ("folderToWatch"
                                                       ++ String "034"
                                                            (String ":"
                                                               (json.appendSlice ftw
                                                                ++ String "}" EmptyString)))))))))))))
          = (mkAppConfig fn lu ftw, None)).
  unfold json.Decode. cbn [json.skipSpace].
  change (json.isSpace "{") with false. cbv iota.
  change (utf8.byteOf "{" =? 123) with true. cbv iota.
  change (json.isSpace "034") with false. cbv iota.
  change (utf8.byteOf "034" =? 125) with false. cbv iota.
  rewrite (readMembers_step _ "folderName" (json.appendString fn)
             (json.VString fn) "," _ zeroConfig
             (mkAppConfig fn EmptyString []));
    [ | intros; reflexivity | apply skipSpace_appendString
      | intros; apply readValue_appendString, Hfn | reflexivity | reflexivity
      | discriminate ].
  change (utf8.byteOf "," =? 44) with true. cbv iota.
  rewrite (readMembers_step _ "lastUpdate" (json.appendString lu)
             (json.VString lu) "," _ _ (mkAppConfig fn lu []));
    [ | intros; reflexivity | apply skipSpace_appendString
      | intros; apply readValue_appendString, Hlu | reflexivity | reflexivity
      | discriminate ].
  change (utf8.byteOf "," =? 44) with true. cbv iota.
  rewrite (readMembers_step _ "folderToWatch" (json.appendSlice ftw)
             (match ftw with [] => json.VNull | _ => json.VArray ftw end)
             "}" _ _ (mkAppConfig fn lu ftw));
    [ reflexivity | intros; reflexivity | apply skipSpace_appendSlice
    | intros; apply readValue_appendSlice, Hftw
    | destruct ftw; reflexivity | reflexivity | discriminate ].
Qed.

(** C8, for well-formed UTF-8. A configuration whose three fields hold
    well-formed UTF-8, saved by [saveConfigJSONFile] to a file that can be
    written and loaded again by [loadConfig], comes back with the same
    three fields and no error. *)
Theorem config_round_trip (w : World) :
  validConfig (configApp w) ->
  fsWritable w configFileName = true ->
  outcome (loadConfig (final (saveConfigJSONFile w)))
  = Returned (configApp w, None).
Proof.
  intros Hvalid Hwr.
  destruct (json.Marshal (configApp w)) as [doc|err] eqn:HM;
    [|unfold json.Marshal in HM; discriminate].
  pose proof (Decode_Marshal _ doc Hvalid HM) as HD.
  unfold saveConfigJSONFile, loadConfig. run. rewrite HM. run.
  rewrite Hwr. run. rewrite String.eqb_refl, HD. reflexivity.
Qed.

Lemma config_round_trip_witness :
  (validConfig (configApp sampleWorld) /\
   fsWritable sampleWorld configFileName = true) /\
  outcome (loadConfig (final (saveConfigJSONFile sampleWorld)))
  = Returned (configApp sampleWorld, None).
Proof.
  assert (Hvalid : validConfig (configApp sampleWorld)).
  { repeat split. constructor; [reflexivity | constructor]. }
  assert (Hwr : fsWritable sampleWorld configFileName = true) by reflexivity.
  split; [split; assumption|].
  apply (config_round_trip sampleWorld Hvalid Hwr).
Defined.

(** C8 does not hold for every byte string: a watched path with a byte that
    is not UTF-8 is written with the escape of U+FFFD in its place and
    comes back with the three bytes of that rune. *)
Lemma config_round_trip_invalid_utf8 :
  fsWritable latin1PathWorld configFileName = true /\
  outcome (loadConfig (final (saveConfigJSONFile latin1PathWorld)))
  = Returned (mkAppConfig "EncryptBckDoc" EmptyString
                          ["/home/u/caf" ++ utf8.EncodeRune utf8.RuneError],
              None) /\
  outcome (loadConfig (final (saveConfigJSONFile latin1PathWorld)))
  <> Returned (configApp latin1PathWorld, None).
Proof.
  split; [reflexivity|]. split; [reflexivity|].
  vm_compute. discriminate.
Qed.

(** ** Small cases *)

Example isNotAppFile_text_file : isNotAppFile "/home/u/docs/a.txt" = true.
Proof. reflexivity. Qed.

Example isNotAppFile_config_file :
  isNotAppFile "/home/u/docs/config.json" = false.
Proof. reflexivity. Qed.

Example isNotHiddenFile_dot_file :
  isNotHiddenFile "/home/u/docs/.profile" = true.
Proof. reflexivity. Qed.

Example Base_cases :
  filepath.Base "/a/b.txt" = "b.txt" /\ filepath.Base "a/b/" = "b" /\
  filepath.Base "///" = "/" /\ filepath.Base EmptyString = "." /\
  filepath.Base "abc" = "abc".
Proof. repeat split. Qed.

Example LastIndex_cases :
  strings.LastIndex "a/b/c" "/" = 3 /\ strings.LastIndex "abc" "/" = -1 /\
  strings.Index "a/.b/.c" "/." = 1.
Proof. repeat split. Qed.

Example sweep_of_sample_world :
  map (fun e => match e with EvOpen p => p | _ => EmptyString end)
      (filter (fun e => match e with EvOpen _ => true | _ => false end)
              (emitted (uploadActualFilesInWatchDir sampleFolder sampleWorld)))
  = ["/home/u/docs/a.txt"].
Proof. reflexivity. Qed.

Example Marshal_escapes_markup :
  json.appendString "a<b" = (dquote ++ "a" ++ json.backslash ++ "u003cb" ++ dquote)%string.
Proof. reflexivity. Qed.

(** * Further properties *)

(** ** The filters, exactly *)

Lemma prefix_split (sub s : string) :
  prefix sub s = true -> exists back, s = (sub ++ back)%string.
Proof.
  revert sub. induction s as [|b s IH]; intros [|a sub] H; cbn [prefix] in H.
  - exists EmptyString. reflexivity.
  - discriminate.
  - exists (String b s). reflexivity.
  - destruct (ascii_dec a b) as [->|]; [|discriminate].
    destruct (IH sub H) as [back ->]. exists back. reflexivity.
Qed.

Lemma contains_split (s sub : string) :
  contains s sub = true ->
  exists front back, s = (front ++ sub ++ back)%string.
Proof.
  induction s as [|c s IH]; cbn [contains]; intros H.
  - rewrite orb_false_r in H. destruct (prefix_split _ _ H) as [back ->].
    exists EmptyString, back. reflexivity.
  - apply orb_true_iff in H. destruct H as [H|H].
    + destruct (prefix_split _ _ H) as [back ->].
      exists EmptyString, back. reflexivity.
    + destruct (IH H) as (front & back & ->).
      exists (String c front), back. reflexivity.
Qed.

Lemma last_index_from_occurrence (s sub : string) (i : Z) :
  0 <= i -> contains s sub = true ->
  exists front back,
    s = (front ++ sub ++ back)%string /\
    strings.last_index_from i s sub = i + len front.
Proof.
  revert i. induction s as [|c s IH]; intros i Hi H.
  - cbn [contains] in H. rewrite orb_false_r in H.
    destruct (prefix_split _ _ H) as [back E].
    exists EmptyString, back. split; [exact E|].
    cbn [strings.last_index_from]. rewrite H. unfold len. simpl. lia.
  - cbn [strings.last_index_from].
    destruct (contains s sub) eqn:Hc.
    + destruct (IH (i + 1) ltac:(lia) eq_refl) as (front & back & -> & HL).
      exists (String c front), back. split; [reflexivity|].
      rewrite HL, len_String. pose proof (len_nonneg front).
      destruct (0 <=? i + 1 + len front) eqn:E; lia.
    + rewrite (last_index_from_absent s sub (i + 1) Hc).
      change (0 <=? -1) with false. cbv iota.
      cbn [contains] in H. rewrite Hc, orb_false_r in H. rewrite H.
      destruct (prefix_split _ _ H) as [back E].
      exists EmptyString, back. split; [exact E|]. unfold len. simpl. lia.
Qed.

Lemma len_zero (s : string) : len s = 0 -> s = EmptyString.
Proof. destruct s; [reflexivity|]. rewrite len_String. pose proof (len_nonneg s). lia. Qed.

(** The test of [isNotAppFile] for one name. *)
Lemma length_test_iff (s n : string) :
  len s - len n = strings.LastIndex s n <->
  hasSuffix s n \/ len s = len n - 1.
Proof.
  split.
  - intros H. destruct (contains s n) eqn:Hc.
    + left. destruct (last_index_from_occurrence s n 0 ltac:(lia) Hc)
        as (front & back & E & HL).
      unfold strings.LastIndex in H. rewrite HL in H.
      assert (Hb : back = EmptyString).
      { apply len_zero. rewrite E, !len_app in H. lia. }
      subst back. rewrite append_empty in E. exists front. exact E.
    + right. rewrite (LastIndex_absent _ _ Hc) in H. lia.
  - intros [[front ->]|H].
    + symmetry. apply LastIndex_suffix.
    + rewrite LastIndex_absent; [lia|].
      destruct (contains s n) eqn:Hc; [|reflexivity].
      apply contains_length in Hc. unfold len in H. lia.
Qed.

Lemma isNotAppFile_loop_false (names : list string) (fileName : string) :
  isNotAppFile_loop names fileName = false <->
  exists name, In name names /\
               (hasSuffix fileName name \/ len fileName = len name - 1).
Proof.
  induction names as [|n names IH]; cbn [isNotAppFile_loop].
  - split; [discriminate | intros (? & [] & _)].
  - destruct (len fileName - len n =? strings.LastIndex fileName n) eqn:E.
    + split; [intros _|reflexivity]. exists n. split; [left; reflexivity|].
      apply length_test_iff, Z.eqb_eq, E.
    + rewrite IH. apply Z.eqb_neq in E. split.
      * intros (name & Hin & H). exists name. split; [right; exact Hin | exact H].
      * intros (name & [->|Hin] & H).
        -- apply length_test_iff in H. contradiction.
        -- exists name. split; assumption.
Qed.

Lemma index_from_absent (s sub : string) (i : Z) :
  contains s sub = false -> strings.index_from i s sub = -1.
Proof.
  revert i. induction s as [|c s IH]; intros i H;
    cbn [contains strings.index_from] in *.
  - rewrite orb_false_r in H. rewrite H. reflexivity.
  - apply orb_false_iff in H. destruct H as [Hp Hc]. rewrite Hp.
    apply IH, Hc.
Qed.

Lemma isNotHiddenFile_iff (path : string) :
  isNotHiddenFile path = true <-> isHiddenPath path.
Proof.
  split; [|apply hidden_is_hidden_file].
  unfold isNotHiddenFile, strings.Index. intros H.
  destruct (contains path "/.") eqn:Hc.
  - destruct (contains_split _ _ Hc) as (front & back & E).
    exists front, back. exact E.
  - rewrite (index_from_absent _ _ 0 Hc) in H. discriminate.
Qed.

(** X1. A path passes the two filters exactly when it ends with none of
    the program's file names, is not one byte shorter than any of them,
    and has no separator followed by a dot. *)
Theorem filters_exact (path : string) :
  passesFilters path = true <->
  (forall name, In name appFiles ->
                ~ hasSuffix path name /\ len path <> len name - 1) /\
  ~ isHiddenPath path.
Proof.
  unfold passesFilters, isNotAppFile.
  rewrite andb_true_iff, negb_true_iff.
  rewrite <- (not_true_iff_false (isNotHiddenFile path)), isNotHiddenFile_iff.
  rewrite <- (not_false_iff_true (isNotAppFile_loop appFiles path)).
  rewrite isNotAppFile_loop_false.
  split; intros [Happ Hhid]; (split; [|exact Hhid]).
  - intros name Hin. split; intros H; apply Happ; exists name; auto.
  - intros (name & Hin & [H|H]); destruct (Happ name Hin); contradiction.
Qed.

(** ** Worlds along a run *)

Section Keeps.

Variable R : World -> World -> Prop.
Hypothesis R_refl : forall w, R w w.
Hypothesis R_trans : forall w1 w2 w3, R w1 w2 -> R w2 w3 -> R w1 w3.

Lemma keeps_bind {A B : Type} (m : M A) (k : A -> M B) :
  keeps R m -> (forall a, keeps R (k a)) -> keeps R (bind m k).
Proof.
  intros Hm Hk w. unfold bind. specialize (Hm w).
  destruct (m w) as [[a|msg|msg] w1 ev1]; cbn [final] in *; try exact Hm.
  specialize (Hk a w1). destruct (k a w1) as [o w2 ev2]; cbn [final] in *.
  exact (R_trans _ _ _ Hm Hk).
Qed.

Lemma keeps_forRange {A : Type} (xs : list A) (body : A -> M unit) :
  (forall x, In x xs -> keeps R (body x)) -> keeps R (forRange xs body).
Proof.
  induction xs as [|x xs IH]; intros H; cbn [forRange].
  - intro w. apply R_refl.
  - apply keeps_bind.
    + apply H. left. reflexivity.
    + intros _. apply IH. intros y Hy. apply H. right. exact Hy.
Qed.

(** A loop that returns has run its body to the end for every element, in
    a world reached from the first. *)
Lemma forRange_visits {A : Type} (body : A -> M unit) :
  (forall x, keeps R (body x)) ->
  forall (xs : list A) (w : World) (x : A),
    outcome (forRange xs body w) = Returned tt ->
    In x xs ->
    exists w',
      R w w' /\ outcome (body x w') = Returned tt /\
      forall p, (count p (emitted (body x w'))
                 <= count p (emitted (forRange xs body w)))%nat.
Proof.
  intros Hkeeps. induction xs as [|x0 xs IH]; intros w x Hret Hin;
    [destruct Hin|].
  cbn [forRange] in *. unfold bind in *.
  pose proof (Hkeeps x0 w) as Hw.
  destruct (body x0 w) as [[[]|msg|msg] w1 ev1] eqn:E; cbn [final] in Hw;
    try discriminate.
  destruct (forRange xs body w1) as [o w2 ev2] eqn:E2.
  cbn [outcome emitted] in *. destruct Hin as [->|Hin].
  - exists w. rewrite E. cbn [outcome emitted]. split; [apply R_refl|].
    split; [reflexivity|]. intros p. rewrite count_app. lia.
  - destruct (IH w1 x) as (w' & HR & Hout & Hcount).
    + rewrite E2. exact Hret.
    + exact Hin.
    + exists w'. split; [exact (R_trans _ _ _ Hw HR)|].
      split; [exact Hout|]. intros p. specialize (Hcount p).
      rewrite E2 in Hcount. cbn [emitted] in Hcount.
      rewrite count_app. lia.
Qed.

(** An action of a loop is an action of its body for some element. *)
Lemma forRange_action {A : Type} (body : A -> M unit) (p : Event -> bool) :
  (forall x, keeps R (body x)) ->
  forall (xs : list A) (w : World),
    (1 <= count p (emitted (forRange xs body w)))%nat ->
    exists x w',
      In x xs /\ R w w' /\ (1 <= count p (emitted (body x w')))%nat.
Proof.
  intros Hkeeps. induction xs as [|x0 xs IH]; intros w H.
  - cbn in H. lia.
  - cbn [forRange] in H. unfold bind in H.
    pose proof (Hkeeps x0 w) as Hw.
    destruct (body x0 w) as [[[]|msg|msg] w1 ev1] eqn:E; cbn [final] in Hw.
    + destruct (forRange xs body w1) as [o w2 ev2] eqn:E2.
      cbn [emitted] in H. rewrite count_app in H.
      destruct (count p ev1) eqn:C1.
      * destruct (IH w1) as (x & w' & Hin & HR & Hc).
        { rewrite E2. cbn [emitted]. lia. }
        exists x, w'. split; [right; exact Hin|].
        split; [exact (R_trans _ _ _ Hw HR) | exact Hc].
      * exists x0, w. rewrite E. cbn [emitted]. rewrite C1.
        split; [left; reflexivity|]. split; [apply R_refl | lia].
    + exists x0, w. rewrite E. split; [left; reflexivity|].
      split; [apply R_refl | exact H].
    + exists x0, w. rewrite E. split; [left; reflexivity|].
      split; [apply R_refl | exact H].
Qed.

End Keeps.

Lemma sameSurroundings_refl (w : World) : sameSurroundings w w.
Proof. repeat split. Qed.

Lemma sameSurroundings_trans (w1 w2 w3 : World) :
  sameSurroundings w1 w2 -> sameSurroundings w2 w3 -> sameSurroundings w1 w3.
Proof.
  unfold sameSurroundings. intros H1 H2.
  repeat match goal with H : _ /\ _ |- _ => destruct H end.
  repeat split; congruence.
Qed.

(** A primitive and what it does to the world, one related by [R]. *)
Ltac keeps_prim :=
  let w := fresh "w" in
  intro w;
  cbv [ret emit get modify panic fmt_Print log_Print log_Fatal os_Open
       ioutil_ReadDir ioutil_WriteFile fmt_Scanln time_Now_String
       watcher_Add drive.Files_List drive.Files_Create drive.Files_Update];
  repeat match goal with
         | |- context [match ?x with _ => _ end] => destruct x
         end;
  cbn [final]; repeat split.

Ltac keeps_step refl trans :=
  match goal with
  | |- keeps _ (bind _ _) => apply (keeps_bind _ trans); [|intros]
  | |- keeps _ (forRange _ _) => apply (keeps_forRange _ refl trans); intros
  | |- keeps _ (match ?x with _ => _ end) => destruct x
  | |- keeps _ _ => solve [keeps_prim]
  end.

Ltac surroundings :=
  repeat keeps_step sameSurroundings_refl sameSurroundings_trans.

Lemma processUpload_surroundings (p n : string) (pf : DriveFile) :
  keeps sameSurroundings (processUpload p n pf).
Proof.
  unfold processUpload, findUploadFileInDrive, updateFileInDrive,
    uploadNewFileToDrive, updateLastUpdateAppConfig, saveConfigJSONFile,
    json.Marshal.
  surroundings.
Qed.

Lemma uploadActualFile_surroundings (pf : DriveFile) (dir : string)
      (file : FileInfo) :
  keeps sameSurroundings (uploadActualFile pf dir file).
Proof.
  unfold uploadActualFile. cbv zeta.
  destruct (negb (IsDir file)); [|keeps_prim].
  destruct (_ && _); [apply processUpload_surroundings | keeps_prim].
Qed.

(** ** The sweep, entry by entry *)

Lemma sweep_unfold (pf : DriveFile) (w : World) :
  uploadActualFilesInWatchDir pf w
  = forRange (FolderToWatch (configApp w)) (sweepFolder pf) w.
Proof.
  unfold uploadActualFilesInWatchDir, bind at 1, get.
  fold (sweepFolder pf).
  destruct (forRange (FolderToWatch (configApp w)) (sweepFolder pf) w).
  reflexivity.
Qed.

Lemma sweepFolder_surroundings (pf : DriveFile) (folder : string) :
  keeps sameSurroundings (sweepFolder pf folder).
Proof.
  unfold sweepFolder.
  repeat first [ apply uploadActualFile_surroundings
               | keeps_step sameSurroundings_refl sameSurroundings_trans ].
Qed.

Lemma sweepFolder_listed (pf : DriveFile) (folder : string) (w : World)
      (files : list FileInfo) :
  fsDir w folder = inl files ->
  outcome (sweepFolder pf folder w)
  = outcome (forRange files (uploadActualFile pf folder) w) /\
  emitted (sweepFolder pf folder w)
  = ([EvLog ("-uploadActualFilesInWatchDir:  " ++ folder); EvReadDir folder]
     ++ emitted (forRange files (uploadActualFile pf folder) w))%list.
Proof.
  intros Hdir. unfold sweepFolder. run. rewrite Hdir.
  destruct (forRange files (uploadActualFile pf folder) w) as [o w2 ev2].
  split; reflexivity.
Qed.

Lemma sweepFolder_unlisted (pf : DriveFile) (folder : string) (w : World)
      (err : error) :
  fsDir w folder = inr err ->
  sweepFolder pf folder w
  = mkRun (Returned tt) w
          [EvLog ("-uploadActualFilesInWatchDir:  " ++ folder);
           EvReadDir folder;
           EvLog ("Error uploadActualFilesInWatchDir:  " ++ err)].
Proof. intros Hdir. unfold sweepFolder. run. rewrite Hdir. reflexivity. Qed.

Lemma count_cons_other (p : Event -> bool) (e : Event) (l : list Event) :
  p e = false -> count p (e :: l) = count p l.
Proof. intros H. unfold count. cbn [filter]. rewrite H. reflexivity. Qed.

(** X2. When the sweep returns, it has reconciled every entry that is not a
    directory and whose path passes the filters, in every watched folder
    that could be listed. *)
Theorem sweep_reconciles_every_eligible_entry (parentFolder : DriveFile)
        (w : World) (folder : string) (files : list FileInfo)
        (file : FileInfo) :
  outcome (uploadActualFilesInWatchDir parentFolder w) = Returned tt ->
  In folder (FolderToWatch (configApp w)) ->
  fsDir w folder = inl files ->
  In file files ->
  IsDir file = false ->
  passesFilters (totalName folder file) = true ->
  (1 <= count (opens (totalName folder file))
              (emitted (uploadActualFilesInWatchDir parentFolder w)))%nat.
Proof.
  intros Hret Hfolder Hdir Hfile Hreg Hpass. rewrite sweep_unfold in *.
  destruct (forRange_visits sameSurroundings sameSurroundings_refl
              sameSurroundings_trans (sweepFolder parentFolder)
              (sweepFolder_surroundings parentFolder) _ w folder Hret Hfolder)
    as (w1 & HR1 & Hout1 & Hcount1).
  assert (Hdir1 : fsDir w1 folder = inl files).
  { destruct HR1 as (_ & _ & E & _). rewrite E. exact Hdir. }
  destruct (sweepFolder_listed parentFolder folder w1 files Hdir1) as [Eo Ee].
  rewrite Eo in Hout1.
  destruct (forRange_visits sameSurroundings sameSurroundings_refl
              sameSurroundings_trans (uploadActualFile parentFolder folder)
              (uploadActualFile_surroundings parentFolder folder)
              _ w1 file Hout1 Hfile)
    as (w2 & HR2 & Hout2 & Hcount2).
  specialize (Hcount1 (opens (totalName folder file))).
  specialize (Hcount2 (opens (totalName folder file))).
  rewrite Ee in Hcount1. cbn [app] in Hcount1.
  rewrite !count_cons_other in Hcount1 by reflexivity.
  assert (Hopen : (1 <= count (opens (totalName folder file))
                           (emitted (uploadActualFile parentFolder folder file w2)))%nat).
  { unfold uploadActualFile. cbv zeta. rewrite Hreg. cbn [negb].
    unfold passesFilters, totalName in Hpass. rewrite Hpass.
    apply processUpload_opens. }
  lia.
Qed.

(** X3. The sweep reconciles nothing else: a path it opens is made of a
    watched folder and an entry of its listing that is not a directory,
    and passes the filters.  Sub-directories are not entered. *)
Theorem sweep_reconciles_only_eligible_entries (parentFolder : DriveFile)
        (w : World) (path : string) :
  (1 <= count (opens path)
              (emitted (uploadActualFilesInWatchDir parentFolder w)))%nat ->
  exists folder files file,
    In folder (FolderToWatch (configApp w)) /\
    fsDir w folder = inl files /\
    In file files /\
    IsDir file = false /\
    path = totalName folder file /\
    passesFilters path = true.
Proof.
  intros H. rewrite sweep_unfold in H.
  destruct (forRange_action sameSurroundings sameSurroundings_refl
              sameSurroundings_trans (sweepFolder parentFolder) (opens path)
              (sweepFolder_surroundings parentFolder) _ w H)
    as (folder & w1 & Hfolder & HR1 & H1).
  destruct (fsDir w1 folder) as [files|err] eqn:Hdir1.
  - destruct (sweepFolder_listed parentFolder folder w1 files Hdir1) as [_ Ee].
    rewrite Ee in H1. cbn [app] in H1.
    rewrite !count_cons_other in H1 by reflexivity.
    destruct (forRange_action sameSurroundings sameSurroundings_refl
                sameSurroundings_trans (uploadActualFile parentFolder folder)
                (opens path)
                (uploadActualFile_surroundings parentFolder folder) _ w1 H1)
      as (file & w2 & Hfile & HR2 & H2).
    exists folder, files, file.
    assert (Hdir : fsDir w folder = inl files).
    { destruct HR1 as (_ & _ & E & _). rewrite <- E. exact Hdir1. }
    unfold uploadActualFile in H2. cbv zeta in H2.
    destruct (IsDir file); cbn [negb] in H2; [cbn in H2; lia|].
    fold (totalName folder file) in H2.
    destruct (isNotAppFile (totalName folder file)
              && negb (isNotHiddenFile (totalName folder file))) eqn:Hpass;
      [|cbn in H2; lia].
    destruct (string_dec (totalName folder file) path) as [E|E].
    + subst path. repeat split; assumption.
    + pose proof (processUpload_opens_other path _ (fiName file) parentFolder
                    E w2) as Hq.
      lia.
  - rewrite (sweepFolder_unlisted parentFolder folder w1 err Hdir1) in H1.
    cbn in H1. lia.
Qed.

(** ** One reconciliation, in every world *)

(** All the ways a reconciliation can go. *)
Ltac upload_cases :=
  run_upload;
  repeat (match goal with
          | |- context [match ?x with _ => _ end] =>
              lazymatch x with
              | context [match _ with _ => _ end] => fail
              | _ => destruct x eqn:?
              end
          end; run).

(** X4. A reconciliation sends at most one search and at most one create
    or update call, whatever the world; when it returns it has sent
    exactly one search, exactly one create or update, and has written the
    configuration file once. *)
Theorem reconcile_one_call (w : World) (uploadFilePath uploadFileName : string)
        (parentFolder : DriveFile) :
  let r := processUpload uploadFilePath uploadFileName parentFolder w in
  (count isList (emitted r) <= 1)%nat /\
  (count isCreate (emitted r) + count isUpdate (emitted r) <= 1)%nat /\
  (outcome r = Returned tt ->
   count isList (emitted r) = 1%nat /\
   (count isCreate (emitted r) + count isUpdate (emitted r) = 1)%nat /\
   count isWriteFile (emitted r) = 1%nat).
Proof.
  cbv zeta. upload_cases; cbn [outcome emitted]; unfold count; cbn;
    repeat split; try lia; try discriminate.
Qed.

(** X5. A reconciliation that does not return leaves the configuration,
    the local files and the remote store as they were: the sync time is
    recorded only after the remote call has succeeded. *)
Theorem reconcile_fails_clean (w : World) (uploadFilePath uploadFileName : string)
        (parentFolder : DriveFile) :
  let r := processUpload uploadFilePath uploadFileName parentFolder w in
  outcome r <> Returned tt ->
  configApp (final r) = configApp w /\
  remote (final r) = remote w /\
  fsFile (final r) = fsFile w /\
  ticks (final r) = ticks w /\
  count isWriteFile (emitted r) = 0%nat.
Proof.
  cbv zeta. upload_cases; cbn [outcome final emitted]; intros H;
    try (exfalso; apply H; reflexivity); run; repeat split.
Qed.

(** Loading a configuration file that holds what [Marshal] writes. *)
Lemma loadConfig_reads_Marshal (w : World) (c : appConfig) :
  validConfig c ->
  fsFile w configFileName = json.Marshal c ->
  outcome (loadConfig w) = Returned (c, None).
Proof.
  intros Hvalid Hfile. unfold loadConfig. run. rewrite Hfile.
  unfold json.Marshal at 1. cbv iota.
  rewrite (Decode_Marshal c _ Hvalid eq_refl). reflexivity.
Qed.

(** X6. A reconciliation that returns has set the sync time to the reading
    of the clock and left the folder name and the watched paths alone;
    when the configuration file can be written and the configuration is
    well-formed UTF-8, loading it gives that configuration. *)
Theorem reconcile_records_sync_time (w : World)
        (uploadFilePath uploadFileName : string) (parentFolder : DriveFile) :
  let r := processUpload uploadFilePath uploadFileName parentFolder w in
  outcome r = Returned tt ->
  configApp (final r) = syncedConfig w /\
  (fsWritable w configFileName = true ->
   validConfig (syncedConfig w) ->
   outcome (loadConfig (final r)) = Returned (syncedConfig w, None)).
Proof.
  cbv zeta. upload_cases; cbn [outcome final emitted]; intros H;
    try discriminate; run; (split; [reflexivity|]); intros Hwr Hvalid;
    try congruence;
    (apply loadConfig_reads_Marshal;
     [ exact Hvalid | run; rewrite String.eqb_refl; reflexivity ]).
Qed.

(** ** The remote store along a run *)

Lemma storeGrows_refl (w : World) : storeGrows w w.
Proof. exists []. symmetry. apply app_nil_r. Qed.

Lemma storeGrows_trans (w1 w2 w3 : World) :
  storeGrows w1 w2 -> storeGrows w2 w3 -> storeGrows w1 w3.
Proof.
  intros [m1 H1] [m2 H2]. exists (m1 ++ m2)%list.
  rewrite H2, H1, app_assoc. reflexivity.
Qed.

Lemma storeGrows_same (w w' : World) :
  remote w' = remote w -> storeGrows w w'.
Proof. intros E. exists []. rewrite E. symmetry. apply app_nil_r. Qed.

Lemma Files_Create_grows (file : DriveFile) (media : option string) :
  keeps storeGrows (drive.Files_Create file media).
Proof.
  intro w. unfold drive.Files_Create. cbv zeta.
  destruct (driveFault w (driveCalls w)); cbn [final].
  - apply storeGrows_same. reflexivity.
  - eexists. cbn [remote set_remote]. rewrite map_app. reflexivity.
Qed.

Lemma Files_Update_grows (fileId : string) (file : DriveFile)
      (media : option string) :
  keeps storeGrows (drive.Files_Update fileId file media).
Proof.
  intro w. unfold drive.Files_Update. cbv zeta.
  destruct (driveFault w (driveCalls w)); cbn [final];
    [apply storeGrows_same; reflexivity|].
  destruct (find (drive.hasId fileId) (remote w)); cbn [final];
    [|apply storeGrows_same; reflexivity].
  exists []. cbn [remote set_remote]. rewrite app_nil_r, map_map.
  apply map_ext. intros e. destruct (drive.hasId fileId e); reflexivity.
Qed.

(** A primitive that leaves the store alone. *)
Ltac store_prim :=
  let w := fresh "w" in
  intro w;
  cbv [ret emit get modify panic fmt_Print log_Print log_Fatal os_Open
       ioutil_ReadDir ioutil_WriteFile fmt_Scanln time_Now_String
       watcher_Add drive.Files_List];
  repeat match goal with
         | |- context [match ?x with _ => _ end] => destruct x
         end;
  cbn [final]; apply storeGrows_same; reflexivity.

Ltac store_step :=
  match goal with
  | |- keeps _ (bind _ _) => apply (keeps_bind _ storeGrows_trans); [|intros]
  | |- keeps _ (forRange _ _) =>
      apply (keeps_forRange _ storeGrows_refl storeGrows_trans); intros
  | |- keeps _ (drive.Files_Create _ _) => apply Files_Create_grows
  | |- keeps _ (drive.Files_Update _ _ _) => apply Files_Update_grows
  | |- keeps _ (match ?x with _ => _ end) => destruct x
  | |- keeps _ _ => solve [store_prim]
  end.

Lemma saveConfigJSONFile_store : keeps storeGrows saveConfigJSONFile.
Proof. unfold saveConfigJSONFile, json.Marshal. repeat store_step. Qed.

Lemma processUpload_store (p n : string) (pf : DriveFile) :
  keeps storeGrows (processUpload p n pf).
Proof.
  unfold processUpload, findUploadFileInDrive, updateFileInDrive,
    uploadNewFileToDrive, updateLastUpdateAppConfig.
  repeat first [apply saveConfigJSONFile_store | store_step].
Qed.

Lemma sweep_store (pf : DriveFile) :
  keeps storeGrows (uploadActualFilesInWatchDir pf).
Proof.
  unfold uploadActualFilesInWatchDir, uploadActualFile. cbv zeta.
  repeat first [apply processUpload_store | store_step].
Qed.

Lemma runWatcher_store (pf : DriveFile) (msgs : list WatcherMsg) :
  keeps storeGrows (runWatcher pf msgs).
Proof.
  unfold runWatcher, runWatcher_select. cbv zeta.
  repeat first [apply processUpload_store | store_step].
Qed.

Lemma configFolderToWatch_store : keeps storeGrows configFolderToWatch.
Proof.
  unfold configFolderToWatch.
  repeat first [apply saveConfigJSONFile_store | store_step].
Qed.

(** X7. Whatever the watcher delivers, [executeApp] never removes, trashes
    or moves a remote file: the entries the store had are still there at
    the end, in the same order, with the same identifiers, parents and
    trash flags. *)
Theorem executeApp_keeps_remote_entries (msgs : list WatcherMsg) (w : World) :
  exists more,
    map entryKey (remote (final (executeApp msgs w)))
    = (map entryKey (remote w) ++ more)%list.
Proof.
  revert w. change (keeps storeGrows (executeApp msgs)).
  unfold executeApp, executeApp_folder, executeApp_sync, findHolderFolder,
    createFolderInDrive.
  repeat first [ apply sweep_store | apply runWatcher_store
               | apply configFolderToWatch_store | store_step ].
Qed.

(** ** What a reconciliation leaves in the store *)

Lemma listing_upload_inv (w : World) (parentID fileName : string)
      (files : list DriveFile) :
  querySafe parentID = true -> querySafe fileName = true ->
  drive.listing (uploadQuery parentID fileName) uploadFields w = inl files ->
  driveFault w (driveCalls w) = None /\
  files = firstn drive.pageSize
            (map (fun e => drive.selectFields uploadFields (meta e))
                 (filesUnder parentID fileName (remote w))).
Proof.
  intros Hp Hn H. unfold drive.listing in H.
  destruct (driveFault w (driveCalls w)); [discriminate|].
  split; [reflexivity|].
  unfold drive.search in H. rewrite (parse_uploadQuery _ _ Hp Hn) in H.
  injection H as <-. reflexivity.
Qed.

(** The first file listed is the first live file under the pair. *)
Lemma listing_head (w : World) (parentID fileName : string) :
  querySafe parentID = true -> querySafe fileName = true ->
  forall files,
    drive.listing (uploadQuery parentID fileName) uploadFields w = inl files ->
    match filesUnder parentID fileName (remote w) with
    | [] => files = []
    | e :: _ =>
        exists rest,
          files = drive.selectFields uploadFields (meta e) :: rest
    end.
Proof.
  intros Hp Hn files H.
  destruct (listing_upload_inv w _ _ files Hp Hn H) as [_ ->].
  destruct (filesUnder parentID fileName (remote w)) as [|e l];
    [reflexivity|].
  eexists. reflexivity.
Qed.

Lemma filter_head_split {A : Type} (P : A -> bool) (l : list A) (x : A)
      (rest : list A) :
  filter P l = x :: rest ->
  exists l1 l2,
    l = (l1 ++ x :: l2)%list /\ (forall y, In y l1 -> P y = false) /\
    P x = true.
Proof.
  induction l as [|a l IH]; cbn [filter]; [discriminate|].
  destruct (P a) eqn:Pa.
  - intros E. injection E as -> _. exists [], l.
    repeat split; [intros y []| exact Pa].
  - intros E. destruct (IH E) as (l1 & l2 & -> & H1 & Hx).
    exists (a :: l1), l2. repeat split; [|exact Hx].
    intros y [->|Hy]; [exact Pa | exact (H1 y Hy)].
Qed.

(** After an update of every entry with the identifier of a live file
    under the pair, the first live file under the pair has the new
    bytes. *)
Lemma updated_head (parentID name bytes : string) (e0 : RemoteEntry)
      (l1 l2 : list RemoteEntry) :
  name <> EmptyString ->
  (forall y, In y l1 ->
             drive.matches (drive.QChildNamed parentID name) y = false) ->
  drive.matches (drive.QChildNamed parentID name) e0 = true ->
  exists e rest,
    filesUnder parentID name
      (map (fun e' =>
              if drive.hasId (Id (meta e0)) e'
              then drive.updated (mkDriveFile EmptyString name EmptyString [])
                                 (Some bytes) e'
              else e')
           (l1 ++ e0 :: l2))
    = e :: rest /\ content e = bytes.
Proof.
  intros Hne H1 H0. unfold filesUnder.
  induction l1 as [|x l1 IH]; cbn [app map filter].
  - assert (Hh : drive.hasId (Id (meta e0)) e0 = true)
      by (unfold drive.hasId; apply String.eqb_refl).
    rewrite Hh.
    assert (Hm : drive.matches (drive.QChildNamed parentID name)
                   (drive.updated (mkDriveFile EmptyString name EmptyString [])
                                  (Some bytes) e0) = true).
    { unfold drive.matches, drive.updated in *.
      cbn [meta Parents Name explicitlyTrashed] in *.
      apply String.eqb_neq in Hne. rewrite Hne, String.eqb_refl.
      apply andb_true_iff in H0. destruct H0 as [H0 _]. rewrite H0.
      reflexivity. }
    rewrite Hm. eexists. eexists. split; reflexivity.
  - destruct (drive.hasId (Id (meta e0)) x).
    + destruct (drive.matches _ (drive.updated _ _ x)).
      * eexists. eexists. split; reflexivity.
      * apply IH. intros y Hy. apply H1. right. exact Hy.
    + rewrite (H1 x (or_introl eq_refl)).
      apply IH. intros y Hy. apply H1. right. exact Hy.
Qed.

(** X8. After a reconciliation that returns, the first live file under the
    folder with the logical name holds the bytes of the local file, both
    when the file was created and when it was updated.  The name is a
    plain one and the search text reads as meant. *)
Theorem reconcile_uploads_bytes (w : World)
        (uploadFilePath uploadFileName : string) (parentFolder : DriveFile)
        (goFile : string) :
  fsFile w uploadFilePath = inl goFile ->
  querySafe (Id parentFolder) = true ->
  querySafe uploadFileName = true ->
  plainName uploadFileName ->
  outcome (processUpload uploadFilePath uploadFileName parentFolder w)
  = Returned tt ->
  exists e rest,
    filesUnder (Id parentFolder) uploadFileName
      (remote (final (processUpload uploadFilePath uploadFileName
                                    parentFolder w)))
    = e :: rest /\
    content e = goFile.
Proof.
  intros Hopen Hp Hn Hplain.
  pose proof (Base_plain _ Hplain) as Hbase.
  destruct (drive.listing (uploadQuery (Id parentFolder) uploadFileName)
                          uploadFields w) as [files|err] eqn:Hlist.
  2:{ unfold uploadQuery in Hlist. run_upload. rewrite Hopen. run.
      rewrite Hlist. run. discriminate. }
  pose proof (listing_head w _ _ Hp Hn files Hlist) as Hhead.
  destruct (filesUnder (Id parentFolder) uploadFileName (remote w))
    as [|e0 under] eqn:Hunder.
  - subst files. unfold uploadQuery in Hlist.
    run_upload. rewrite Hopen. run. rewrite Hlist. run.
    destruct (driveFault w (S (driveCalls w))); run; [discriminate|].
    intros _.
    destruct (fsWritable w configFileName); run;
      unfold filesUnder in *; rewrite filter_app, Hunder; cbn [app filter];
      unfold drive.matches at 1, drive.created at 1;
      cbn [meta Parents Name explicitlyTrashed existsb];
      rewrite Hbase, !String.eqb_refl; cbn [orb andb negb];
      eexists; eexists; (split; [reflexivity|]); reflexivity.
  - destruct Hhead as [rest ->]. unfold uploadQuery in Hlist.
    destruct (filter_head_split _ _ _ _ Hunder) as (l1 & l2 & Hstore & H1 & H0).
    assert (Hname : Name (drive.selectFields uploadFields (meta e0))
                    = uploadFileName).
    { unfold drive.selectFields, uploadFields.
      change (("files(id, name)" =? "files(id, name)")%string) with true.
      cbv iota. cbn [Name].
      unfold drive.matches in H0. apply andb_true_iff in H0.
      destruct H0 as [_ H0]. apply String.eqb_eq in H0. exact H0. }
    assert (Hid : Id (drive.selectFields uploadFields (meta e0)) = Id (meta e0)).
    { unfold drive.selectFields, uploadFields.
      change (("files(id, name)" =? "files(id, name)")%string) with true.
      reflexivity. }
    destruct (updated_head (Id parentFolder) uploadFileName goFile e0 l1 l2
                (proj1 Hplain) H1 H0) as (e & more & He & Hc).
    run_upload. rewrite Hopen. run. rewrite Hlist. run.
    rewrite Hname, Hid, Hbase.
    destruct (driveFault w (S (driveCalls w))); run; [discriminate|].
    destruct (find (drive.hasId (Id (meta e0))) (remote w)); run;
      [|discriminate].
    intros _. rewrite Hstore.
    destruct (fsWritable w configFileName); run;
      exists e, more; split; assumption.
Qed.

(** ** Searching the store *)

(** X9. An answered search for a file, with texts that have no quote or
    backslash, finds the first live file of that name under the parent
    and returns its identifier and name, or returns nil when there is
    none; it changes neither the store nor the configuration. *)
Theorem findUploadFileInDrive_first_live (w : World)
        (fileName parentID : string) :
  driveFault w (driveCalls w) = None ->
  querySafe parentID = true ->
  querySafe fileName = true ->
  outcome (findUploadFileInDrive fileName parentID w)
  = Returned (match filesUnder parentID fileName (remote w) with
              | [] => None
              | e :: _ =>
                  Some (mkDriveFile (Id (meta e)) fileName EmptyString [])
              end, None) /\
  remote (final (findUploadFileInDrive fileName parentID w)) = remote w /\
  configApp (final (findUploadFileInDrive fileName parentID w)) = configApp w.
Proof.
  intros Hf Hp Hn.
  pose proof (listing_upload w parentID fileName Hf Hp Hn) as Hl.
  unfold uploadQuery in Hl.
  unfold findUploadFileInDrive. run. fold uploadFields. rewrite Hl.
  split; [|split; reflexivity].
  unfold filesUnder.
  destruct (filter (drive.matches (drive.QChildNamed parentID fileName))
                   (remote w)) as [|e l] eqn:E; [reflexivity|].
  cbn [map firstn drive.pageSize].
  assert (He : In e (filter (drive.matches
                               (drive.QChildNamed parentID fileName))
                            (remote w))) by (rewrite E; left; reflexivity).
  apply filter_In in He. destruct He as [_ He].
  unfold drive.matches in He. apply andb_true_iff in He.
  destruct He as [_ He]. apply String.eqb_eq in He.
  unfold drive.selectFields, uploadFields.
  change (("files(id, name)" =? "files(id, name)")%string) with true.
  cbv iota. rewrite He. reflexivity.
Qed.

(** ** Resolving the destination folder *)

Lemma executeApp_folder_after_miss (w : World) (err : error) :
  findHolderFolder (FolderName (configApp w)) w
  = mkRun (Returned (None, Some err)) (set_driveCalls (S (driveCalls w)) w)
          [EvList drive.foldersQuery folderFields] ->
  driveFault w (S (driveCalls w)) = None ->
  executeApp_folder w
  = mkRun (Returned
             (Some (drive.selectFields EmptyString
                      (meta (drive.created (remote w)
                               (folderRequest (FolderName (configApp w)))
                               None)))))
          (set_remote
             (remote w ++ [drive.created (remote w)
                             (folderRequest (FolderName (configApp w))) None])
             (set_driveCalls (S (S (driveCalls w))) w))
          [EvPrint ("Looking for folder " ++ dquote
                    ++ FolderName (configApp w) ++ dquote ++ "..." ++ nl);
           EvList drive.foldersQuery folderFields;
           EvLog ("Error finding " ++ FolderName (configApp w)
                  ++ " : " ++ showErr None ++ nl);
           EvCreate (folderRequest (FolderName (configApp w))) None;
           EvPrint ("Created folder " ++ dquote
                    ++ FolderName (configApp w) ++ dquote
                    ++ " for files!!" ++ nl)].
Proof.
  intros Hrun Hok. unfold executeApp_folder. run. rewrite Hrun. run.
  unfold createFolderInDrive, drive.Files_Create. run. rewrite Hok.
  reflexivity.
Qed.

Lemma created_folder_named (store : list RemoteEntry) (name : string) :
  foldersNamed name [drive.created store (folderRequest name) None]
  = [drive.created store (folderRequest name) None].
Proof.
  unfold foldersNamed, drive.created, folderRequest, drive.matches.
  cbn [filter meta MimeType Name explicitlyTrashed].
  change ((folderMimeType =? EmptyString)%string) with false. cbv iota.
  rewrite !String.eqb_refl. reflexivity.
Qed.

Lemma foldersNamed_app (name : string) (l1 l2 : list RemoteEntry) :
  foldersNamed name (l1 ++ l2)
  = (foldersNamed name l1 ++ foldersNamed name l2)%list.
Proof. apply filter_app. Qed.

(** X10. [executeApp] takes any error of the folder search for a missing
    folder: when the search call itself fails and the next call is
    answered, a folder of the destination name is created, whether or not
    the store already has one, so that the store has one more live folder
    of that name than before. *)
Theorem failed_search_creates_folder (w : World) (err : error) :
  driveFault w (driveCalls w) = Some err ->
  driveFault w (S (driveCalls w)) = None ->
  count isCreate (emitted (executeApp_folder w)) = 1%nat /\
  outcome (executeApp_folder w)
  = Returned (Some (drive.selectFields EmptyString
                      (meta (drive.created (remote w)
                               (folderRequest (FolderName (configApp w)))
                               None)))) /\
  List.length (foldersNamed (FolderName (configApp w))
                 (remote (final (executeApp_folder w))))
  = S (List.length (foldersNamed (FolderName (configApp w)) (remote w))).
Proof.
  intros Hfail Hok.
  assert (Hrun : findHolderFolder (FolderName (configApp w)) w
                 = mkRun (Returned (None, Some err))
                         (set_driveCalls (S (driveCalls w)) w)
                         [EvList drive.foldersQuery folderFields]).
  { unfold findHolderFolder. run. unfold drive.listing. rewrite Hfail.
    reflexivity. }
  rewrite (executeApp_folder_after_miss w err Hrun Hok).
  cbn [outcome final emitted remote set_remote].
  split; [reflexivity|]. split; [reflexivity|].
  rewrite foldersNamed_app, created_folder_named, length_app.
  simpl. lia.
Qed.

Lemma firstn_short {A : Type} (n : nat) (l : list A) :
  (List.length l <= n)%nat -> firstn n l = l.
Proof. apply firstn_all2. Qed.

Lemma folder_listing (w : World) :
  driveFault w (driveCalls w) = None ->
  drive.listing drive.foldersQuery folderFields w
  = inl (firstn drive.pageSize
           (map (fun e => drive.selectFields folderFields (meta e))
                (filter (drive.matches drive.QFolders) (remote w)))).
Proof. intros H. unfold drive.listing. rewrite H. reflexivity. Qed.

Lemma no_folder_listed (name : string) (store : list RemoteEntry) :
  foldersNamed name store = [] ->
  Forall (fun f => Name f <> name)
         (firstn drive.pageSize
            (map (fun e => drive.selectFields folderFields (meta e))
                 (filter (drive.matches drive.QFolders) store))).
Proof.
  intros Hnone. apply Forall_forall. intros f Hf.
  apply (In_nth_error) in Hf. destruct Hf as [k Hk].
  assert (Hin : In f (map (fun e => drive.selectFields folderFields (meta e))
                          (filter (drive.matches drive.QFolders) store))).
  { clear - Hk. revert k Hk. generalize drive.pageSize.
    induction (map _ _) as [|a l IH]; intros n k Hk.
    - rewrite firstn_nil in Hk. destruct k; discriminate.
    - destruct n; [destruct k; discriminate|]. cbn [firstn] in Hk.
      destruct k; [injection Hk as ->; left; reflexivity|].
      right. exact (IH n k Hk). }
  apply in_map_iff in Hin. destruct Hin as (e & <- & He).
  apply filter_In in He. destruct He as [Hstore Hq].
  intros Hname.
  assert (Hbad : In e (foldersNamed name store)).
  { unfold foldersNamed. apply filter_In. split; [exact Hstore|].
    rewrite Hq. cbn [andb]. apply String.eqb_eq. exact Hname. }
  rewrite Hnone in Hbad. destruct Hbad.
Qed.

(** X11. Resolving the destination folder twice, from a store with no live
    folder of that name and fewer live folders than one page of a
    listing, with a service that answers every call: the first run creates
    the folder, the second finds that same folder and creates none, and
    the store ends with exactly one live folder of the name. *)
Theorem folder_resolution_twice (w : World) :
  (forall k, driveFault w k = None) ->
  foldersNamed (FolderName (configApp w)) (remote w) = [] ->
  (List.length (filter (drive.matches drive.QFolders) (remote w))
   < drive.pageSize)%nat ->
  let r1 := executeApp_folder w in
  let r2 := executeApp_folder (final r1) in
  (exists folderFile,
      outcome r1 = Returned (Some folderFile) /\
      outcome r2 = Returned (Some folderFile)) /\
  count isCreate (emitted r1) = 1%nat /\
  count isCreate (emitted r2) = 0%nat /\
  List.length (foldersNamed (FolderName (configApp w)) (remote (final r2)))
  = 1%nat.
Proof.
  intros Hfault Hnone Hpage.
  destruct (findHolderFolder_no_match (FolderName (configApp w)) w _
              (folder_listing w (Hfault _))
              (no_folder_listed _ _ Hnone)) as [err Hrun].
  pose proof (executeApp_folder_after_miss w err Hrun (Hfault _)) as H1.
  set (name := FolderName (configApp w)) in *.
  set (c := drive.created (remote w) (folderRequest name) None) in *.
  set (w1 := set_remote (remote w ++ [c])
                        (set_driveCalls (S (S (driveCalls w))) w)) in *.
  assert (Hc : drive.matches drive.QFolders c = true).
  { unfold c, drive.created, folderRequest, drive.matches.
    cbn [meta MimeType explicitlyTrashed].
    change ((folderMimeType =? EmptyString)%string) with false. cbv iota.
    rewrite String.eqb_refl. reflexivity. }
  assert (Hsel : drive.selectFields folderFields (meta c)
                 = drive.selectFields EmptyString (meta c)) by reflexivity.
  assert (Hl2 : drive.listing drive.foldersQuery folderFields w1
                = inl (map (fun e => drive.selectFields folderFields (meta e))
                           (filter (drive.matches drive.QFolders) (remote w))
                       ++ drive.selectFields EmptyString (meta c) :: [])%list).
  { rewrite folder_listing by apply Hfault.
    unfold w1. cbn [remote set_remote].
    rewrite filter_app. cbn [filter]. rewrite Hc, map_app. cbn [map].
    rewrite Hsel, firstn_short; [reflexivity|].
    rewrite length_app, length_map. cbn [List.length]. lia. }
  assert (Hname : Name (drive.selectFields EmptyString (meta c)) = name)
    by reflexivity.
  assert (Hrun2 : findHolderFolder name w1
                  = mkRun (Returned (Some (drive.selectFields EmptyString (meta c)),
                                     None))
                          (set_driveCalls (S (driveCalls w1)) w1)
                          [EvList drive.foldersQuery folderFields]).
  { unfold findHolderFolder. run. fold folderFields. rewrite Hl2.
    replace (0 <? Z.of_nat (List.length _)) with true
      by (symmetry; apply Z.ltb_lt; rewrite length_app; simpl; lia).
    cbv zeta.
    rewrite (last_match_fold name _ [] _ Hname (Forall_nil _)).
    reflexivity. }
  assert (H2 : executeApp_folder w1
               = mkRun (Returned (Some (drive.selectFields EmptyString (meta c))))
                       (set_driveCalls (S (driveCalls w1)) w1)
                       [EvPrint ("Looking for folder " ++ dquote ++ name
                                 ++ dquote ++ "..." ++ nl);
                        EvList drive.foldersQuery folderFields]).
  { unfold executeApp_folder. run.
    change (FolderName (configApp w1)) with name. rewrite Hrun2. reflexivity. }
  intros r1 r2. subst r1 r2. rewrite H1. cbn [outcome final emitted].
  fold w1. rewrite H2. cbn [outcome final emitted].
  split; [eexists; split; reflexivity|].
  split; [reflexivity|]. split; [reflexivity|].
  unfold w1. cbn [remote set_remote set_driveCalls].
  rewrite foldersNamed_app, Hnone. cbn [app]. unfold c.
  rewrite created_folder_named. reflexivity.
Qed.

Lemma isFolderInConfig_absent (folders : list string) (folderToWatch : string) :
  isFolderInConfig folders folderToWatch = false -> ~ In folderToWatch folders.
Proof.
  intros Hno Hin. apply isFolderInConfig_found in Hin. congruence.
Qed.

Lemma isFolderInConfig_missed (folders : list string) (folderToWatch : string) :
  ~ In folderToWatch folders -> isFolderInConfig folders folderToWatch = false.
Proof.
  unfold isFolderInConfig.
  induction folders as [|x folders IH]; intros Hno; [reflexivity|].
  cbn [fold_left].
  destruct (String.eqb_spec x folderToWatch) as [->|_].
  - exfalso. apply Hno. left. reflexivity.
  - apply IH. intros Hin. apply Hno. right. exact Hin.
Qed.

(** X12. When the watched paths are not empty and the path made of the
    user's answer is not among them, [addFolderToWatch] puts it after
    them, leaves the two other fields as they were, and writes the new
    configuration, once, to the configuration file. *)
Theorem new_watch_path_appended (w : World) :
  FolderToWatch (configApp w) <> [] ->
  ~ In (pathToAdd w) (FolderToWatch (configApp w)) ->
  let r := addFolderToWatch w in
  let config := mkAppConfig (FolderName (configApp w))
                            (LastUpdate (configApp w))
                            (FolderToWatch (configApp w) ++ [pathToAdd w]) in
  outcome r = Returned tt /\
  configApp (final r) = config /\
  count isWriteFile (emitted r) = 1%nat /\
  exists jsonContent,
    json.Marshal config = inl jsonContent /\
    In (EvWriteFile configFileName jsonContent) (emitted r) /\
    (fsWritable w configFileName = true ->
     fsFile (final r) configFileName = inl jsonContent).
Proof.
  intros Hsome Hnew.
  assert (Hlen : (Z.of_nat (List.length (FolderToWatch (configApp w))) =? 0)
                 = false).
  { apply Z.eqb_neq. destruct (FolderToWatch (configApp w));
      [congruence | simpl; lia]. }
  apply isFolderInConfig_missed in Hnew.
  unfold pathToAdd, promptedPath in *.
  unfold addFolderToWatch, saveConfigJSONFile, json.Marshal. run.
  rewrite Hlen.
  destruct (stdin w) as [|token rest]; run; rewrite Hnew; run;
    destruct (fsWritable w configFileName); run;
    (do 3 (split; [reflexivity|]);
     eexists; split; [reflexivity|]; split;
     [cbn [In]; auto | try discriminate; intros _; reflexivity]).
Qed.

(** X13. [addFolderToWatch] keeps the watched paths free of duplicates,
    whatever the user answers. *)
Theorem watched_paths_stay_distinct (w : World) :
  NoDup (FolderToWatch (configApp w)) ->
  NoDup (FolderToWatch (configApp (final (addFolderToWatch w)))).
Proof.
  intros Hnodup.
  unfold addFolderToWatch, saveConfigJSONFile, json.Marshal. run.
  destruct (Z.of_nat (List.length (FolderToWatch (configApp w))) =? 0);
    [exact Hnodup|].
  assert (Hadd : forall p,
             isFolderInConfig (FolderToWatch (configApp w)) p = false ->
             NoDup (FolderToWatch (configApp w) ++ [p])%list).
  { intros p Hp. apply isFolderInConfig_absent in Hp.
    apply NoDup_app; [exact Hnodup | repeat constructor; intros [] | ].
    intros x Hx [<-|[]]. exact (Hp Hx). }
  destruct (stdin w) as [|token rest]; run;
    match goal with
    | |- context [isFolderInConfig ?l ?p] =>
        destruct (isFolderInConfig l p) eqn:Hp
    end; run; try exact Hnodup;
    destruct (fsWritable w configFileName); run; apply Hadd, Hp.
Qed.

(** X14. The configure command, run once: it returns after two questions,
    whatever the configuration was, with the destination folder the first
    answer or [EncryptBckDoc], no synchronisation time, and one watched
    path made of the second answer or of the current directory; the
    configuration file is written twice and both answers are consumed. *)
Theorem configure_command (menu : M Ending) (msgs : list WatcherMsg)
        (w : World) :
  let r := runOption menu msgs "c" false w in
  outcome r = Returned Ended /\
  configApp (final r) = configuredApp w /\
  stdin (final r) = tl (tl (stdin w)) /\
  count isWriteFile (emitted r) = 2%nat /\
  (fsWritable w configFileName = true ->
   exists jsonContent,
     json.Marshal (configuredApp w) = inl jsonContent /\
     fsFile (final r) configFileName = inl jsonContent).
Proof.
  unfold runOption, createConfig, configFolderToWatch, saveConfigJSONFile,
    json.Marshal, configuredApp, orDefault, nextToken.
  cbn [String.eqb Ascii.eqb Bool.eqb]. cbv iota.
  destruct w as [config store fault calls file writable dir input now tick
                   dirOf absOf addErr newErr].
  destruct (writable configFileName) eqn:Hw;
    destruct input as [|name [|path rest]];
    try destruct (String.eqb_spec name EmptyString) as [->|Hname];
    try destruct (String.eqb_spec path EmptyString) as [->|Hpath];
    repeat (run; rewrite ?Hw;
            cbn [List.length Z.of_nat Z.eqb orb negb tl String.eqb]);
    repeat match goal with
           | H : ?s <> EmptyString |- _ =>
               apply String.eqb_neq in H; rewrite ?H
           end;
    repeat (run; rewrite ?Hw;
            cbn [List.length Z.of_nat Z.eqb orb negb tl String.eqb]);
    (do 4 (split; [reflexivity|]); try discriminate;
     intros _; eexists; split; reflexivity).
Qed.

Lemma last_index_from_cut (front back : string) (i : Z) :
  0 <= i ->
  contains back filepath.Separator = false ->
  strings.last_index_from i (front ++ "/" ++ back) filepath.Separator
  = i + len front.
Proof.
  intros Hi Hb. revert i Hi.
  induction front as [|c front IH]; intros i Hi.
  - cbn [append strings.last_index_from].
    rewrite (last_index_from_absent back _ (i + 1) Hb).
    change (0 <=? -1) with false. cbv iota.
    unfold filepath.Separator. cbn [prefix].
    destruct (ascii_dec "/" "/"); [|congruence].
    destruct back; unfold len; simpl; lia.
  - change (String c front ++ "/" ++ back)
      with (String c (front ++ "/" ++ back)).
    cbn [strings.last_index_from]. rewrite IH by lia.
    rewrite len_String. pose proof (len_nonneg front).
    destruct (0 <=? i + 1 + len front) eqn:E; lia.
Qed.

(** X15. A write event for the path that the sweep makes of a folder and
    of an entry name without separator is reconciled as the sweep
    reconciles that entry: same outcome, same final world, and the same
    actions, before which the watch loop logs one line of its own when
    the path passes the filters. *)
Theorem watch_event_like_sweep_entry (parentFolder : DriveFile)
        (folder name : string) (op : Z) (w : World) :
  Z.land op fsWrite = fsWrite ->
  contains name filepath.Separator = false ->
  let path := (folder ++ "/" ++ name)%string in
  let viaWatch :=
    runWatcher_select parentFolder (OnEvents (mkFsEvent path op)) w in
  let viaSweep := uploadActualFile parentFolder folder (mkFileInfo name false) w in
  outcome viaWatch = outcome viaSweep /\
  final viaWatch = final viaSweep /\
  (if passesFilters path
   then exists line, emitted viaWatch = EvLog line :: emitted viaSweep
   else emitted viaWatch = [] /\ emitted viaSweep = []).
Proof.
  intros Hop Hname path viaWatch viaSweep. subst viaWatch viaSweep.
  apply Z.eqb_eq in Hop.
  unfold runWatcher_select, uploadActualFile, passesFilters.
  cbn [evName Op IsDir fiName negb]. rewrite Hop. fold path.
  destruct (isNotAppFile path && negb (isNotHiddenFile path)).
  - cbv zeta. unfold strings.LastIndex.
    unfold path.
    rewrite (last_index_from_cut folder name 0 ltac:(lia) Hname), Z.add_0_l.
    rewrite slice_front, slice_back. fold path.
    run.
    destruct (processUpload path name parentFolder w) as [o w1 ev].
    cbn [outcome final emitted app].
    split; [reflexivity|]. split; [reflexivity|].
    eexists. reflexivity.
  - repeat split.
Qed.

Lemma runWatcher_unfold (pf : DriveFile) (msgs : list WatcherMsg) (w : World) :
  runWatcher pf msgs w
  = match newWatcherErr w with
    | Some err => mkRun (Fatal err) w [EvLog err]
    | None =>
        match forRange (FolderToWatch (configApp w)) registerFolder w with
        | mkRun (Returned _) w1 ev1 =>
            match forRange msgs (runWatcher_select pf) w1 with
            | mkRun o w2 ev2 => mkRun o w2 (ev1 ++ ev2)%list
            end
        | r => r
        end
    end.
Proof.
  unfold runWatcher. fold registerFolder. unfold log_Fatal. run.
  destruct (newWatcherErr w); [reflexivity|].
  destruct (forRange (FolderToWatch (configApp w)) registerFolder w)
    as [[[]|msg|msg] w1 ev1]; cbn [app]; try reflexivity.
  destruct (forRange msgs (runWatcher_select pf) w1) as [o w2 ev2].
  reflexivity.
Qed.







Lemma actions_app (l1 l2 : list Event) :
  actions (l1 ++ l2) = (actions l1 ++ actions l2)%list.
Proof. apply filter_app. Qed.

Lemma unhandled_run (pf : DriveFile) (msg : WatcherMsg) (w : World) :
  handled msg = false ->
  exists ev, runWatcher_select pf msg w = mkRun (Returned tt) w ev /\
             actions ev = [].
Proof.
  destruct msg as [[name op]|err]; cbn [handled evName Op]; intros H.
  - unfold runWatcher_select, passesFilters in *. cbn [evName Op].
    destruct (Z.land op fsWrite =? fsWrite);
      [|exists []; split; reflexivity].
    cbn [andb] in H. rewrite H. exists []. split; reflexivity.
  - eexists. split; reflexivity.
Qed.

Lemma deliveries_filtered (pf : DriveFile) (msgs : list WatcherMsg) (w : World) :
  let all := forRange msgs (runWatcher_select pf) w in
  let some := forRange (filter handled msgs) (runWatcher_select pf) w in
  outcome all = outcome some /\ final all = final some /\
  actions (emitted all) = actions (emitted some).
Proof.
  revert w. induction msgs as [|msg msgs IH]; intros w; cbn [filter forRange].
  - repeat split.
  - destruct (handled msg) eqn:Hh.
    + cbn [forRange]. unfold bind.
      destruct (runWatcher_select pf msg w) as [[[]|text|text] w1 ev1];
        try (repeat split; reflexivity).
      specialize (IH w1). cbv zeta in IH.
      destruct (forRange msgs (runWatcher_select pf) w1) as [o2 w2 ev2].
      destruct (forRange (filter handled msgs) (runWatcher_select pf) w1)
        as [o3 w3 ev3].
      cbn [outcome final emitted] in *.
      destruct IH as (-> & -> & IH). rewrite !actions_app, IH.
      repeat split.
    + destruct (unhandled_run pf msg w Hh) as (ev & Hrun & Hev).
      unfold bind. rewrite Hrun. specialize (IH w). cbv zeta in IH.
      destruct (forRange msgs (runWatcher_select pf) w) as [o2 w2 ev2].
      cbn [outcome final emitted] in *.
      rewrite actions_app, Hev. exact IH.
Qed.

(** X17. The watcher's error deliveries, the events that are not writes
    and the events for application or hidden files stop nothing and
    change nothing: [runWatcher] ends as it does without them, in the same
    world, after the same actions; only the log can differ. *)
Theorem unhandled_deliveries_are_inert (parentFolder : DriveFile)
        (msgs : list WatcherMsg) (w : World) :
  let all := runWatcher parentFolder msgs w in
  let some := runWatcher parentFolder (filter handled msgs) w in
  outcome all = outcome some /\ final all = final some /\
  actions (emitted all) = actions (emitted some).
Proof.
  cbv zeta. rewrite !runWatcher_unfold.
  destruct (newWatcherErr w); [repeat split|].
  destruct (forRange (FolderToWatch (configApp w)) registerFolder w)
    as [[[]|msg|msg] w1 ev1]; try (repeat split; reflexivity).
  pose proof (deliveries_filtered parentFolder msgs w1) as H.
  cbv zeta in H.
  destruct (forRange msgs (runWatcher_select parentFolder) w1) as [o2 w2 ev2].
  destruct (forRange (filter handled msgs) (runWatcher_select parentFolder) w1)
    as [o3 w3 ev3].
  cbn [outcome final emitted] in *.
  destruct H as (-> & -> & H). rewrite !actions_app, H. repeat split.
Qed.

Lemma stdinShrinks_refl (w : World) : stdinShrinks w w.
Proof. exists 0%nat. reflexivity. Qed.

Lemma stdinShrinks_trans (w1 w2 w3 : World) :
  stdinShrinks w1 w2 -> stdinShrinks w2 w3 -> stdinShrinks w1 w3.
Proof.
  intros [k1 H1] [k2 H2]. exists (k1 + k2)%nat.
  rewrite H2, H1, skipn_skipn. f_equal. lia.
Qed.


Lemma stdinShrinks_Forall (P : string -> Prop) (w w' : World) :
  stdinShrinks w w' -> Forall P (stdin w) -> Forall P (stdin w').
Proof.
  intros [k ->] H. rewrite <- (firstn_skipn k (stdin w)) in H.
  apply Forall_app in H. apply H.
Qed.

Ltac stdin_prim :=
  let w := fresh "w" in
  intro w;
  cbv [ret emit get modify panic fmt_Print log_Print log_Fatal os_Open
       ioutil_ReadDir ioutil_WriteFile fmt_Scanln time_Now_String
       watcher_Add drive.Files_List drive.Files_Create drive.Files_Update];
  repeat match goal with
         | |- context [match ?x with _ => _ end] => destruct x eqn:?
         end;
  cbn [final];
  first [ exists 0%nat; reflexivity
        | exists 1%nat; cbn [stdin set_stdin];
          match goal with H : stdin _ = _ |- _ => rewrite H end;
          reflexivity ].

Ltac stdin_step :=
  match goal with
  | |- keeps _ (bind _ _) => apply (keeps_bind _ stdinShrinks_trans); [|intros]
  | |- keeps _ (forRange _ _) =>
      apply (keeps_forRange _ stdinShrinks_refl stdinShrinks_trans); intros
  | |- keeps _ (match ?x with _ => _ end) => destruct x
  | |- keeps _ (if ?x then _ else _) => destruct x
  | |- keeps _ _ => solve [stdin_prim]
  end.

Lemma saveConfigJSONFile_stdin : keeps stdinShrinks saveConfigJSONFile.
Proof. unfold saveConfigJSONFile, json.Marshal. repeat stdin_step. Qed.

Lemma createConfig_stdin : keeps stdinShrinks createConfig.
Proof.
  unfold createConfig.
  repeat first [apply saveConfigJSONFile_stdin | stdin_step].
Qed.

Lemma configFolderToWatch_stdin : keeps stdinShrinks configFolderToWatch.
Proof.
  unfold configFolderToWatch.
  repeat first [apply saveConfigJSONFile_stdin | stdin_step].
Qed.

Lemma addFolderToWatch_stdin : keeps stdinShrinks addFolderToWatch.
Proof.
  unfold addFolderToWatch.
  repeat first [apply saveConfigJSONFile_stdin | stdin_step].
Qed.

Lemma showAppConfig_stdin : keeps stdinShrinks showAppConfig.
Proof. unfold showAppConfig. repeat stdin_step. Qed.


Lemma lowerASCII_empty (unicodeToLower : string -> string) :
  strings_ToLower unicodeToLower EmptyString = EmptyString.
Proof. reflexivity. Qed.


Lemma showAppMenu_unfold (unicodeToLower : string -> string)
      (msgs : list WatcherMsg) (rounds : nat) (w : World) :
  showAppMenu unicodeToLower msgs (S rounds) w
  = match
      runOption (showAppMenu unicodeToLower msgs rounds) msgs
                (strings_ToLower unicodeToLower (nextToken (stdin w))) true
                (set_stdin (tl (stdin w)) w)
    with
    | mkRun o w1 ev =>
        mkRun o w1
              (EvPrint (if negb (FolderName (configApp w) =? EmptyString)%string
                        then optionsWithAppConfig else optionsWithoutAppConfig)
               :: EvPrint "Option: " :: EvScanln :: ev)
    end.
Proof.
  cbn [showAppMenu]. run.
  destruct w as [config store fault calls file writable dir input now tick
                   dirOf absOf addErr newErr].
  cbn [configApp stdin set_stdin nextToken tl].
  destruct (negb (FolderName config =? EmptyString)%string);
    destruct input as [|token rest]; run; cbn [nextToken tl];
    cbv [set_stdin configApp remote driveFault driveCalls fsFile fsWritable
         fsDir stdin clock ticks pathDir pathAbs watchAddErr newWatcherErr];
    match goal with
    | |- context [runOption ?m ?ms ?o true ?w'] =>
        destruct (runOption m ms o true w') as [o1 w1 ev1]
    end; reflexivity.
Qed.











(** ** How a menu session ends *)







Lemma calls_bind {A B : Type} (p : Event -> bool) (m : M A) (k : A -> M B)
      (w : World) :
  count p (emitted (m w)) = 0%nat ->
  (forall a, outcome (m w) = Returned a ->
             count p (emitted (k a (final (m w)))) = 0%nat) ->
  count p (emitted (bind m k w)) = 0%nat.
Proof.
  unfold bind. destruct (m w) as [[a|text|text] w1 ev1];
    cbn [outcome final emitted]; intros Hm Hk; try exact Hm.
  specialize (Hk a eq_refl). destruct (k a w1) as [o w2 ev2].
  cbn [emitted] in *. rewrite count_app, Hm, Hk. reflexivity.
Qed.

Lemma saveConfigJSONFile_calls : quiet isDriveCall saveConfigJSONFile.
Proof. apply quiet_saveConfigJSONFile. reflexivity. Qed.

Lemma createConfig_calls : quiet isDriveCall createConfig.
Proof.
  unfold createConfig.
  repeat first [apply saveConfigJSONFile_calls | quiet_step].
Qed.

Lemma configFolderToWatch_calls : quiet isDriveCall configFolderToWatch.
Proof.
  unfold configFolderToWatch.
  repeat first [apply saveConfigJSONFile_calls | quiet_step].
Qed.

Lemma addFolderToWatch_calls : quiet isDriveCall addFolderToWatch.
Proof.
  unfold addFolderToWatch.
  repeat first [apply saveConfigJSONFile_calls | quiet_step].
Qed.

Lemma showAppConfig_calls : quiet isDriveCall showAppConfig.
Proof. unfold showAppConfig. repeat quiet_step. Qed.

Lemma runOption_calls (menu : M Ending) (msgs : list WatcherMsg)
      (userOption : string) (w : World) :
  userOption <> "e" ->
  (forall w', stdinShrinks w w' ->
              count isDriveCall (emitted (menu w')) = 0%nat) ->
  count isDriveCall (emitted (runOption menu msgs userOption true w)) = 0%nat.
Proof.
  intros Hopt H. unfold runOption.
  destruct (String.eqb_spec userOption "e"); [congruence|].
  destruct (userOption =? "x")%string; [reflexivity|].
  destruct (userOption =? "c")%string.
  { apply calls_bind; [apply createConfig_calls|]. intros config _.
    apply calls_bind; [reflexivity|]. intros [] _.
    apply calls_bind; [apply configFolderToWatch_calls|]. intros [] _.
    apply H.
    eapply stdinShrinks_trans; [apply createConfig_stdin|].
    eapply stdinShrinks_trans; [|apply configFolderToWatch_stdin].
    exists 0%nat. reflexivity. }
  destruct (userOption =? "a")%string.
  { apply calls_bind; [apply addFolderToWatch_calls|]. intros [] _.
    apply H, addFolderToWatch_stdin. }
  destruct (userOption =? "s")%string.
  { apply calls_bind; [apply showAppConfig_calls|]. intros [] _.
    apply H, showAppConfig_stdin. }
  reflexivity.
Qed.

(** X19. The menu sends nothing to Drive unless the user asks for an
    execution: when no token of the standard input is [e] once lowered,
    a menu session of any length lists, creates and updates nothing. *)
Theorem menu_calls_drive_only_on_execute (unicodeToLower : string -> string)
        (msgs : list WatcherMsg) (rounds : nat) (w : World) :
  Forall (fun token => strings_ToLower unicodeToLower token <> "e") (stdin w) ->
  count isDriveCall (emitted (showAppMenu unicodeToLower msgs rounds w)) = 0%nat.
Proof.
  revert w. induction rounds as [|rounds IH]; intros w Hin; [reflexivity|].
  rewrite showAppMenu_unfold.
  assert (Hrun :
    count isDriveCall
      (emitted (runOption (showAppMenu unicodeToLower msgs rounds) msgs
                  (strings_ToLower unicodeToLower (nextToken (stdin w))) true
                  (set_stdin (tl (stdin w)) w))) = 0%nat).
  { apply runOption_calls.
    - destruct (stdin w) as [|token rest]; cbn [nextToken].
      + rewrite lowerASCII_empty. discriminate.
      + inversion Hin. assumption.
    - intros w' Hw'. apply IH.
      apply (stdinShrinks_Forall _ _ _ Hw').
      cbn [stdin set_stdin]. destruct (stdin w) as [|token rest];
        [constructor | inversion Hin; assumption]. }
  destruct (runOption _ _ _ _ _) as [o w1 ev]. cbn [emitted] in *.
  exact Hrun.
Qed.

Lemma unquote_replacement_step (fuel : nat) (rest : string) :
  json.unquote_loop (S fuel) ((json.backslash ++ "ufffd") ++ rest)
  = match json.unquote_loop fuel rest with
    | Some (t, after) => Some (utf8.EncodeRune utf8.RuneError ++ t, after)
    | None => None
    end.
Proof. reflexivity. Qed.

(** Reading back the body of any string that [Marshal] wrote. *)
Lemma unquote_appendString_any (fuel' : nat) :
  forall s,
    (String.length s <= fuel')%nat ->
    forall fuel after,
      (String.length (json.appendString_loop fuel' s) < fuel)%nat ->
      json.unquote_loop fuel (json.appendString_loop fuel' s ++ dquote ++ after)
      = Some (toValidUTF8_loop fuel' s, after).
Proof.
  induction fuel' as [|fuel' IH]; intros s Hlen fuel after Hfuel.
  - destruct s; [|simpl in Hlen; lia].
    destruct fuel; [simpl in Hfuel; lia|]. reflexivity.
  - destruct s as [|c rest].
    { destruct fuel; [simpl in Hfuel; lia|]. reflexivity. }
    cbn [json.appendString_loop toValidUTF8_loop] in *.
    destruct (utf8.byteOf c <? 128) eqn:E.
    + assert (Hd : utf8.DecodeRuneInString (String c rest)
                   = (utf8.byteOf c, 1%nat)).
      { cbn [utf8.DecodeRuneInString]. rewrite E. reflexivity. }
      rewrite Hd.
      replace (utf8.byteOf c =? utf8.RuneError) with false
        by (symmetry; apply Z.eqb_neq; apply Z.ltb_lt in E;
            unfold utf8.RuneError; lia).
      cbn [andb].
      pose proof (dropBytes_app (String c EmptyString) rest) as D.
      cbn [append String.length] in D. rewrite D.
      fold (asciiChunk c) in *.
      rewrite append_assoc.
      destruct fuel as [|fuel]; [lia|].
      apply Z.ltb_lt in E. rewrite (unquote_ascii_step c fuel _ E).
      rewrite (IH rest); [ | simpl in Hlen; lia | ].
      * cbn [substring append]. destruct rest; reflexivity.
      * assert (1 <= String.length (asciiChunk c))%nat.
        { clear. destruct c as [[] [] [] [] [] [] [] []]; vm_compute; lia. }
        rewrite length_append in Hfuel. lia.
    + destruct (utf8.DecodeRuneInString (String c rest)) as [r size] eqn:Hd.
      destruct fuel as [|fuel]; [lia|].
      destruct ((r =? utf8.RuneError) && (size =? 1)%nat) eqn:Hv.
      * rewrite append_assoc, unquote_replacement_step.
        rewrite (IH rest); [reflexivity | simpl in Hlen; lia | ].
        rewrite length_append in Hfuel. simpl in Hfuel. lia.
      * destruct (decode_valid_rune (String c rest) r size
                    ltac:(discriminate) Hd Hv) as (Hs & Hl & Hdec).
        set (tail := json.dropBytes size (String c rest)) in *.
        destruct (EncodeRune_nonempty r) as (c' & enc & Henc).
        assert (c' = c) by (rewrite Henc in Hs; cbn [append] in Hs; congruence).
        subst c'. apply Z.ltb_ge in E.
        assert (Htail : (String.length tail <= fuel')%nat).
        { apply (f_equal String.length) in Hs.
          rewrite length_append, Henc in Hs. simpl in Hs, Hlen. lia. }
        assert (Hsub : substring 0 size (String c rest) = utf8.EncodeRune r).
        { rewrite Hs at 1. rewrite <- Hl. apply substring_front. }
        rewrite Hsub in *.
        destruct ((r =? 8232) || (r =? 8233)) eqn:Hsep.
        -- rewrite append_assoc, unquote_separator_step
             by (apply orb_true_iff in Hsep; destruct Hsep as [H|H];
                 apply Z.eqb_eq in H; auto).
           rewrite (IH tail Htail); [reflexivity|].
           rewrite length_append in Hfuel.
           assert (1 <= String.length
                          (json.backslash ++ "u202" ++ json.hex (r mod 16)))%nat
             by (rewrite !length_append; simpl; lia).
           lia.
        -- rewrite append_assoc,
             (unquote_rune_step r size fuel c enc _ Henc E Hdec Hl).
           rewrite (IH tail Htail); [reflexivity|].
           rewrite length_append, Henc in Hfuel. simpl in Hfuel. lia.
Qed.

Lemma readString_appendString_any (s after : string) :
  json.readString (json.appendString s ++ after) = Some (toValidUTF8 s, after).
Proof.
  unfold json.appendString, dquote.
  cbn [append json.readString].
  change (utf8.byteOf "034" =? 34) with true. cbv iota.
  rewrite append_assoc.
  apply (unquote_appendString_any (String.length s) s (le_n _)).
  rewrite length_append. simpl. lia.
Qed.

Lemma readElement_appendString_any (s after : string) :
  json.readElement (json.skipSpace (json.appendString s ++ after))
  = Some (toValidUTF8 s, after).
Proof.
  change (json.skipSpace (json.appendString s ++ after))
    with (json.appendString s ++ after)%string.
  unfold json.readElement.
  change (prefix "null" (json.appendString s ++ after)) with false.
  cbv iota. apply readString_appendString_any.
Qed.

Lemma readElements_appendStrings_any (l : list string) :
  l <> [] ->
  forall fuel after,
    (List.length l <= fuel)%nat ->
    json.readElements fuel (json.appendStrings l ++ "]" ++ after)
    = Some (map toValidUTF8 l, after).
Proof.
  induction l as [|s l IH]; intros Hne fuel after Hfuel; [contradiction|].
  destruct fuel as [|fuel]; [simpl in Hfuel; lia|].
  cbn [json.readElements]. destruct l as [|s' l'].
  - cbn [json.appendStrings].
    rewrite (readElement_appendString_any s _). reflexivity.
  - change (json.appendStrings (s :: s' :: l'))
      with (json.appendString s ++ "," ++ json.appendStrings (s' :: l'))%string.
    rewrite !append_assoc.
    rewrite (readElement_appendString_any s _).
    change (json.skipSpace ("," ++ ?x))%string with (String "," x).
    cbv iota. change (utf8.byteOf "," =? 44) with true. cbv iota.
    rewrite (IH ltac:(discriminate) fuel after); [reflexivity|].
    simpl in *. lia.
Qed.

Lemma readValue_appendString_any (s after : string) :
  json.readValue (json.appendString s ++ after)
  = Some (json.VString (toValidUTF8 s), after).
Proof.
  unfold json.readValue.
  pose proof (readString_appendString_any s after) as H.
  change (json.appendString s ++ after)%string
    with (String "034" ((json.appendString_loop (String.length s) s ++ dquote)
                        ++ after)) in *.
  change (utf8.byteOf "034" =? 34) with true. cbv iota.
  rewrite H. reflexivity.
Qed.

Lemma readValue_appendSlice_any (l : list string) (after : string) :
  json.readValue (json.appendSlice l ++ after)
  = Some (match l with
          | [] => json.VNull
          | _ => json.VArray (map toValidUTF8 l)
          end, after).
Proof.
  destruct l as [|s l].
  - unfold json.appendSlice, json.readValue.
    pose proof (prefix_app "null" after) as P.
    pose proof (dropBytes_app "null" after) as D.
    cbn [append String.length] in *.
    change (utf8.byteOf "n" =? 34) with false.
    change (utf8.byteOf "n" =? 91) with false. cbv iota.
    rewrite P, D. reflexivity.
  - unfold json.appendSlice.
    change (("[" ++ json.appendStrings (s :: l) ++ "]") ++ after)%string
      with (String "[" ((json.appendStrings (s :: l) ++ "]") ++ after)).
    rewrite append_assoc. cbn [json.readValue].
    change (utf8.byteOf "[" =? 34) with false.
    change (utf8.byteOf "[" =? 91) with true. cbv iota.
    assert (Hhead : exists x, (json.appendStrings (s :: l) ++ "]" ++ after)%string
                              = String "034" x).
    { destruct l; eexists; reflexivity. }
    destruct Hhead as [x Hx].
    rewrite Hx at 1. cbn [json.skipSpace].
    change (json.isSpace "034") with false. cbv iota.
    change (utf8.byteOf "034" =? 93) with false. cbv iota.
    rewrite (readElements_appendStrings_any (s :: l) ltac:(discriminate));
      [reflexivity|].
    apply length_appendStrings.
Qed.

Lemma Decode_Marshal_any (c : appConfig) (doc : string) :
  json.Marshal c = inl doc ->
  json.Decode doc = (coerced c, None).
Proof.
  destruct c as [fn lu ftw]. intros Hdoc. unfold coerced.
  cbn [FolderName LastUpdate FolderToWatch] in *.
  unfold json.Marshal in Hdoc. cbn [FolderName LastUpdate FolderToWatch] in Hdoc.
  injection Hdoc as <-.
  change (json.Decode
            (String "{"
               (String "034"
                  ("folderName"
                   ++ String "034"
                        (String ":"
                           (json.appendString fn
                            ++ String ","
                                 (String "034"
                                    ("lastUpdate"
                                     ++ String "034"
                                          (String ":"
                                             (json.appendString lu
                                              ++ String ","
                                                   (String "034"
                                                      ("folderToWatch"
                                                       ++ String "034"
                                                            (String ":"
                                                               (json.appendSlice ftw
                                                                ++ String "}" EmptyString)))))))))))))
          = (mkAppConfig (toValidUTF8 fn) (toValidUTF8 lu)
                         (map toValidUTF8 ftw), None)).
  unfold json.Decode. cbn [json.skipSpace].
  change (json.isSpace "{") with false. cbv iota.
  change (utf8.byteOf "{" =? 123) with true. cbv iota.
  change (json.isSpace "034") with false. cbv iota.
  change (utf8.byteOf "034" =? 125) with false. cbv iota.
  rewrite (readMembers_step _ "folderName" (json.appendString fn)
             (json.VString (toValidUTF8 fn)) "," _ zeroConfig
             (mkAppConfig (toValidUTF8 fn) EmptyString []));
    [ | intros; reflexivity | apply skipSpace_appendString
      | intros; apply readValue_appendString_any | reflexivity | reflexivity
      | discriminate ].
  change (utf8.byteOf "," =? 44) with true. cbv iota.
  rewrite (readMembers_step _ "lastUpdate" (json.appendString lu)
             (json.VString (toValidUTF8 lu)) "," _ _
             (mkAppConfig (toValidUTF8 fn) (toValidUTF8 lu) []));
    [ | intros; reflexivity | apply skipSpace_appendString
      | intros; apply readValue_appendString_any | reflexivity | reflexivity
      | discriminate ].
  change (utf8.byteOf "," =? 44) with true. cbv iota.
  rewrite (readMembers_step _ "folderToWatch" (json.appendSlice ftw)
             (match ftw with
              | [] => json.VNull
              | _ => json.VArray (map toValidUTF8 ftw)
              end)
             "}" _ _ (mkAppConfig (toValidUTF8 fn) (toValidUTF8 lu)
                                  (map toValidUTF8 ftw)));
    [ reflexivity | intros; reflexivity | apply skipSpace_appendSlice
    | intros; apply readValue_appendSlice_any
    | destruct ftw; reflexivity | reflexivity | discriminate ].
Qed.

(** X20. Whatever bytes the three fields hold, a configuration saved by
    [saveConfigJSONFile] to a file that can be written is loaded again by
    [loadConfig] without error, and comes back with every byte that
    starts no well-formed UTF-8 encoding replaced by U+FFFD. *)
Theorem config_save_load_coerces (w : World) :
  fsWritable w configFileName = true ->
  outcome (loadConfig (final (saveConfigJSONFile w)))
  = Returned (coerced (configApp w), None).
Proof.
  intros Hwr.
  destruct (json.Marshal (configApp w)) as [doc|err] eqn:HM;
    [|unfold json.Marshal in HM; discriminate].
  pose proof (Decode_Marshal_any _ doc HM) as HD.
  unfold saveConfigJSONFile, loadConfig. run. rewrite HM. run.
  rewrite Hwr. run. rewrite String.eqb_refl, HD. reflexivity.
Qed.

Lemma rev2_loop_hit (folder : string) (names : list string) (path : string) :
  rev2.isNotAppFile_loop folder names path = false ->
  exists name, In name names /\ path = (folder ++ "/" ++ name)%string.
Proof.
  induction names as [|n names IH]; cbn [rev2.isNotAppFile_loop]; intros H;
    [discriminate|].
  destruct (String.eqb_spec (folder ++ "/" ++ n) path) as [<-|_].
  - exists n. split; [left|]; reflexivity.
  - destruct (IH H) as (name & Hin & E). exists name. split; [right|]; assumption.
Qed.

(** X21. The suffix test of [isNotAppFile] takes for one of the program's
    files every path that the earlier revision's test did, which compared
    the path with each file name in the watched folder. *)
Theorem suffix_test_covers_exact_test (folderToWatch fileName : string) :
  rev2.isNotAppFile folderToWatch fileName = false ->
  isNotAppFile fileName = false.
Proof.
  intros H. apply rev2_loop_hit in H. destruct H as (name & Hin & ->).
  apply artifact_is_app_file. exists name. split; [exact Hin|].
  exists (folderToWatch ++ "/")%string. rewrite append_assoc. reflexivity.
Qed.

Lemma replacement_decodes (tail : string) :
  utf8.DecodeRuneInString (utf8.EncodeRune utf8.RuneError ++ tail)
  = (utf8.RuneError, 3%nat).
Proof. reflexivity. Qed.

Lemma validFrom_toValidUTF8 (fuel' : nat) :
  forall s,
    (String.length s <= fuel')%nat ->
    forall fuel,
      (String.length (toValidUTF8_loop fuel' s) <= fuel)%nat ->
      utf8.validFrom fuel (toValidUTF8_loop fuel' s) = true.
Proof.
  induction fuel' as [|fuel' IH]; intros s Hlen fuel Hfuel.
  - destruct s; [|simpl in Hlen; lia]. destruct fuel; reflexivity.
  - destruct s as [|c rest]; [destruct fuel; reflexivity|].
    cbn [toValidUTF8_loop] in *.
    destruct (utf8.DecodeRuneInString (String c rest)) as [r size] eqn:Hd.
    destruct ((r =? utf8.RuneError) && (size =? 1)%nat) eqn:Hv.
    + rewrite length_append in Hfuel.
      change (String.length (utf8.EncodeRune utf8.RuneError)) with 3%nat in Hfuel.
      destruct fuel as [|fuel]; [lia|].
      pose proof (dropBytes_app (utf8.EncodeRune utf8.RuneError)
                                (toValidUTF8_loop fuel' rest)) as D.
      change (String.length (utf8.EncodeRune utf8.RuneError)) with 3%nat in D.
      unfold json.dropBytes in D.
      set (T := toValidUTF8_loop fuel' rest) in *.
      change (utf8.EncodeRune utf8.RuneError ++ T)%string
        with (String "239" (String "191" (String "189" T))) in *.
      cbn [utf8.validFrom].
      change (utf8.DecodeRuneInString (String "239" (String "191" (String "189" T))))
        with (utf8.RuneError, 3%nat).
      cbv iota. change ((utf8.RuneError =? utf8.RuneError) && (3 =? 1)%nat)
                  with false. cbv iota.
      rewrite D. apply IH; [simpl in Hlen; lia | subst T; lia].
    + destruct (decode_valid_rune (String c rest) r size
                  ltac:(discriminate) Hd Hv) as (Hs & Hl & Hdec).
      set (tail := json.dropBytes size (String c rest)) in *.
      destruct (EncodeRune_nonempty r) as (c' & enc & Henc).
      assert (Htail : (String.length tail <= fuel')%nat).
      { apply (f_equal String.length) in Hs.
        rewrite length_append, Henc in Hs. simpl in Hs, Hlen. lia. }
      assert (Hsub : substring 0 size (String c rest) = utf8.EncodeRune r).
      { rewrite Hs at 1. rewrite <- Hl. apply substring_front. }
      rewrite Hsub in *.
      set (T := toValidUTF8_loop fuel' tail) in *.
      pose proof (dropBytes_app (utf8.EncodeRune r) T) as D.
      rewrite Hl in D. unfold json.dropBytes in D.
      pose proof (Hdec T) as HdT.
      rewrite length_append, Henc in Hfuel. simpl in Hfuel.
      destruct fuel as [|fuel]; [lia|].
      rewrite Henc in *. cbn [append] in *. cbn [utf8.validFrom].
      rewrite HdT, Hv, D. apply IH; [exact Htail | subst T; lia].
Qed.

Lemma ValidString_toValidUTF8 (s : string) :
  utf8.ValidString (toValidUTF8 s) = true.
Proof.
  apply (validFrom_toValidUTF8 (String.length s) s (le_n _)). apply le_n.
Qed.

Lemma validConfig_coerced (c : appConfig) : validConfig (coerced c).
Proof.
  unfold validConfig, coerced. cbn [FolderName LastUpdate FolderToWatch].
  split; [apply ValidString_toValidUTF8|].
  split; [apply ValidString_toValidUTF8|].
  apply Forall_forall. intros p Hp. apply in_map_iff in Hp.
  destruct Hp as (s & <- & _). apply ValidString_toValidUTF8.
Qed.

Lemma save_load_Decode (w : World) (doc : string) :
  fsWritable w configFileName = true ->
  json.Marshal (configApp w) = inl doc ->
  outcome (loadConfig (final (saveConfigJSONFile w)))
  = Returned (json.Decode doc).
Proof.
  intros Hwr HM. unfold saveConfigJSONFile, loadConfig. run. rewrite HM. run.
  rewrite Hwr. run. rewrite String.eqb_refl.
  destruct (json.Decode doc) as [config [err|]]; reflexivity.
Qed.

Lemma saveConfigJSONFile_surroundings :
  keeps sameSurroundings saveConfigJSONFile.
Proof. unfold saveConfigJSONFile, json.Marshal. surroundings. Qed.

(** X22. What [loadConfig] reads of a saved configuration is well-formed
    UTF-8 in all its fields, so that saving it again and loading it once
    more returns it as it is: the configuration file is stable from the
    first round trip on. *)
Theorem second_round_trip_exact (w : World) :
  fsWritable w configFileName = true ->
  forall loaded,
    outcome (loadConfig (final (saveConfigJSONFile w)))
    = Returned (loaded, None) ->
    validConfig loaded /\
    outcome (loadConfig
               (final (saveConfigJSONFile
                         (set_configApp loaded
                                        (final (saveConfigJSONFile w))))))
    = Returned (loaded, None).
Proof.
  intros Hwr loaded Hload.
  destruct (json.Marshal (configApp w)) as [doc|err] eqn:HM;
    [|unfold json.Marshal in HM; discriminate].
  rewrite (save_load_Decode w doc Hwr HM),
    (Decode_Marshal_any _ doc HM) in Hload.
  injection Hload as <-.
  split; [apply validConfig_coerced|].
  set (c := coerced (configApp w)).
  destruct (json.Marshal c) as [doc2|err] eqn:HM2;
    [|unfold json.Marshal in HM2; discriminate].
  rewrite (save_load_Decode _ doc2).
  - rewrite (Decode_Marshal c doc2 (validConfig_coerced _) HM2). reflexivity.
  - cbn [fsWritable set_configApp].
    destruct (saveConfigJSONFile_surroundings w) as (_ & -> & _). exact Hwr.
  - exact HM2.
Qed.

Lemma substring_back (front back : string) :
  substring (Z.to_nat (len front + 1))
            (String.length (front ++ "/" ++ back) - Z.to_nat (len front + 1))
            (front ++ "/" ++ back) = back.
Proof.
  unfold len. rewrite !length_append.
  replace (Z.to_nat (Z.of_nat (String.length front) + 1))
    with (String.length front + 1)%nat by lia.
  rewrite substring_skip. cbn [append String.length substring].
  match goal with
  | |- substring 0 ?m back = back =>
      replace m with (String.length back) by (simpl; lia)
  end.
  apply substring_all.
Qed.

(** [filepath.Base] gives one separator or a name without separator. *)
Lemma Base_no_separator (path : string) :
  filepath.Base path = filepath.Separator \/
  contains (filepath.Base path) filepath.Separator = false.
Proof.
  unfold filepath.Base.
  destruct (path =? EmptyString)%string; [right; reflexivity|].
  set (t := filepath.trimTrailingSeparators path).
  destruct (contains t filepath.Separator) eqn:Hc.
  - destruct (last_separator_split t 0 ltac:(lia) Hc)
      as (front & back & E & Hb & HL).
    unfold strings.LastIndex. rewrite HL, Z.add_0_l.
    pose proof (len_nonneg front).
    replace (0 <=? len front) with true by (symmetry; apply Z.leb_le; lia).
    rewrite E, substring_back.
    destruct (back =? EmptyString)%string; [left; reflexivity | right; exact Hb].
  - rewrite (LastIndex_absent _ _ Hc). change (0 <=? -1) with false. cbv iota.
    destruct (t =? EmptyString)%string; [left; reflexivity | right; exact Hc].
Qed.

(** X23. Whatever path and name a reconciliation is given, the file it
    creates or updates is submitted under a name that is one separator or
    has no separator in it. *)
Theorem reconcile_submits_base_names (w : World)
        (uploadFilePath uploadFileName : string) (parentFolder : DriveFile)
        (e : Event) (file : DriveFile) :
  In e (emitted (processUpload uploadFilePath uploadFileName parentFolder w)) ->
  submitted e = Some file ->
  Name file = filepath.Separator \/
  contains (Name file) filepath.Separator = false.
Proof.
  upload_cases; cbn [emitted]; intros Hin Hsub;
    repeat (destruct Hin as [<-|Hin];
            [cbn [submitted] in Hsub; try discriminate;
             injection Hsub as <-; apply Base_no_separator|]);
    destruct Hin.
Qed.

Lemma fold_match_named (folderName : string) (files : list DriveFile) :
  forall init f,
    (forall g, init = Some g -> Name g = folderName) ->
    fold_left (fun folder actualFile =>
                 if (Name actualFile =? folderName)%string
                 then Some actualFile else folder)
              files init = Some f ->
    Name f = folderName.
Proof.
  induction files as [|x files IH]; intros init f Hinit; cbn [fold_left].
  - apply Hinit.
  - apply IH. destruct (String.eqb_spec (Name x) folderName) as [E|_].
    + intros g Hg. injection Hg as <-. exact E.
    + exact Hinit.
Qed.

(** X24. [executeApp] goes on only with a folder in hand, and that folder
    bears the configured name: the folder step returns a folder of that
    name or does not return. *)
Theorem executeApp_folder_bears_name (w : World)
        (folderFile : option DriveFile) :
  outcome (executeApp_folder w) = Returned folderFile ->
  exists f, folderFile = Some f /\ Name f = FolderName (configApp w).
Proof.
  assert (Hmade : forall w1,
    match createFolderInDrive (FolderName (configApp w)) w1 with
    | mkRun (Returned (made, None)) _ _ =>
        exists f, made = Some f /\ Name f = FolderName (configApp w)
    | mkRun (Returned (_, Some _)) _ _ => True
    | _ => False
    end).
  { intros w1. unfold createFolderInDrive, drive.Files_Create. run.
    destruct (driveFault w1 (driveCalls w1)); [exact I|].
    eexists. split; reflexivity. }
  unfold executeApp_folder, findHolderFolder. run.
  destruct (drive.listing _ _ w) as [files|err]; run.
  - destruct (0 <? Z.of_nat (List.length files)); run.
    + cbv zeta.
      destruct (fold_left _ files None) as [f|] eqn:Hfold; run.
      * intros H. injection H as <-. exists f. split; [reflexivity|].
        apply (fold_match_named _ files None f); [discriminate | exact Hfold].
      * specialize (Hmade (set_driveCalls (S (driveCalls w)) w)).
        destruct (createFolderInDrive _ _) as [[[made [e|]]|t|t] w2 ev2];
          run; try discriminate; try contradiction.
        intros H. injection H as <-. exact Hmade.
    + specialize (Hmade (set_driveCalls (S (driveCalls w)) w)).
      destruct (createFolderInDrive _ _) as [[[made [e|]]|t|t] w2 ev2];
        run; try discriminate; try contradiction.
      intros H. injection H as <-. exact Hmade.
  - specialize (Hmade (set_driveCalls (S (driveCalls w)) w)).
    destruct (createFolderInDrive _ _) as [[[made [e|]]|t|t] w2 ev2];
      run; try discriminate; try contradiction.
    intros H. injection H as <-. exact Hmade.
Qed.

Lemma sweep_reconciles_every_eligible_entry_witness :
  (outcome (uploadActualFilesInWatchDir sampleFolder sampleWorld) = Returned tt /\
   In "/home/u/docs" (FolderToWatch (configApp sampleWorld)) /\
   fsDir sampleWorld "/home/u/docs" = inl sampleListing /\
   In (mkFileInfo "a.txt" false) sampleListing /\
   IsDir (mkFileInfo "a.txt" false) = false /\
   passesFilters (totalName "/home/u/docs" (mkFileInfo "a.txt" false)) = true) /\
  (1 <= count (opens (totalName "/home/u/docs" (mkFileInfo "a.txt" false)))
              (emitted (uploadActualFilesInWatchDir sampleFolder sampleWorld)))%nat.
Proof.
  assert (Hret : outcome (uploadActualFilesInWatchDir sampleFolder sampleWorld)
                 = Returned tt) by (vm_compute; reflexivity).
  assert (Hfolder : In "/home/u/docs" (FolderToWatch (configApp sampleWorld)))
    by (left; reflexivity).
  assert (Hdir : fsDir sampleWorld "/home/u/docs" = inl sampleListing)
    by reflexivity.
  assert (Hfile : In (mkFileInfo "a.txt" false) sampleListing)
    by (right; right; left; reflexivity).
  assert (Hreg : IsDir (mkFileInfo "a.txt" false) = false) by reflexivity.
  assert (Hpass : passesFilters
                    (totalName "/home/u/docs" (mkFileInfo "a.txt" false)) = true)
    by (vm_compute; reflexivity).
  split; [repeat split; assumption|].
  apply (sweep_reconciles_every_eligible_entry sampleFolder sampleWorld
           "/home/u/docs" sampleListing (mkFileInfo "a.txt" false)
           Hret Hfolder Hdir Hfile Hreg Hpass).
Defined.

Lemma sweep_reconciles_only_eligible_entries_witness :
  (1 <= count (opens "/home/u/docs/a.txt")
              (emitted (uploadActualFilesInWatchDir sampleFolder sampleWorld)))%nat /\
  exists folder files file,
    In folder (FolderToWatch (configApp sampleWorld)) /\
    fsDir sampleWorld folder = inl files /\
    In file files /\
    IsDir file = false /\
    "/home/u/docs/a.txt" = totalName folder file /\
    passesFilters "/home/u/docs/a.txt" = true.
Proof.
  assert (Hopen : (1 <= count (opens "/home/u/docs/a.txt")
                     (emitted (uploadActualFilesInWatchDir sampleFolder
                                                           sampleWorld)))%nat)
    by (vm_compute; lia).
  split; [exact Hopen|].
  apply (sweep_reconciles_only_eligible_entries sampleFolder sampleWorld
           "/home/u/docs/a.txt" Hopen).
Defined.

Lemma reconcile_fails_clean_witness :
  outcome (processUpload "/home/u/docs/b.txt" "b.txt" sampleFolder sampleWorld)
  <> Returned tt /\
  configApp (final (processUpload "/home/u/docs/b.txt" "b.txt" sampleFolder
                                  sampleWorld)) = configApp sampleWorld /\
  remote (final (processUpload "/home/u/docs/b.txt" "b.txt" sampleFolder
                               sampleWorld)) = remote sampleWorld /\
  fsFile (final (processUpload "/home/u/docs/b.txt" "b.txt" sampleFolder
                               sampleWorld)) = fsFile sampleWorld /\
  ticks (final (processUpload "/home/u/docs/b.txt" "b.txt" sampleFolder
                              sampleWorld)) = ticks sampleWorld /\
  count isWriteFile
        (emitted (processUpload "/home/u/docs/b.txt" "b.txt" sampleFolder
                                sampleWorld)) = 0%nat.
Proof.
  assert (Hfail : outcome (processUpload "/home/u/docs/b.txt" "b.txt"
                                         sampleFolder sampleWorld)
                  <> Returned tt) by (vm_compute; discriminate).
  split; [exact Hfail|].
  apply (reconcile_fails_clean sampleWorld "/home/u/docs/b.txt" "b.txt"
           sampleFolder Hfail).
Defined.

Lemma reconcile_records_sync_time_witness :
  outcome (processUpload "/home/u/docs/a.txt" "a.txt" sampleFolder sampleWorld)
  = Returned tt /\
  configApp (final (processUpload "/home/u/docs/a.txt" "a.txt" sampleFolder
                                  sampleWorld)) = syncedConfig sampleWorld.
Proof.
  assert (Hret : outcome (processUpload "/home/u/docs/a.txt" "a.txt"
                                        sampleFolder sampleWorld)
                 = Returned tt) by (vm_compute; reflexivity).
  split; [exact Hret|].
  apply (reconcile_records_sync_time sampleWorld "/home/u/docs/a.txt" "a.txt"
           sampleFolder Hret).
Defined.

Lemma reconcile_uploads_bytes_witness :
  (fsFile syncedWorld "/home/u/docs/a.txt" = inl "hello" /\
   querySafe (Id sampleFolder) = true /\
   querySafe "a.txt" = true /\
   plainName "a.txt" /\
   outcome (processUpload "/home/u/docs/a.txt" "a.txt" sampleFolder syncedWorld)
   = Returned tt) /\
  exists e rest,
    filesUnder (Id sampleFolder) "a.txt"
      (remote (final (processUpload "/home/u/docs/a.txt" "a.txt" sampleFolder
                                    syncedWorld)))
    = e :: rest /\
    content e = "hello".
Proof.
  assert (Hopen : fsFile syncedWorld "/home/u/docs/a.txt" = inl "hello")
    by reflexivity.
  assert (Hp : querySafe (Id sampleFolder) = true) by reflexivity.
  assert (Hn : querySafe "a.txt" = true) by reflexivity.
  assert (Hplain : plainName "a.txt") by (split; [discriminate | reflexivity]).
  assert (Hret : outcome (processUpload "/home/u/docs/a.txt" "a.txt"
                                        sampleFolder syncedWorld)
                 = Returned tt) by (vm_compute; reflexivity).
  split; [repeat split; try assumption; discriminate|].
  apply (reconcile_uploads_bytes syncedWorld "/home/u/docs/a.txt" "a.txt"
           sampleFolder "hello" Hopen Hp Hn Hplain Hret).
Defined.

Lemma findUploadFileInDrive_first_live_witness :
  (driveFault syncedWorld (driveCalls syncedWorld) = None /\
   querySafe "F1" = true /\ querySafe "a.txt" = true) /\
  outcome (findUploadFileInDrive "a.txt" "F1" syncedWorld)
  = Returned (Some (mkDriveFile "a1" "a.txt" EmptyString []), None).
Proof.
  assert (Hf : driveFault syncedWorld (driveCalls syncedWorld) = None)
    by reflexivity.
  assert (Hp : querySafe "F1" = true) by reflexivity.
  assert (Hn : querySafe "a.txt" = true) by reflexivity.
  split; [repeat split; assumption|].
  apply (findUploadFileInDrive_first_live syncedWorld "a.txt" "F1" Hf Hp Hn).
Defined.

Lemma failed_search_creates_folder_witness :
  (driveFault searchFailsWorld (driveCalls searchFailsWorld)
   = Some "googleapi: Error 503: Backend Error" /\
   driveFault searchFailsWorld (S (driveCalls searchFailsWorld)) = None) /\
  List.length (foldersNamed "EncryptBckDoc"
                 (remote (final (executeApp_folder searchFailsWorld))))
  = 2%nat.
Proof.
  assert (Hfail : driveFault searchFailsWorld (driveCalls searchFailsWorld)
                  = Some "googleapi: Error 503: Backend Error") by reflexivity.
  assert (Hok : driveFault searchFailsWorld (S (driveCalls searchFailsWorld))
                = None) by reflexivity.
  split; [split; assumption|].
  apply (failed_search_creates_folder searchFailsWorld _ Hfail Hok).
Defined.

Lemma folder_resolution_twice_witness :
  ((forall k, driveFault emptyStoreWorld k = None) /\
   foldersNamed (FolderName (configApp emptyStoreWorld))
                (remote emptyStoreWorld) = [] /\
   (List.length (filter (drive.matches drive.QFolders) (remote emptyStoreWorld))
    < drive.pageSize)%nat) /\
  count isCreate
        (emitted (executeApp_folder (final (executeApp_folder emptyStoreWorld))))
  = 0%nat.
Proof.
  assert (Hfault : forall k, driveFault emptyStoreWorld k = None)
    by (intro; reflexivity).
  assert (Hnone : foldersNamed (FolderName (configApp emptyStoreWorld))
                               (remote emptyStoreWorld) = []) by reflexivity.
  assert (Hpage : (List.length (filter (drive.matches drive.QFolders)
                                       (remote emptyStoreWorld))
                   < drive.pageSize)%nat) by (vm_compute; lia).
  split; [repeat split; assumption|].
  apply (folder_resolution_twice emptyStoreWorld Hfault Hnone Hpage).
Defined.

Lemma new_watch_path_appended_witness :
  (FolderToWatch (configApp otherAnswerWorld) <> [] /\
   ~ In (pathToAdd otherAnswerWorld) (FolderToWatch (configApp otherAnswerWorld))) /\
  configApp (final (addFolderToWatch otherAnswerWorld))
  = mkAppConfig "EncryptBckDoc" EmptyString ["/home/u/docs"; "/home/u/pics/"].
Proof.
  assert (Hsome : FolderToWatch (configApp otherAnswerWorld) <> [])
    by discriminate.
  assert (Hnew : ~ In (pathToAdd otherAnswerWorld)
                      (FolderToWatch (configApp otherAnswerWorld))).
  { intros [H|[]]. vm_compute in H. discriminate. }
  split; [split; assumption|].
  apply (new_watch_path_appended otherAnswerWorld Hsome Hnew).
Defined.

Lemma watched_paths_stay_distinct_witness :
  NoDup (FolderToWatch (configApp otherAnswerWorld)) /\
  NoDup (FolderToWatch (configApp (final (addFolderToWatch otherAnswerWorld)))).
Proof.
  assert (Hnodup : NoDup (FolderToWatch (configApp otherAnswerWorld))).
  { repeat constructor. intros []. }
  split; [exact Hnodup|].
  apply (watched_paths_stay_distinct otherAnswerWorld Hnodup).
Defined.

Lemma watch_event_like_sweep_entry_witness :
  (Z.land 2 fsWrite = fsWrite /\ contains "a.txt" filepath.Separator = false) /\
  final (runWatcher_select sampleFolder
           (OnEvents (mkFsEvent ("/home/u/docs" ++ "/" ++ "a.txt") 2))
           sampleWorld)
  = final (uploadActualFile sampleFolder "/home/u/docs"
             (mkFileInfo "a.txt" false) sampleWorld).
Proof.
  assert (Hop : Z.land 2 fsWrite = fsWrite) by reflexivity.
  assert (Hname : contains "a.txt" filepath.Separator = false) by reflexivity.
  split; [split; assumption|].
  pose proof (watch_event_like_sweep_entry sampleFolder "/home/u/docs" "a.txt" 2
                sampleWorld Hop Hname) as H.
  cbv zeta in H. destruct H as (_ & H & _). exact H.
Defined.



Lemma menu_calls_drive_only_on_execute_witness :
  Forall (fun token => strings_ToLower (fun s => s) token <> "e")
         (stdin sampleWorld) /\
  count isDriveCall
        (emitted (showAppMenu (fun s => s) sampleDeliveries 3 sampleWorld))
  = 0%nat.
Proof.
  assert (Hin : Forall (fun token => strings_ToLower (fun s => s) token <> "e")
                       (stdin sampleWorld)).
  { repeat constructor. discriminate. }
  split; [exact Hin|].
  apply (menu_calls_drive_only_on_execute (fun s => s) sampleDeliveries 3
           sampleWorld Hin).
Defined.

Lemma config_save_load_coerces_witness :
  fsWritable latin1PathWorld configFileName = true /\
  outcome (loadConfig (final (saveConfigJSONFile latin1PathWorld)))
  = Returned (coerced (configApp latin1PathWorld), None).
Proof.
  assert (Hwr : fsWritable latin1PathWorld configFileName = true)
    by reflexivity.
  split; [exact Hwr|].
  apply (config_save_load_coerces latin1PathWorld Hwr).
Defined.

Lemma suffix_test_covers_exact_test_witness :
  rev2.isNotAppFile "/home/u/docs" "/home/u/docs/config.json" = false /\
  isNotAppFile "/home/u/docs/config.json" = false.
Proof.
  assert (H : rev2.isNotAppFile "/home/u/docs" "/home/u/docs/config.json"
              = false) by reflexivity.
  split; [exact H|].
  apply (suffix_test_covers_exact_test "/home/u/docs"
           "/home/u/docs/config.json" H).
Defined.

Lemma second_round_trip_exact_witness :
  (fsWritable latin1PathWorld configFileName = true /\
   outcome (loadConfig (final (saveConfigJSONFile latin1PathWorld)))
   = Returned (coerced (configApp latin1PathWorld), None)) /\
  validConfig (coerced (configApp latin1PathWorld)).
Proof.
  assert (Hwr : fsWritable latin1PathWorld configFileName = true)
    by reflexivity.
  assert (Hload : outcome (loadConfig (final (saveConfigJSONFile latin1PathWorld)))
                  = Returned (coerced (configApp latin1PathWorld), None))
    by (vm_compute; reflexivity).
  split; [split; assumption|].
  apply (second_round_trip_exact latin1PathWorld Hwr
           (coerced (configApp latin1PathWorld)) Hload).
Defined.

Lemma reconcile_submits_base_names_witness :
  (In (EvCreate (mkDriveFile EmptyString "a.txt" EmptyString ["F1"])
                (Some "hello"))
      (emitted (processUpload "/home/u/docs/a.txt" "docs/a.txt" sampleFolder
                              sampleWorld)) /\
   submitted (EvCreate (mkDriveFile EmptyString "a.txt" EmptyString ["F1"])
                       (Some "hello"))
   = Some (mkDriveFile EmptyString "a.txt" EmptyString ["F1"])) /\
  (Name (mkDriveFile EmptyString "a.txt" EmptyString ["F1"])
   = filepath.Separator \/
   contains (Name (mkDriveFile EmptyString "a.txt" EmptyString ["F1"]))
            filepath.Separator = false).
Proof.
  assert (Hin : In (EvCreate (mkDriveFile EmptyString "a.txt" EmptyString ["F1"])
                             (Some "hello"))
                   (emitted (processUpload "/home/u/docs/a.txt" "docs/a.txt"
                                           sampleFolder sampleWorld))).
  { vm_compute. right. right. right. right. left. reflexivity. }
  assert (Hsub : submitted (EvCreate (mkDriveFile EmptyString "a.txt"
                                                  EmptyString ["F1"])
                                     (Some "hello"))
                 = Some (mkDriveFile EmptyString "a.txt" EmptyString ["F1"]))
    by reflexivity.
  split; [split; assumption|].
  apply (reconcile_submits_base_names sampleWorld "/home/u/docs/a.txt"
           "docs/a.txt" sampleFolder _ _ Hin Hsub).
Defined.

Lemma executeApp_folder_bears_name_witness :
  outcome (executeApp_folder sampleWorld) = Returned (Some sampleFolder) /\
  exists f, Some sampleFolder = Some f /\
            Name f = FolderName (configApp sampleWorld).
Proof.
  assert (Hret : outcome (executeApp_folder sampleWorld)
                 = Returned (Some sampleFolder)) by (vm_compute; reflexivity).
  split; [exact Hret|].
  apply (executeApp_folder_bears_name sampleWorld (Some sampleFolder) Hret).
Defined.
